(** * Brokerage extraction and reconciliation: a shallow embedding of [app.py]

    The development follows the layout of the source file:
    - [PyText]: the Python string operations the program relies on
      ([str.strip], [str.lower], [in], [str.splitlines], ...);
    - [Regex]: a backtracking matcher for the fragment of [re] the program's
      patterns are written in, with [search], [findall] and [sub];
    - [Config]: the module-level constants;
    - [Extract]: [normalize] and [extract_scheme_data];
    - [Fill]: [fill_excel] and its inner [get_brokerage];
    - [Semantics], [Props], [Examples]: what a match is, the properties
      the theorems speak of, and the inputs of the examples;
    - [Upload], [MoreProps], [Loop]: [allowed_file], further properties,
      and the attempts the loop over the passwords makes.

    The PDF, spreadsheet and fuzzy-matching libraries are parameters: a
    page gives its tables and its text or raises, a column of cells is
    formatted as dates by a function of the library, and a score
    function ranks the choices of [extractOne].

    Text is a list of characters with code points below 256: the theorems
    on texts speak of such texts only.  Rates are the
    floats the program parses from decimals with at most two fractional
    digits; they are kept exactly, in hundredths. *)

From Stdlib Require Import List String Ascii Bool Arith NArith Lia DecimalString.
Import ListNotations.

Set Implicit Arguments.

(* ================================================================== *)
(** ** Python text *)
(* ================================================================== *)

Module PyText.

Definition text := list ascii.

(** A literal of the source, written as a Rocq string. *)
Definition str (s : string) : text := list_ascii_of_string s.

Definition code (c : ascii) : nat := nat_of_ascii c.

Definition in_range (lo hi : nat) (c : ascii) : bool :=
  (lo <=? code c) && (code c <=? hi).

Definition text_eqb (a b : text) : bool :=
  if list_eq_dec ascii_dec a b then true else false.

(** [str.isspace] on one character: U+0009..U+000D, U+001C..U+0020, U+0085
    and U+00A0.  It is also the class [\s] of a [str] pattern. *)
Definition is_space (c : ascii) : bool :=
  in_range 9 13 c || in_range 28 32 c || (code c =? 133) || (code c =? 160).

(** The class [\d] of a [str] pattern (decimal digits). *)
Definition is_digit (c : ascii) : bool := in_range 48 57 c.

Definition is_upper (c : ascii) : bool :=
  in_range 65 90 c || in_range 192 214 c || in_range 216 222 c.

(** Alphabetic characters below 256 (categories Lu, Ll, Lo). *)
Definition is_alpha (c : ascii) : bool :=
  in_range 65 90 c || in_range 97 122 c
  || (code c =? 170) || (code c =? 181) || (code c =? 186)
  || in_range 192 214 c || in_range 216 246 c || in_range 248 255 c.

(** Characters with a numeric value below 256: the decimal digits, the
    superscripts 1, 2, 3 and the vulgar fractions. *)
Definition is_numeric (c : ascii) : bool :=
  is_digit c || (code c =? 178) || (code c =? 179) || (code c =? 185)
  || in_range 188 190 c.

(** The class [\w] of a [str] pattern: alphanumeric or underscore. *)
Definition is_word (c : ascii) : bool :=
  is_alpha c || is_numeric c || (code c =? 95).

(** [str.lower], one character. *)
Definition lower_char (c : ascii) : ascii :=
  if is_upper c then ascii_of_nat (code c + 32) else c.

(** [str.lower] *)
Definition lower (s : text) : text := map lower_char s.

(** [str.upper], one character.  The sharp s becomes two characters; the
    micro sign and the y with diaeresis have their capital above 255 and
    stand for themselves here: a label holding one of them equals no key of
    the tables it is looked up in, which are ASCII. *)
Definition upper_char (c : ascii) : text :=
  if in_range 97 122 c || in_range 224 246 c || in_range 248 254 c
  then [ascii_of_nat (code c - 32)]
  else if code c =? 223 then str "SS"
  else [c].

(** [str.upper] *)
Definition upper (s : text) : text := flat_map upper_char s.

Fixpoint lstrip (s : text) : text :=
  match s with
  | c :: s' => if is_space c then lstrip s' else s
  | [] => []
  end.

Definition rstrip (s : text) : text := rev (lstrip (rev s)).

(** [str.strip] with no argument *)
Definition strip (s : text) : text := rstrip (lstrip s).

(** [s.rstrip(chars)] for a one-character [chars] *)
Definition rstrip_char (ch : ascii) (s : text) : text :=
  rev ((fix drop (l : text) : text :=
          match l with
          | c :: l' => if Ascii.eqb c ch then drop l' else l
          | [] => []
          end) (rev s)).

Fixpoint starts_with (p s : text) : bool :=
  match p, s with
  | [], _ => true
  | a :: p', b :: s' => Ascii.eqb a b && starts_with p' s'
  | _ :: _, [] => false
  end.

(** [needle in hay] *)
Fixpoint contains (needle hay : text) : bool :=
  starts_with needle hay ||
  match hay with
  | [] => false
  | _ :: hay' => contains needle hay'
  end.

Definition ends_with (p s : text) : bool := starts_with (rev p) (rev s).

(** [any(x in s for x in xs)] *)
Definition contains_any (xs : list text) (s : text) : bool :=
  existsb (fun x => contains x s) xs.

(** Line boundaries of [str.splitlines] below 256. *)
Definition is_linebreak (c : ascii) : bool :=
  in_range 10 13 c || in_range 28 30 c || (code c =? 133).

(** [str.splitlines]: [cur] is the line being read, reversed. *)
Fixpoint splitlines_from (cur : text) (s : text) : list text :=
  match s with
  | [] => match cur with [] => [] | _ => [rev cur] end
  | c :: s' =>
      if is_linebreak c then
        match s' with
        | d :: s'' =>
            if (code c =? 13) && (code d =? 10)
            then rev cur :: splitlines_from [] s''
            else rev cur :: splitlines_from [] s'
        | [] => [rev cur]
        end
      else splitlines_from (c :: cur) s'
  end.

Definition splitlines (s : text) : list text := splitlines_from [] s.

End PyText.
Import PyText.

(* ================================================================== *)
(** ** Regular expressions *)
(* ================================================================== *)

Module Regex.

(** The constructs the program's patterns use.  Groups only delimit; the
    one group whose text is read ([rate_pattern]) spans its whole match. *)
Inductive regex : Type :=
| Eps
| Chr (p : ascii -> bool)      (* a literal character or a class *)
| Seq (r1 r2 : regex)
| Alt (r1 r2 : regex)          (* r1|r2, left alternative first *)
| Opt (r : regex)              (* r?, greedy *)
| Star (p : ascii -> bool)     (* c*, greedy, over one character *)
| WordB                        (* \b *)
| EndS.                        (* $ without MULTILINE *)

Definition chr (c : ascii) : regex := Chr (Ascii.eqb c).

(** A literal character under [re.IGNORECASE]. *)
Definition chr_i (c : ascii) : regex :=
  Chr (fun x => Ascii.eqb (lower_char x) (lower_char c)).

Fixpoint seqs (rs : list regex) : regex :=
  match rs with
  | [] => Eps
  | [r] => r
  | r :: rs' => Seq r (seqs rs')
  end.

Fixpoint alts (rs : list regex) : regex :=
  match rs with
  | [] => Chr (fun _ => false)
  | [r] => r
  | r :: rs' => Alt r (alts rs')
  end.

Definition lit (s : string) : regex := seqs (map chr (str s)).
Definition lit_i (s : string) : regex := seqs (map chr_i (str s)).

Definition is_word_opt (c : option ascii) : bool :=
  match c with Some c => is_word c | None => false end.

Definition head_is_word (s : text) : bool :=
  match s with c :: _ => is_word c | [] => false end.

Section Matcher.
Variable A : Type.

(** A continuation receives the character before the current position
    and the text still to read. *)
Definition cont := option ascii -> text -> option A.

Fixpoint star (p : ascii -> bool) (prev : option ascii) (s : text)
         (k : cont) : option A :=
  match s with
  | c :: s' =>
      if p c then
        match star p (Some c) s' k with
        | Some a => Some a
        | None => k prev s
        end
      else k prev s
  | [] => k prev s
  end.

(** Backtracking match of [r] at the current position: the first
    success in the order the engine explores. *)
Fixpoint rmatch (r : regex) (prev : option ascii) (s : text)
         (k : cont) : option A :=
  match r with
  | Eps => k prev s
  | Chr p =>
      match s with
      | c :: s' => if p c then k (Some c) s' else None
      | [] => None
      end
  | Seq r1 r2 => rmatch r1 prev s (fun prev' s' => rmatch r2 prev' s' k)
  | Alt r1 r2 =>
      match rmatch r1 prev s k with
      | Some a => Some a
      | None => rmatch r2 prev s k
      end
  | Opt r1 =>
      match rmatch r1 prev s k with
      | Some a => Some a
      | None => k prev s
      end
  | Star p => star p prev s k
  | WordB =>
      if xorb (is_word_opt prev) (head_is_word s) then k prev s else None
  | EndS =>
      match s with
      | [] => k prev s
      | [c] => if code c =? 10 then k prev s else None
      | _ => None
      end
  end.
End Matcher.

(** The match of [r] starting exactly here: the text left after it. *)
Definition match_here (r : regex) (prev : option ascii) (s : text)
  : option text :=
  rmatch r prev s (fun _ rest => Some rest).

(** [pattern.search(s)] as a truth value. *)
Fixpoint search_from (r : regex) (prev : option ascii) (s : text) : bool :=
  match match_here r prev s with
  | Some _ => true
  | None =>
      match s with
      | [] => false
      | c :: s' => search_from r (Some c) s'
      end
  end.

Definition search (r : regex) (s : text) : bool := search_from r None s.

(** The matched text, given the text before and after the match. *)
Definition matched (s rest : text) : text :=
  firstn (List.length s - List.length rest) s.

(** One scan over the text, left to right, for the non-overlapping
    matches: [fuel] bounds the positions still to visit.  A match that
    consumes nothing is recorded and the scan moves on by one character;
    the patterns of the program consume a character or more wherever they
    match. *)
Fixpoint scan (fuel : nat) (r : regex) (prev : option ascii) (s : text)
  : list (text + ascii) :=
  match fuel with
  | O => []
  | S fuel' =>
      match match_here r prev s with
      | Some rest =>
          if List.length rest <? List.length s then
            inl (matched s rest)
              :: scan fuel' r (last (map Some (matched s rest)) prev) rest
          else
            inl [] ::
            match s with
            | [] => []
            | c :: s' => inr c :: scan fuel' r (Some c) s'
            end
      | None =>
          match s with
          | [] => []
          | c :: s' => inr c :: scan fuel' r (Some c) s'
          end
      end
  end.

Definition pieces (r : regex) (s : text) : list (text + ascii) :=
  scan (S (List.length s)) r None s.

(** The matches of a scan, and the characters outside them. *)
Definition found (ps : list (text + ascii)) : list text :=
  flat_map (fun p => match p with inl m => [m] | inr _ => [] end) ps.

Definition kept (ps : list (text + ascii)) : text :=
  flat_map (fun p => match p with inl _ => [] | inr c => [c] end) ps.

(** [pattern.findall(s)] for a pattern whose only group is the whole
    match. *)
Definition findall (r : regex) (s : text) : list text :=
  found (pieces r s).

(** [re.sub(pattern, empty, s)]: the text without the matches. *)
Definition sub_empty (r : regex) (s : text) : text :=
  kept (pieces r s).

End Regex.
Import Regex.

(* ================================================================== *)
(** ** Python dictionaries *)
(* ================================================================== *)

(** A [dict] keeps its keys in insertion order; assigning to a key that is
    present keeps the key's place. *)
Module Dict.
Section Dict.
Variables K V : Type.
Variable eqb : K -> K -> bool.

Definition dict := list (K * V).

Fixpoint get (d : dict) (k : K) : option V :=
  match d with
  | [] => None
  | (k', v) :: d' => if eqb k k' then Some v else get d' k
  end.

Definition mem (d : dict) (k : K) : bool :=
  match get d k with Some _ => true | None => false end.

Fixpoint set (d : dict) (k : K) (v : V) : dict :=
  match d with
  | [] => [(k, v)]
  | (k', v') :: d' =>
      if eqb k k' then (k', v) :: d' else (k', v') :: set d' k v
  end.

Definition keys (d : dict) : list K := map fst d.
Definition values (d : dict) : list V := map snd d.
End Dict.
End Dict.

(* ================================================================== *)
(** ** Configuration *)
(* ================================================================== *)

Module Config.

(** A rate in hundredths: [50] is the float [0.5].  The floats of the
    program are read from decimals with one or two fractional digits, or
    are constants with two; the program compares them with [10.0], tests
    them for zero and for equality, and stores them.  On such decimals
    these tests give what they give on the nearest floats. *)
Definition rate := N.

(** [PDF_PASSWORDS]; the last password is the empty string. *)
Definition PDF_PASSWORDS : list text :=
  [str "ARN100481"; str "AAHCP7661C"; []].

(** [MAX_REASONABLE_RATE = 10.0] *)
Definition MAX_REASONABLE_RATE : rate := 1000%N.

Inductive tier := FIRST | SECOND | THIRD | FOURTH | LONGTERM.

Definition tier_eqb (a b : tier) : bool :=
  match a, b with
  | FIRST, FIRST | SECOND, SECOND | THIRD, THIRD
  | FOURTH, FOURTH | LONGTERM, LONGTERM => true
  | _, _ => false
  end.

Definition tier_name (t : tier) : text :=
  match t with
  | FIRST => str "FIRST YEAR TRAIL"
  | SECOND => str "SECOND YEAR TRAIL"
  | THIRD => str "THIRD YEAR TRAIL"
  | FOURTH => str "FOURTH YEAR TRAIL"
  | LONGTERM => str "LONGTERM YEAR TRAIL"
  end.

Definition BROKERAGE_TYPES : list tier :=
  [FIRST; SECOND; THIRD; FOURTH; LONGTERM].

(** The dictionary [{bt: ... for bt in BROKERAGE_TYPES}]: it always has
    exactly the five keys, so it is a record of five optional rates. *)
Record rates := Rates {
  first_year : option rate;
  second_year : option rate;
  third_year : option rate;
  fourth_year : option rate;
  longterm_year : option rate
}.

(** [{bt: None for bt in BROKERAGE_TYPES}] *)
Definition no_rates : rates := Rates None None None None None.

(** [rates.get(bt)] *)
Definition rget (r : rates) (t : tier) : option rate :=
  match t with
  | FIRST => first_year r
  | SECOND => second_year r
  | THIRD => third_year r
  | FOURTH => fourth_year r
  | LONGTERM => longterm_year r
  end.

(** [rates[bt] = v] *)
Definition rset (r : rates) (t : tier) (v : option rate) : rates :=
  match t with
  | FIRST => Rates v (second_year r) (third_year r) (fourth_year r) (longterm_year r)
  | SECOND => Rates (first_year r) v (third_year r) (fourth_year r) (longterm_year r)
  | THIRD => Rates (first_year r) (second_year r) v (fourth_year r) (longterm_year r)
  | FOURTH => Rates (first_year r) (second_year r) (third_year r) v (longterm_year r)
  | LONGTERM => Rates (first_year r) (second_year r) (third_year r) (fourth_year r) v
  end.

(** [rates.values()] *)
Definition rvalues (r : rates) : list (option rate) :=
  map (rget r) BROKERAGE_TYPES.

(** [SCHEME_VALIDATIONS] *)
Definition SCHEME_VALIDATIONS : list (text * list (tier * rate)) :=
  [ (str "hsbc financial services fund", [(FOURTH, 135%N)]);
    (str "hsbc india export opportunities fund",
       [(THIRD, 145%N); (FOURTH, 135%N)]);
    (str "hsbc midcap fund",
       [(THIRD, 115%N); (FOURTH, 105%N); (LONGTERM, 105%N)]) ].

Definition sp := Star is_space.                    (* \s* *)
Definition year_yr := Alt (lit_i "year") (lit_i "yr").
Definition suffix :=
  Opt (alts [lit_i "trail"; lit_i "commission"; lit_i "rate"]).

(** [\b(w1|w2)\s*(year|yr)\s*(trail|commission|rate)?\b] *)
Definition ordinal_pattern (w1 w2 : string) : regex :=
  seqs [WordB; Alt (lit_i w1) (lit_i w2); sp; year_yr; sp; suffix; WordB].

(** [1\s*[-to]\s*3]: the bracket is a class of the three characters
    [-], [t] and [o]. *)
Definition one_dash_three : regex :=
  seqs [chr_i "1"; sp;
        Chr (fun c => existsb (fun x => Ascii.eqb (lower_char c) x)
                              (str "-to"));
        sp; chr_i "3"].

Definition longterm_pattern : regex :=
  seqs [WordB;
        alts [lit_i "longterm";
              seqs [lit_i "long"; sp; lit_i "term"];
              Seq (chr_i "5") (Opt (chr_i "+"));
              seqs [lit_i "beyond"; sp; chr_i "4"]];
        sp; Opt year_yr; sp; suffix; WordB].

Definition range_years_pattern : regex :=
  seqs [WordB;
        alts [one_dash_three;
              seqs [chr_i "1"; sp; lit_i "through"; sp; chr_i "3"];
              seqs [lit_i "first"; sp; chr_i "3"];
              seqs [lit_i "initial"; sp; chr_i "3"]];
        sp;
        alts [lit_i "year"; lit_i "years"; lit_i "yr"; lit_i "yrs"];
        sp; suffix; WordB].

Definition trail_range_pattern : regex :=
  seqs [WordB;
        Alt (seqs [lit_i "trail"; sp; Alt one_dash_three (lit_i "1-3")])
            (seqs [lit_i "year"; Opt (chr_i "s"); sp; lit_i "1-3"]);
        WordB].

Definition BROKERAGE_COLUMN_PATTERNS : list (regex * list tier) :=
  [ (ordinal_pattern "first" "1st", [FIRST]);
    (ordinal_pattern "second" "2nd", [SECOND]);
    (ordinal_pattern "third" "3rd", [THIRD]);
    (ordinal_pattern "fourth" "4th", [FOURTH]);
    (longterm_pattern, [LONGTERM]);
    (range_years_pattern, [FIRST; SECOND; THIRD]);
    (trail_range_pattern, [FIRST; SECOND; THIRD]) ].

(** [rate_pattern = re.compile(r"(\d*\.\d{1,2}%?)")] *)
Definition rate_pattern : regex :=
  seqs [Star is_digit; chr "."; Chr is_digit; Opt (Chr is_digit);
        Opt (chr "%")].

(** The character class [[^\w\s.]] of [normalize]. *)
Definition special (c : ascii) : bool :=
  negb (is_word c || is_space c || Ascii.eqb c ".").

Definition PLAN_QUALIFIERS : list text :=
  [str "regular plan"; str "reg"; str "institutional plan";
   str "ex institutional plan"; str "retail plan"; str "long term plan"].

(** [\s*(regular plan|reg|...|long term plan)\s*$] *)
Definition plan_suffix_pattern : regex :=
  seqs [sp; alts (map (fun q => seqs (map chr q)) PLAN_QUALIFIERS); sp; EndS].

Definition FOOTER_MARKERS : list text :=
  [str "scheme name"; str "total"; str "aggregate"].

Definition NAME_MARKERS : list text :=
  [str "scheme"; str "fund"; str "name"].

End Config.
Import Config.

(* ================================================================== *)
(** ** Extraction: [normalize] and [extract_scheme_data] *)
(* ================================================================== *)

Module Extract.

Definition is_empty {A : Type} (l : list A) : bool :=
  match l with [] => true | _ => false end.

(** Line 220: the characters of [[^\w\s.]] are removed, then
    [.strip().lower()]. *)
Definition remove_special (t : text) : text :=
  lower (strip (sub_empty (Chr special) t)).

(** Line 221: a match of [\s*(regular plan|...)\s*$] is removed. *)
Definition remove_plan_suffix (t : text) : text :=
  sub_empty plan_suffix_pattern t.

(** [normalize(text)] *)
Definition normalize (t : text) : text :=
  strip (remove_plan_suffix (remove_special t)).

(** The tiers of the first pattern of [BROKERAGE_COLUMN_PATTERNS] that is
    found in the fragment (the loop with [break] of both extractors). *)
Fixpoint first_match (ps : list (regex * list tier)) (s : text)
  : list tier :=
  match ps with
  | [] => []
  | (pattern, brokerage_types) :: ps' =>
      if search pattern s then brokerage_types else first_match ps' s
  end.

Definition classify (s : text) : list tier :=
  first_match BROKERAGE_COLUMN_PATTERNS s.

(** *** Floats *)

Definition digit_val (c : ascii) : N := N.of_nat (code c - 48).

Definition digits_val (s : text) : N :=
  fold_left (fun acc c => (10 * acc + digit_val c)%N) s 0%N.

Fixpoint split_dot (s : text) : option (text * text) :=
  match s with
  | [] => None
  | c :: s' =>
      if Ascii.eqb c "." then Some ([], s')
      else match split_dot s' with
           | Some (a, b) => Some (c :: a, b)
           | None => None
           end
  end.

(** [float(s)] for the decimals [rate_pattern] finds: digits, a period and
    one or two digits.  [None] is the [ValueError] branch, which no text
    that [rate_pattern] finds takes. *)
Definition to_float (s : text) : option rate :=
  match split_dot s with
  | Some (ip, [d1]) =>
      if forallb is_digit ip && is_digit d1
      then Some (100 * digits_val ip + 10 * digit_val d1)%N
      else None
  | Some (ip, [d1; d2]) =>
      if forallb is_digit ip && is_digit d1 && is_digit d2
      then Some (100 * digits_val ip + 10 * digit_val d1 + digit_val d2)%N
      else None
  | _ => None
  end.

(** [m.replace(",", ".")] *)
Definition replace_comma (s : text) : text :=
  map (fun c => if Ascii.eqb c "," then "."%char else c) s.

(** [float(m.replace(",", ".").rstrip("%"))] followed by the ceiling test:
    the value to store, if one is stored. *)
Definition accepted_rate (m : text) : option rate :=
  match to_float (rstrip_char "%" (replace_comma m)) with
  | Some rate_value =>
      if (MAX_REASONABLE_RATE <? rate_value)%N then None else Some rate_value
  | None => None
  end.

(** Truth value of an optional float: [None] and [0.0] are false. *)
Definition truthy (r : option rate) : bool :=
  match r with
  | Some v => negb (v =? 0)%N
  | None => false
  end.

Definition is_some {A : Type} (o : option A) : bool :=
  match o with Some _ => true | None => false end.

(** [if rates.get("FOURTH YEAR TRAIL") and not rates.get("LONGTERM YEAR
    TRAIL"): rates["LONGTERM YEAR TRAIL"] = rates["FOURTH YEAR TRAIL"]] *)
Definition longterm_default (r : rates) : rates :=
  if truthy (rget r FOURTH) && negb (truthy (rget r LONGTERM))
  then rset r LONGTERM (rget r FOURTH)
  else r.

(** [any(r for r in rates.values() if r is not None)] *)
Definition any_rate (r : rates) : bool :=
  existsb truthy (filter is_some (rvalues r)).

(** *** The document *)

(** A cell of an extracted table is a [str] or [None]. *)
Definition cell := option text.
Definition row := list cell.
Definition table := list row.

(** A call into the PDF library returns or raises. *)
Inductive call (A : Type) : Type :=
| Returns (a : A)
| Raises.
Arguments Raises {A}.

Record page := Page {
  extract_tables : call (list table);
  extract_text : call (option text)
}.

Definition document := list page.

(** [str(cell)] *)
Definition py_str (c : cell) : text :=
  match c with
  | Some s => s
  | None => str "None"
  end.

(** Truth value of a cell. *)
Definition cell_true (c : cell) : bool :=
  match c with
  | Some (_ :: _) => true
  | _ => false
  end.

Definition registry := Dict.dict text rates.
Definition reg_get (sm : registry) (k : text) := Dict.get text_eqb sm k.
Definition reg_set (sm : registry) (k : text) (v : rates) : registry :=
  Dict.set text_eqb sm k v.

(** *** Tables *)

Inductive col_key := SCHEME | BT (t : tier).

Definition col_key_eqb (a b : col_key) : bool :=
  match a, b with
  | SCHEME, SCHEME => true
  | BT x, BT y => tier_eqb x y
  | _, _ => false
  end.

Definition col_mapping := Dict.dict col_key nat.

Definition enumerate {A : Type} (l : list A) : list (nat * A) :=
  combine (seq 0 (List.length l)) l.

(** Lines 117-128. *)
Definition header_of (r : row) : list text :=
  map (fun c => if cell_true c then normalize (py_str c) else []) r.

Definition map_column (cm : col_mapping) (ic : nat * text) : col_mapping :=
  let (i, col) := ic in
  let col_lower := lower col in
  if contains_any NAME_MARKERS col_lower then Dict.set col_key_eqb cm SCHEME i
  else fold_left (fun cm bt => Dict.set col_key_eqb cm (BT bt) i)
                 (classify col_lower) cm.

Definition map_header (header : list text) : col_mapping :=
  fold_left map_column (enumerate header) [].

(** Lines 144-153 for one mapped column. *)
Definition cell_rate (c : cell) : option rate :=
  let cell_value := if cell_true c then strip (py_str c) else [] in
  match findall rate_pattern cell_value with
  | m :: _ => accepted_rate m
  | [] => None
  end.

(** Lines 140-153. *)
Definition row_rates (cm : col_mapping) (r : row) : rates :=
  fold_left
    (fun rates (e : col_key * nat) =>
       match e with
       | (SCHEME, _) => rates
       | (BT bt, col_idx) =>
           if List.length r <=? col_idx then rates
           else match cell_rate (nth col_idx r None) with
                | Some rate_value => rset rates bt (Some rate_value)
                | None => rates
                end
       end)
    cm no_rates.

(** Lines 140-156: the record of one data row. *)
Definition row_record (cm : col_mapping) (r : row) : rates :=
  longterm_default (row_rates cm r).

(** Lines 134-159: one data row. *)
Definition table_row (cm : col_mapping) (scheme_idx : nat)
           (sm : registry) (r : row) : registry :=
  if is_empty r || (List.length r <=? scheme_idx) then sm
  else
    let scheme_name := normalize (py_str (nth scheme_idx r None)) in
    if is_empty scheme_name || contains_any FOOTER_MARKERS scheme_name
    then sm
    else
      let rates := row_record cm r in
      if any_rate rates then reg_set sm scheme_name rates else sm.

(** Lines 113-159: one table; the state is [(scheme_map, tables_found)]. *)
Definition process_table (st : registry * bool) (t : table)
  : registry * bool :=
  match t with
  | header_row :: ((_ :: _) as data) =>
      let cm := map_header (header_of header_row) in
      match Dict.get col_key_eqb cm SCHEME with
      | Some scheme_idx => (fold_left (table_row cm scheme_idx) data (fst st), true)
      | None => (fst st, true)
      end
  | _ => st
  end.

(** *** Text *)

(** Lines 184-197: the rates of one sub-line; the state is
    [(rates, rate_idx)]. *)
Definition take_rate (matched_brokerage_types : list tier)
           (st : rates * nat) (m : text) : rates * nat :=
  let (rates, rate_idx) := st in
  match accepted_rate m with
  | None => st
  | Some rate_value =>
      if negb (is_empty matched_brokerage_types)
         && (rate_idx <? List.length matched_brokerage_types)
      then (fold_left (fun r bt => rset r bt (Some rate_value))
                      matched_brokerage_types rates,
            rate_idx + List.length matched_brokerage_types)
      else
        match nth_error BROKERAGE_TYPES rate_idx with
        | Some bt => (rset rates bt (Some rate_value), rate_idx + 1)
        | None => st
        end
  end.

(** Lines 177-197. *)
Definition sub_line (st : rates * nat) (raw : text) : rates * nat :=
  let subline := normalize (strip raw) in
  let sub_matches := findall rate_pattern subline in
  fold_left (take_rate (classify subline)) sub_matches st.

(** Lines 174-197: [lines] is [lines[i:]], of which the loop reads
    [lines[i : min(i + len(BROKERAGE_TYPES), len(lines))]]. *)
Definition block_rates (lines : list text) : rates :=
  fst (fold_left sub_line (firstn (List.length BROKERAGE_TYPES) lines)
                 (no_rates, 0)).

(** Lines 174-199: the record of the block that starts at line [i]. *)
Definition block_record (lines : list text) : rates :=
  longterm_default (block_rates lines).

(** Lines 167-201 at line [i]; [lines] is [lines[i:]]. *)
Definition text_line (lines : list text) (sm : registry) : registry :=
  match lines with
  | [] => sm
  | raw :: _ =>
      let line := normalize (strip raw) in
      if is_empty line || contains_any FOOTER_MARKERS line then sm
      else
        let matches := findall rate_pattern line in
        let scheme_name := normalize (strip (sub_empty rate_pattern line)) in
        if negb (is_empty matches) && negb (is_empty scheme_name)
           && negb (existsb (fun bt => contains (lower (tier_name bt)) scheme_name)
                            BROKERAGE_TYPES)
        then
          let rates := block_record lines in
          if any_rate rates then reg_set sm scheme_name rates else sm
        else sm
  end.

Fixpoint text_lines (lines : list text) (sm : registry) : registry :=
  match lines with
  | [] => sm
  | _ :: rest => text_lines rest (text_line lines sm)
  end.

(** Lines 163-201. *)
Definition text_pass (t : option text) (sm : registry) : registry :=
  match t with
  | Some ((_ :: _) as s) => text_lines (splitlines s) sm
  | _ => sm
  end.

(** *** Pages and attempts *)

(** The variables of one attempt.  [fallback_log] is a ghost: one entry
    for each page whose tables were read, telling whether line 162 was
    reached on it. *)
Record attempt_state := AttemptState {
  scheme_map : registry;
  tables_found : bool;
  fallback_log : list bool
}.

(** A block of the [try] either runs to its end or raises; the variables
    keep what was assigned before the exception. *)
Inductive outcome :=
| Done (st : attempt_state)
| Raised (st : attempt_state).

Definition state_of (o : outcome) : attempt_state :=
  match o with Done st | Raised st => st end.

(** Lines 110-201: one page. *)
Definition process_page (st : attempt_state) (pg : page) : outcome :=
  match extract_tables pg with
  | Raises => Raised st
  | Returns tables =>
      let (sm, found) :=
        fold_left process_table tables (scheme_map st, tables_found st) in
      if negb found || is_empty sm then
        match extract_text pg with
        | Raises => Raised (AttemptState sm found (fallback_log st ++ [true]))
        | Returns t =>
            Done (AttemptState (text_pass t sm) found
                               (fallback_log st ++ [true]))
        end
      else Done (AttemptState sm found (fallback_log st ++ [false]))
  end.

Fixpoint process_pages (st : attempt_state) (pages : list page) : outcome :=
  match pages with
  | [] => Done st
  | pg :: rest =>
      match process_page st pg with
      | Done st' => process_pages st' rest
      | Raised st' => Raised st'
      end
  end.

(** Lines 207-210. *)
Definition validate_rate (r : rates) (e : tier * rate) : rates :=
  let (brokerage_type, expected_rate) := e in
  match rget r brokerage_type with
  | Some current_rate =>
      if (current_rate =? expected_rate)%N then r
      else rset r brokerage_type (Some expected_rate)
  | None => rset r brokerage_type (Some expected_rate)
  end.

(** Lines 204-210. *)
Definition validate_scheme (sm : registry) (e : text * list (tier * rate))
  : registry :=
  let (scheme, expected_rates) := e in
  match reg_get sm scheme with
  | Some rates => reg_set sm scheme (fold_left validate_rate expected_rates rates)
  | None => sm
  end.

Definition apply_validations (sm : registry) : registry :=
  fold_left validate_scheme SCHEME_VALIDATIONS sm.

Section Attempts.
(** [pdfplumber.open(pdf_path, password=...)]: the document, or an
    exception. *)
Variable pdf_open : text -> option text -> call document.

(** [password or None] *)
Definition password_or_none (password : text) : option text :=
  match password with [] => None | _ => Some password end.

(** Lines 106-201: the body of the [with] up to the end of the page loop,
    from the registry [sm] the function holds when the attempt starts. *)
Definition attempt (pdf_path password : text) (sm : registry) : outcome :=
  match pdf_open pdf_path (password_or_none password) with
  | Raises => Raised (AttemptState sm false [])
  | Returns pdf => process_pages (AttemptState sm false []) pdf
  end.

(** Lines 104-216: the loop over the passwords; [sm] is [scheme_map],
    assigned once before the loop. *)
Fixpoint try_passwords (pdf_path : text) (passwords : list text)
         (sm : registry) : registry :=
  match passwords with
  | [] => []
  | password :: rest =>
      match attempt pdf_path password sm with
      | Done st =>
          if negb (is_empty (scheme_map st))
          then apply_validations (scheme_map st)
          else try_passwords pdf_path rest (scheme_map st)
      | Raised st => try_passwords pdf_path rest (scheme_map st)
      end
  end.

Definition extract_scheme_data (pdf_path : text) (passwords : list text)
  : registry :=
  try_passwords pdf_path passwords [].
End Attempts.

End Extract.
Import Extract.

(* ================================================================== *)
(** ** Reconciliation: [fill_excel] *)
(* ================================================================== *)

Module Fill.

(** A value of [brokerage_type_map]: a tier name or a list of tier names. *)
Inductive label :=
| Single (name : text)
| Listed (names : list text).

Definition first_three : label :=
  Listed [str "FIRST YEAR TRAIL"; str "SECOND YEAR TRAIL";
          str "THIRD YEAR TRAIL"].

Definition brokerage_type_map : list (text * label) :=
  [ (str "FIRST YEAR TRAIL", Single (str "FIRST YEAR TRAIL"));
    (str "SECOND YEAR TRAIL", Single (str "SECOND YEAR TRAIL"));
    (str "THIRD YEAR TRAIL", Single (str "THIRD YEAR TRAIL"));
    (str "FOURTH YEAR TRAIL", Single (str "FOURTH YEAR TRAIL"));
    (str "LONGTERM YEAR TRAIL", Single (str "LONGTERM YEAR TRAIL"));
    (str "FOURTH YEAR", Single (str "FOURTH YEAR TRAIL"));
    (str "4TH YEAR TRAIL", Single (str "FOURTH YEAR TRAIL"));
    (str "4TH YEAR", Single (str "FOURTH YEAR TRAIL"));
    (str "LONG TERM TRAIL", Single (str "LONGTERM YEAR TRAIL"));
    (str "LONG TERM", Single (str "LONGTERM YEAR TRAIL"));
    (str "1 TO 3 YEARS TRAIL", first_three);
    (str "1-3 YEARS TRAIL", first_three);
    (str "1 TO 3 YEARS", first_three);
    (str "1-3 YEARS", first_three);
    (str "TRAIL 1-3", first_three);
    (str "TRAIL YEARS 1-3", first_three) ].

(** The tier a key of a [rates] dictionary names. *)
Definition tier_of_name (name : text) : option tier :=
  find (fun t => text_eqb (tier_name t) name) BROKERAGE_TYPES.

(** [rates.get(name)] with a string key. *)
Definition rates_get (r : rates) (name : text) : option rate :=
  match tier_of_name name with
  | Some t => rget r t
  | None => None
  end.

(** The loop [for bt in ...: rate = ...get(bt); if rate is not None:
    return rate] followed by [return None]. *)
Fixpoint first_rate (r : rates) (names : list text) : option rate :=
  match names with
  | [] => None
  | bt :: rest =>
      match rates_get r bt with
      | Some rate => Some rate
      | None => first_rate r rest
      end
  end.

(** Lines 271-279 and 286-293: the rate of a record for a label. *)
Definition lookup_rate (r : rates) (l : label) : option rate :=
  match l with
  | Listed names => first_rate r names
  | Single name => rates_get r name
  end.

(** [{normalize(k): v for k, v in scheme_map.items()}] *)
Definition normalize_keys (sm : registry) : registry :=
  fold_left (fun d (kv : text * rates) => reg_set d (normalize (fst kv)) (snd kv))
            sm [].

Section Frame.
(** The spreadsheet library: the values of a cell, their [str], the
    result of [pd.to_datetime(column, errors="coerce")
    .dt.strftime("%d-%m-%Y")] on a column, and the cell an optional
    float is stored as. *)
Variable value : Type.
Variable value_str : value -> text.
Variable format_dates : list value -> list value.
Variable rate_value : option rate -> value.

(** The fuzzy-matching library: the score, from 0 to 100, that
    [process.extractOne] gives a choice for a query with its default
    processor and scorer. *)
Variable score : text -> text -> nat.

(** [process.extractOne(query, choices, score_cutoff=...)]: the first
    choice of greatest score among those whose score reaches the
    cutoff, with its score. *)
Definition better (query : text) (score_cutoff : nat)
           (best : option (text * nat)) (choice : text)
  : option (text * nat) :=
  let s := score query choice in
  if s <? score_cutoff then best
  else match best with
       | None => Some (choice, s)
       | Some (_, best_score) =>
           if best_score <? s then Some (choice, s) else best
       end.

Definition extractOne (query : text) (choices : list text)
           (score_cutoff : nat) : option (text * nat) :=
  fold_left (better query score_cutoff) choices None.

(** A data frame: its columns by name, in order. *)
Definition frame := Dict.dict text (list value).

Definition frame_get (df : frame) (col : text) : option (list value) :=
  Dict.get text_eqb df col.
Definition frame_set (df : frame) (col : text) (v : list value) : frame :=
  Dict.set text_eqb df col v.

Definition n_rows (df : frame) : nat :=
  match df with
  | [] => 0
  | (_, column) :: _ => List.length column
  end.

(** [str(row.get(col, default))] for row [i] of the frame, the default
    being the empty string. *)
Definition row_str (df : frame) (i : nat) (col : text) : text :=
  match frame_get df col with
  | Some column =>
      match nth_error column i with
      | Some v => value_str v
      | None => []
      end
  | None => []
  end.

(** Lines 255-295. *)
Definition get_brokerage (normalized_pdf_keys : registry)
           (df : frame) (i : nat) : option rate :=
  let scheme := normalize (row_str df i (str "Schemename")) in
  let brokerage_type := upper (strip (row_str df i (str "BrokerageName"))) in
  let standardized_brokerage_types :=
    match Dict.get text_eqb brokerage_type_map brokerage_type with
    | Some l => l
    | None => Single brokerage_type
    end in
  let known :=
    match standardized_brokerage_types with
    | Listed _ => true
    | Single name => is_some (tier_of_name name)
    end in
  let nonempty :=
    match standardized_brokerage_types with
    | Listed names => negb (is_empty names)
    | Single name => negb (is_empty name)
    end in
  if negb known then None
  else if is_empty scheme || negb nonempty then None
  else
    match reg_get normalized_pdf_keys scheme with
    | Some r => lookup_rate r standardized_brokerage_types
    | None =>
        match extractOne scheme (Dict.keys normalized_pdf_keys) 90 with
        | None => None
        | Some (matched_key, _) =>
            match reg_get normalized_pdf_keys matched_key with
            | Some r => lookup_rate r standardized_brokerage_types
            | None => None
            end
        end
    end.

(** Line 231: the columns whose name holds "date" and not "brokerage".
    The names of the columns of a [frame] are text; on a name that is not
    text, [col.lower()] raises, which this model does not hold. *)
Definition date_cols (df : frame) : list text :=
  filter (fun col => contains (str "date") (lower col)
                     && negb (contains (str "brokerage") (lower col)))
         (Dict.keys df).

(** Lines 232-233. *)
Definition convert_dates (df : frame) : frame :=
  match date_cols df with
  | col :: _ =>
      match frame_get df col with
      | Some column => frame_set df col (format_dates column)
      | None => df
      end
  | [] => df
  end.

(** Lines 231-298: the frame that is written to the output file. *)
Definition fill_excel (df : frame) (sm : registry) : frame :=
  let df1 := convert_dates df in
  let normalized_pdf_keys := normalize_keys sm in
  let t15 :=
    map (fun i => rate_value (get_brokerage normalized_pdf_keys df1 i))
        (seq 0 (n_rows df1)) in
  let df2 := frame_set df1 (str "T15") t15 in
  match frame_get df2 (str "T15") with
  | Some column => frame_set df2 (str "B15") column
  | None => df2
  end.
End Frame.

End Fill.
Import Fill.

(* ================================================================== *)
(** ** What a match is *)
(* ================================================================== *)

Module Semantics.

(** The character before the position reached after reading [m]. *)
Definition last_of (prev : option ascii) (m : text) : option ascii :=
  last (map Some m) prev.

(** [matches r prev m rest]: at a position preceded by [prev] and followed
    by [m ++ rest], the pattern [r] can match exactly [m]. *)
Inductive matches : regex -> option ascii -> text -> text -> Prop :=
| M_Eps prev rest : matches Eps prev [] rest
| M_Chr p c prev rest : p c = true -> matches (Chr p) prev [c] rest
| M_Seq r1 r2 prev m1 m2 rest :
    matches r1 prev m1 (m2 ++ rest) ->
    matches r2 (last_of prev m1) m2 rest ->
    matches (Seq r1 r2) prev (m1 ++ m2) rest
| M_AltL r1 r2 prev m rest :
    matches r1 prev m rest -> matches (Alt r1 r2) prev m rest
| M_AltR r1 r2 prev m rest :
    matches r2 prev m rest -> matches (Alt r1 r2) prev m rest
| M_OptSome r prev m rest :
    matches r prev m rest -> matches (Opt r) prev m rest
| M_OptNone r prev rest : matches (Opt r) prev [] rest
| M_Star p prev m rest :
    forallb p m = true -> matches (Star p) prev m rest
| M_WordB prev rest :
    xorb (is_word_opt prev) (head_is_word rest) = true ->
    matches WordB prev [] rest
| M_EndS prev rest :
    rest = [] \/ (exists c, rest = [c] /\ code c = 10) ->
    matches EndS prev [] rest.

(** The pattern is found at no position of [s]. *)
Fixpoint never (r : regex) (prev : option ascii) (s : text) : Prop :=
  match_here r prev s = None
  /\ match s with
     | [] => True
     | c :: s' => never r (Some c) s'
     end.

End Semantics.
Import Semantics.

(* ================================================================== *)
(** ** Properties of inputs and records *)
(* ================================================================== *)

Module Props.

(** Every rate of a record is at most the ceiling. *)
Definition below_ceiling (r : rates) : Prop :=
  forall t v, rget r t = Some v -> (v <= MAX_REASONABLE_RATE)%N.

(** Every record of a registry is below the ceiling. *)
Definition registry_below (sm : registry) : Prop :=
  Forall (fun kv => below_ceiling (snd kv)) sm.

(** Every rate of a record that is set is [0.0]. *)
Definition all_zero (r : rates) : Prop :=
  forall t v, rget r t = Some v -> v = 0%N.

(** A table that counts for [tables_found]: it has two rows or more. *)
Definition two_rows (t : table) : bool := 2 <=? List.length t.

(** The tables a page gives. *)
Definition page_tables (pg : page) : list table :=
  match extract_tables pg with
  | Returns tables => tables
  | Raises => []
  end.

(** The registry after the tables of a page, from the state before it. *)
Definition after_tables (st : attempt_state) (tables : list table)
  : registry :=
  fst (fold_left process_table tables (scheme_map st, tables_found st)).

(** The text does not start with white space. *)
Definition head_not_space (s : text) : Prop :=
  match s with
  | [] => True
  | c :: _ => is_space c = false
  end.

(** The text neither starts nor ends with white space. *)
Definition tidy (s : text) : Prop :=
  head_not_space s /\ head_not_space (rev s).

(** A character that line 220 keeps and leaves as it is. *)
Definition plain (c : ascii) : Prop :=
  special c = false /\ lower_char c = c.

(** The text ends with one of the plan qualifiers. *)
Definition qualifier_at_end (t : text) : bool :=
  existsb (fun q => ends_with q t) PLAN_QUALIFIERS.

(** The text before a final [q], without the white space before [q]. *)
Definition before_qualifier (q t : text) : text :=
  rstrip (firstn (List.length t - List.length q) t).

(** The text ends with the same plan qualifier twice, with or without
    white space between the two. *)
Definition duplicated_qualifier (t : text) : bool :=
  existsb (fun q => ends_with q t && ends_with q (before_qualifier q t))
          PLAN_QUALIFIERS.

(** The text ends with two plan qualifiers, the same or not, with or
    without white space between the two. *)
Definition two_qualifiers (t : text) : bool :=
  existsb (fun q => ends_with q t && qualifier_at_end (before_qualifier q t))
          PLAN_QUALIFIERS.

End Props.
Import Props.

(* ================================================================== *)
(** ** Example inputs *)
(* ================================================================== *)

Module Examples.

(** Cells of a spreadsheet for the examples: text, a date, a float or an
    empty cell.  In a date column only the dates are dates here: the
    examples keep text and floats out of such a column. *)
Inductive xl_value :=
| XText (s : text)
| XTimestamp (year month day : nat)
| XFloat (r : rate)
| XNaN.

Definition dec (n : nat) : text :=
  str (DecimalString.NilEmpty.string_of_uint (Nat.to_uint n)).

Definition dec2 (n : nat) : text :=
  if n <? 10 then "0"%char :: dec n else dec n.

(** [str(x)] for a float with at most two fractional digits. *)
Definition float_str (r : rate) : text :=
  let n := N.to_nat r in
  dec (n / 100) ++ "."%char ::
  (if n mod 10 =? 0 then dec ((n mod 100) / 10) else dec2 (n mod 100)).

Definition xl_str (v : xl_value) : text :=
  match v with
  | XText s => s
  | XTimestamp y m d =>
      dec y ++ "-"%char :: dec2 m ++ "-"%char :: dec2 d ++ str " 00:00:00"
  | XFloat r => float_str r
  | XNaN => str "nan"
  end.

(** [strftime("%d-%m-%Y")] for the cells of the examples, whose date
    columns hold timestamps; a cell of another kind gives an empty cell
    here (of a text, pandas would first try to read a date). *)
Definition xl_format_date (v : xl_value) : xl_value :=
  match v with
  | XTimestamp y m d =>
      XText (dec2 d ++ "-"%char :: dec2 m ++ "-"%char :: dec y)
  | _ => XNaN
  end.

Definition xl_format_dates (column : list xl_value) : list xl_value :=
  map xl_format_date column.

Definition xl_rate (r : option rate) : xl_value :=
  match r with
  | Some v => XFloat v
  | None => XNaN
  end.

(** A score for the examples: 100 for equal texts, 0 otherwise. *)
Definition exact_score (a b : text) : nat :=
  if text_eqb a b then 100 else 0.

Definition xl_get_brokerage :=
  get_brokerage xl_str exact_score.

Definition xl_fill_excel :=
  fill_excel xl_str xl_format_dates xl_rate exact_score.

Definition cells (l : list string) : row := map (fun s => Some (str s)) l.

(** Scenario A of the specification. *)
Definition table_A : table :=
  [ cells ["Scheme Name"; "1st Yr Trail"; "2nd Yr Trail"];
    cells ["ABC Fund"; "0.50%"; "0.30%"] ]%string.

Definition registry_A : registry :=
  [ (str "abc fund", Rates (Some 50%N) (Some 30%N) None None None) ].

(** The registry read from the text "ABC Fund 0.50%". *)
Definition registry_A_text : registry :=
  [ (str "abc fund", Rates (Some 50%N) None None None None) ].

(** A page whose only table is [t]. *)
Definition table_page (t : table) : page :=
  Page (Returns [t]) (Returns (Some [])).

(** A page without tables, with text. *)
Definition text_page (s : string) : page :=
  Page (Returns []) (Returns (Some (str s))).

(** A page that cannot be read. *)
Definition broken_page : page := Page Raises Raises.

Definition table_B : table :=
  [ cells ["Scheme Name"; "1st Yr Trail"];
    cells ["XYZ Fund"; "0.30%"] ]%string.

(** A fourth-year rate of zero next to a first-year rate. *)
Definition table_zero : table :=
  [ cells ["Scheme Name"; "1st Yr Trail"; "4th Yr Trail"];
    cells ["ABC Fund"; "0.50%"; "0.00%"] ]%string.

(** The document changes with the password: the first password opens a
    document whose second page cannot be read, the second password opens a
    document of one page. *)
Definition open_two (path : text) (password : option text) : call document :=
  match password with
  | Some p =>
      if text_eqb p (str "first") then Returns [table_page table_A; broken_page]
      else if text_eqb p (str "second") then Returns [table_page table_B]
      else Raises
  | None => Raises
  end.

Definition sheet : frame xl_value :=
  [ (str "Schemename", [XText (str "ABC Fund"); XText (str "Other Fund")]);
    (str "BrokerageName",
       [XText (str "FIRST YEAR TRAIL"); XText (str "FIRST YEAR TRAIL")]);
    (str "Date", [XTimestamp 2024 1 5; XTimestamp 2024 2 29]) ].

End Examples.
Import Examples.

(* ================================================================== *)
(** ** Uploads: [allowed_file] *)
(* ================================================================== *)

Module Upload.

(** [s.rsplit(".", 1)]: the text split at its last period, or the text
    alone when it holds no period. *)
Fixpoint rsplit_dot (s : text) : list text :=
  match s with
  | [] => [[]]
  | c :: s' =>
      match rsplit_dot s' with
      | [a; b] => [c :: a; b]
      | _ => if Ascii.eqb c "." then [[]; s'] else [c :: s']
      end
  end.

(** [allowed_file(filename, extensions)]; the set of extensions is given
    by the list of its members. *)
Definition allowed_file (filename : text) (extensions : list text) : bool :=
  contains (str ".") filename
  && match nth_error (rsplit_dot filename) 1 with
     | Some ext => existsb (text_eqb (lower ext)) extensions
     | None => false
     end.

End Upload.
Import Upload.

(* ================================================================== *)
(** ** More properties of texts, records and registries *)
(* ================================================================== *)

Module MoreProps.

(** The text holds no period. *)
Definition no_period (s : text) : bool :=
  forallb (fun c => negb (Ascii.eqb c ".")) s.

(** The text is all white space. *)
Definition blank (s : text) : bool := forallb is_space s.

(** A key in the form [normalize] gives: no white space at either end,
    and only lower-case word characters, white space and periods. *)
Definition normal_form (k : text) : Prop :=
  tidy k /\ Forall plain k.

(** The record has a rate that is set and not zero. *)
Definition has_rate (r : rates) : Prop :=
  exists t v, rget r t = Some v /\ v <> 0%N.

(** The first rate that is set, in the order of the list. *)
Fixpoint first_set (l : list (option rate)) : option rate :=
  match l with
  | [] => None
  | Some v :: _ => Some v
  | None :: l' => first_set l'
  end.

(** The tiers a label of [brokerage_type_map] stands for. *)
Definition label_tiers (l : label) : list (option tier) :=
  match l with
  | Single name => [tier_of_name name]
  | Listed names => map tier_of_name names
  end.

(** The label of a row: [str(row.get("BrokerageName", default)).strip()
    .upper()]. *)
Definition row_label (value : Type) (value_str : value -> text)
           (df : frame value) (i : nat) : text :=
  upper (strip (row_str value_str df i (str "BrokerageName"))).

(** The fund name of a row, normalized. *)
Definition row_scheme (value : Type) (value_str : value -> text)
           (df : frame value) (i : nat) : text :=
  normalize (row_str value_str df i (str "Schemename")).

(** A property of every key and record of a registry. *)
Definition every_record (P : text -> rates -> Prop) (sm : registry) : Prop :=
  Forall (fun kv => P (fst kv) (snd kv)) sm.

(** No key is in the registry twice. *)
Definition distinct_keys (sm : registry) : Prop := NoDup (Dict.keys sm).

(** The header of a column holds "scheme", "fund" or "name". *)
Definition is_name_header (col : text) : bool :=
  contains_any NAME_MARKERS (lower col).

(** An entry of the column mapping of a header is sound: its index is
    within the header; the column of "SCHEME" is a name column; the
    column of a tier is not a name column, and its header, in lower
    case, is classified as that tier. *)
Definition sound_entry (header : list text) (e : col_key * nat) : Prop :=
  snd e < List.length header
  /\ match fst e with
     | SCHEME => is_name_header (nth (snd e) header []) = true
     | BT bt =>
         is_name_header (nth (snd e) header []) = false
         /\ In bt (classify (lower (nth (snd e) header [])))
     end.

(** The numbers of a block that are stored: those of the lines the loop
    reads, in their order, that do not exceed the ceiling. *)
Definition block_numbers (lines : list text) : list rate :=
  flat_map
    (fun raw =>
       flat_map (fun m => match accepted_rate m with
                          | Some v => [v]
                          | None => []
                          end)
                (findall rate_pattern (normalize (strip raw))))
    (firstn (List.length BROKERAGE_TYPES) lines).

(** No line that the loop reads names a tier. *)
Definition unlabelled (lines : list text) : bool :=
  forallb (fun raw => is_empty (classify (normalize (strip raw))))
          (firstn (List.length BROKERAGE_TYPES) lines).

End MoreProps.
Import MoreProps.

(* ================================================================== *)
(** ** The attempts of one call *)
(* ================================================================== *)

Module Loop.




End Loop.
Import Loop.

(* ================================================================== *)
(** ** Records, dictionaries and the ceiling *)
(* ================================================================== *)

Unset Implicit Arguments.

Lemma text_eqb_eq (a b : text) : text_eqb a b = true <-> a = b.
Proof.
  unfold text_eqb. destruct (list_eq_dec ascii_dec a b); split; congruence.
Qed.

Lemma text_eqb_refl (a : text) : text_eqb a a = true.
Proof. now apply text_eqb_eq. Qed.

Lemma text_eqb_neq (a b : text) : a <> b -> text_eqb a b = false.
Proof.
  intros H. destruct (text_eqb a b) eqn:E; [|reflexivity].
  apply text_eqb_eq in E. contradiction.
Qed.

Lemma rget_rset_same (r : rates) (t : tier) (v : option rate) :
  rget (rset r t v) t = v.
Proof. destruct t; reflexivity. Qed.

Lemma rget_rset_other (r : rates) (t u : tier) (v : option rate) :
  t <> u -> rget (rset r t v) u = rget r u.
Proof. destruct t, u; intros H; try reflexivity; contradiction. Qed.

Lemma tier_eq_dec (t u : tier) : {t = u} + {t <> u}.
Proof. decide equality. Qed.

Lemma below_ceiling_none : below_ceiling no_rates.
Proof. intros t v. destruct t; discriminate. Qed.

Lemma below_ceiling_rset (r : rates) (t : tier) (v : rate) :
  below_ceiling r -> (v <= MAX_REASONABLE_RATE)%N ->
  below_ceiling (rset r t (Some v)).
Proof.
  intros Hr Hv u w. destruct (tier_eq_dec t u) as [->|Hne].
  - rewrite rget_rset_same. intros [= <-]. exact Hv.
  - rewrite rget_rset_other by exact Hne. apply Hr.
Qed.

Lemma below_ceiling_rset_get (r : rates) (t u : tier) :
  below_ceiling r -> below_ceiling (rset r t (rget r u)).
Proof.
  intros Hr. destruct (rget r u) as [v|] eqn:E.
  - apply below_ceiling_rset; [exact Hr | exact (Hr u v E)].
  - intros x w. destruct (tier_eq_dec t x) as [->|Hne].
    + rewrite rget_rset_same. discriminate.
    + rewrite rget_rset_other by exact Hne. apply Hr.
Qed.

Lemma accepted_rate_bound (m : text) (v : rate) :
  accepted_rate m = Some v -> (v <= MAX_REASONABLE_RATE)%N.
Proof.
  unfold accepted_rate.
  destruct (to_float _) as [x|]; [|discriminate].
  destruct (MAX_REASONABLE_RATE <? x)%N eqn:E; [discriminate|].
  intros [= <-]. apply N.ltb_ge in E. exact E.
Qed.

Lemma longterm_default_below (r : rates) :
  below_ceiling r -> below_ceiling (longterm_default r).
Proof.
  intros Hr. unfold longterm_default.
  destruct (truthy (rget r FOURTH) && negb (truthy (rget r LONGTERM)));
    [apply below_ceiling_rset_get|]; exact Hr.
Qed.

(** A fold keeps what each of its steps keeps. *)
Lemma fold_left_keeps (A B : Type) (P : A -> Prop) (f : A -> B -> A)
      (l : list B) (a : A) :
  (forall a b, P a -> P (f a b)) -> P a -> P (fold_left f l a).
Proof.
  intros Hf. revert a. induction l as [|b l IH]; intros a Ha; simpl.
  - exact Ha.
  - apply IH, Hf, Ha.
Qed.

Lemma row_rates_below (cm : col_mapping) (r : row) :
  below_ceiling (row_rates cm r).
Proof.
  unfold row_rates. apply fold_left_keeps; [|apply below_ceiling_none].
  intros a [[|bt] col_idx] Ha; [exact Ha|].
  destruct (List.length r <=? col_idx); [exact Ha|].
  destruct (cell_rate _) as [v|] eqn:E; [|exact Ha].
  apply below_ceiling_rset; [exact Ha|].
  unfold cell_rate in E. destruct (findall _ _); [discriminate|].
  now apply accepted_rate_bound in E.
Qed.

Lemma take_rate_below (bts : list tier) (st : rates * nat) (m : text) :
  below_ceiling (fst st) -> below_ceiling (fst (take_rate bts st m)).
Proof.
  destruct st as [r idx]. simpl. intros Hr.
  destruct (accepted_rate m) as [v|] eqn:E; [|exact Hr].
  apply accepted_rate_bound in E.
  destruct (negb (is_empty bts) && (idx <? List.length bts)); simpl.
  - apply fold_left_keeps; [|exact Hr].
    intros a b Ha. now apply below_ceiling_rset.
  - destruct (nth_error BROKERAGE_TYPES idx); simpl; [|exact Hr].
    now apply below_ceiling_rset.
Qed.

Lemma block_rates_below (lines : list text) : below_ceiling (block_rates lines).
Proof.
  unfold block_rates.
  apply (fold_left_keeps _ _ (fun st => below_ceiling (fst st)));
    [|apply below_ceiling_none].
  intros st raw Hst. unfold sub_line.
  apply (fold_left_keeps _ _ (fun st => below_ceiling (fst st))); [|exact Hst].
  intros a m. apply take_rate_below.
Qed.

Lemma reg_set_below (sm : registry) (k : text) (r : rates) :
  registry_below sm -> below_ceiling r -> registry_below (reg_set sm k r).
Proof.
  intros Hsm Hr. induction sm as [|[k' r'] sm IH]; simpl.
  - constructor; [exact Hr | constructor].
  - inversion Hsm as [|? ? H1 H2]; subst.
    destruct (text_eqb k k'); constructor; simpl; try assumption.
    apply IH, H2.
Qed.

Lemma reg_get_below (sm : registry) (k : text) (r : rates) :
  registry_below sm -> reg_get sm k = Some r -> below_ceiling r.
Proof.
  intros Hsm. induction sm as [|[k' r'] sm IH]; simpl; [discriminate|].
  inversion Hsm as [|? ? H1 H2]; subst.
  destruct (text_eqb k k'); [intros [= <-]; exact H1 | now apply IH].
Qed.

Lemma table_row_below (cm : col_mapping) (idx : nat) (sm : registry) (r : row) :
  registry_below sm -> registry_below (table_row cm idx sm r).
Proof.
  intros Hsm. unfold table_row.
  destruct (is_empty r || (List.length r <=? idx)); [exact Hsm|].
  destruct (is_empty _ || contains_any _ _); [exact Hsm|].
  destruct (any_rate _); [|exact Hsm].
  apply reg_set_below; [exact Hsm|].
  apply longterm_default_below, row_rates_below.
Qed.

Lemma process_table_below (st : registry * bool) (t : table) :
  registry_below (fst st) -> registry_below (fst (process_table st t)).
Proof.
  intros Hst. unfold process_table.
  destruct t as [|header_row [|r data]]; try exact Hst.
  destruct (Dict.get _ _ _); cbn [fst]; [|exact Hst].
  apply fold_left_keeps; [|exact Hst].
  intros a b. apply table_row_below.
Qed.

Lemma text_line_below (lines : list text) (sm : registry) :
  registry_below sm -> registry_below (text_line lines sm).
Proof.
  intros Hsm. unfold text_line. destruct lines as [|raw rest]; [exact Hsm|].
  destruct (is_empty _ || contains_any _ _); [exact Hsm|].
  destruct (_ && _); [|exact Hsm].
  destruct (any_rate _); [|exact Hsm].
  apply reg_set_below; [exact Hsm|].
  apply longterm_default_below, block_rates_below.
Qed.

Lemma text_lines_below (lines : list text) (sm : registry) :
  registry_below sm -> registry_below (text_lines lines sm).
Proof.
  revert sm. induction lines as [|l rest IH]; intros sm Hsm;
    cbn [text_lines].
  - exact Hsm.
  - apply IH, text_line_below, Hsm.
Qed.

Lemma text_pass_below (t : option text) (sm : registry) :
  registry_below sm -> registry_below (text_pass t sm).
Proof.
  intros Hsm. destruct t as [[|c s]|]; cbn [text_pass]; try exact Hsm.
  apply text_lines_below, Hsm.
Qed.

Lemma process_page_below (st : attempt_state) (pg : page) :
  registry_below (scheme_map st) ->
  registry_below (scheme_map (state_of (process_page st pg))).
Proof.
  intros Hst. unfold process_page.
  destruct (extract_tables pg) as [tables|]; [|exact Hst].
  assert (H : registry_below
                (fst (fold_left process_table tables
                                (scheme_map st, tables_found st)))).
  { apply (fold_left_keeps _ _ (fun s => registry_below (fst s))); [|exact Hst].
    intros a b. apply process_table_below. }
  destruct (fold_left _ _ _) as [sm found]. cbn [fst] in H.
  destruct (negb found || is_empty sm); [|exact H].
  destruct (extract_text pg); cbn [state_of scheme_map]; [|exact H].
  apply text_pass_below, H.
Qed.

Lemma process_pages_below (pages : list page) (st : attempt_state) :
  registry_below (scheme_map st) ->
  registry_below (scheme_map (state_of (process_pages st pages))).
Proof.
  revert st. induction pages as [|pg rest IH]; intros st Hst;
    cbn [process_pages].
  - exact Hst.
  - pose proof (process_page_below st pg Hst) as H.
    destruct (process_page st pg) as [st'|st']; cbn [state_of] in *;
      [|exact H].
    apply IH, H.
Qed.

Lemma validate_rate_below (r : rates) (e : tier * rate) :
  (snd e <= MAX_REASONABLE_RATE)%N -> below_ceiling r ->
  below_ceiling (validate_rate r e).
Proof.
  destruct e as [bt v]. simpl. intros Hv Hr.
  destruct (rget r bt) as [c|].
  - destruct (c =? v)%N; [exact Hr | now apply below_ceiling_rset].
  - now apply below_ceiling_rset.
Qed.

Lemma validations_bound :
  Forall (fun e => Forall (fun tv => (snd tv <= MAX_REASONABLE_RATE)%N) (snd e))
         SCHEME_VALIDATIONS.
Proof. repeat constructor; simpl; discriminate. Qed.

Lemma validate_rates_below (expected : list (tier * rate)) (r : rates) :
  Forall (fun tv => (snd tv <= MAX_REASONABLE_RATE)%N) expected ->
  below_ceiling r -> below_ceiling (fold_left validate_rate expected r).
Proof.
  intros He. revert r. induction He as [|e l H1 H2 IH]; intros r Hr; simpl.
  - exact Hr.
  - apply IH, validate_rate_below; assumption.
Qed.

Lemma apply_validations_below (sm : registry) :
  registry_below sm -> registry_below (apply_validations sm).
Proof.
  unfold apply_validations. generalize validations_bound.
  generalize SCHEME_VALIDATIONS as l. intros l Hl. revert sm.
  induction Hl as [|[scheme expected] l H1 H2 IH]; intros sm Hsm; simpl.
  - exact Hsm.
  - apply IH. destruct (reg_get sm scheme) as [r|] eqn:E; [|exact Hsm].
    apply reg_set_below; [exact Hsm|].
    apply validate_rates_below; [exact H1|].
    exact (reg_get_below sm scheme r Hsm E).
Qed.

Lemma try_passwords_below (pdf_open : text -> option text -> call document)
      (path : text) (passwords : list text) (sm : registry) :
  registry_below sm ->
  registry_below (try_passwords pdf_open path passwords sm).
Proof.
  revert sm. induction passwords as [|pw rest IH]; intros sm Hsm;
    cbn [try_passwords].
  - constructor.
  - assert (H : registry_below
                  (scheme_map (state_of (attempt pdf_open path pw sm)))).
    { unfold attempt. destruct (pdf_open _ _); [|exact Hsm].
      apply process_pages_below. exact Hsm. }
    destruct (attempt pdf_open path pw sm) as [st|st]; cbn [state_of] in H.
    + destruct (negb (is_empty (scheme_map st))).
      * apply apply_validations_below, H.
      * apply IH, H.
    + apply IH, H.
Qed.

(** C6.  Whatever the document, the passwords and the way the document
    opens, every rate of every record of the registry that
    [extract_scheme_data] returns, after the long-term default and the
    overrides, is at most 10.0; and a number read from a cell or a line
    is stored only when it is at most 10.0. *)
Theorem rates_never_exceed_ceiling
        (pdf_open : text -> option text -> call document)
        (pdf_path : text) (passwords : list text) :
  Forall (fun kv => below_ceiling (snd kv))
         (extract_scheme_data pdf_open pdf_path passwords)
  /\ (forall m : text,
        match accepted_rate m with
        | Some v => (v <= MAX_REASONABLE_RATE)%N
        | None => True
        end).
Proof.
  split.
  - apply try_passwords_below. constructor.
  - intros m. destruct (accepted_rate m) eqn:E; [|exact I].
    now apply accepted_rate_bound in E.
Qed.

(* ================================================================== *)
(** ** The long-term default and rates of zero *)
(* ================================================================== *)

Lemma existsb_truthy_filter (l : list (option rate)) :
  existsb truthy (filter is_some l) = existsb truthy l.
Proof.
  induction l as [|[v|] l IH]; cbn [filter is_some existsb truthy].
  - reflexivity.
  - now rewrite IH.
  - exact IH.
Qed.

Lemma any_rate_false (r : rates) :
  (forall t, truthy (rget r t) = false) -> any_rate r = false.
Proof.
  intros H. unfold any_rate. rewrite existsb_truthy_filter.
  unfold rvalues, BROKERAGE_TYPES. cbn [map existsb].
  now rewrite (H FIRST), (H SECOND), (H THIRD), (H FOURTH), (H LONGTERM).
Qed.

Lemma all_zero_not_truthy (r : rates) (t : tier) :
  all_zero r -> truthy (rget r t) = false.
Proof.
  intros H. destruct (rget r t) as [v|] eqn:E; [|reflexivity].
  now rewrite (H t v E).
Qed.

Lemma all_zero_default (r : rates) : all_zero r -> longterm_default r = r.
Proof.
  intros H. unfold longterm_default.
  now rewrite (all_zero_not_truthy r FOURTH H).
Qed.

Lemma all_zero_no_record (r : rates) :
  all_zero r -> any_rate (longterm_default r) = false.
Proof.
  intros H. rewrite (all_zero_default r H). apply any_rate_false.
  intros t. now apply all_zero_not_truthy.
Qed.

Lemma zero_fourth_no_default (r : rates) :
  rget r FOURTH = Some 0%N -> longterm_default r = r.
Proof. intros H. unfold longterm_default. now rewrite H. Qed.

Lemma zero_longterm_overwritten (r : rates) (v : rate) :
  rget r FOURTH = Some v -> v <> 0%N -> rget r LONGTERM = Some 0%N ->
  rget (longterm_default r) LONGTERM = Some v.
Proof.
  intros H4 Hv H5. unfold longterm_default. rewrite H4, H5.
  cbn [truthy]. apply N.eqb_neq in Hv. rewrite Hv. cbn.
  reflexivity.
Qed.

Lemma nonzero_fourth_default (r : rates) (v : rate) :
  rget r FOURTH = Some v -> v <> 0%N -> rget r LONGTERM = None ->
  rget (longterm_default r) LONGTERM = rget (longterm_default r) FOURTH.
Proof.
  intros H4 Hv H5. unfold longterm_default. rewrite H4, H5.
  cbn [truthy]. apply N.eqb_neq in Hv. rewrite Hv.
  cbn [negb andb]. rewrite rget_rset_same, rget_rset_other by discriminate.
  now rewrite H4.
Qed.

(** C10.  A rate of 0.0 counts as absent while the registry is built.
    A table row or a text block whose rates are all 0.0 adds no record;
    a fourth-year rate of 0.0 leaves the record as it was read, so the
    long-term rate is not defaulted; and a long-term rate read as 0.0 is
    replaced by a fourth-year rate that is not zero.  All of it holds
    in the table extractor and in the text extractor. *)
Theorem zero_rate_counts_as_absent :
  (forall cm scheme_idx sm r,
      all_zero (row_rates cm r) -> table_row cm scheme_idx sm r = sm)
  /\ (forall lines sm,
         all_zero (block_rates lines) -> text_line lines sm = sm)
  /\ (forall cm r,
         rget (row_rates cm r) FOURTH = Some 0%N ->
         row_record cm r = row_rates cm r)
  /\ (forall lines,
         rget (block_rates lines) FOURTH = Some 0%N ->
         block_record lines = block_rates lines)
  /\ (forall cm r v,
         rget (row_rates cm r) FOURTH = Some v -> v <> 0%N ->
         rget (row_rates cm r) LONGTERM = Some 0%N ->
         rget (row_record cm r) LONGTERM = Some v)
  /\ (forall lines v,
         rget (block_rates lines) FOURTH = Some v -> v <> 0%N ->
         rget (block_rates lines) LONGTERM = Some 0%N ->
         rget (block_record lines) LONGTERM = Some v).
Proof.
  repeat split.
  - intros cm idx sm r H. unfold table_row, row_record.
    rewrite (all_zero_no_record _ H).
    destruct (is_empty r || _); [reflexivity|].
    now destruct (is_empty _ || _).
  - intros lines sm H. unfold text_line, block_record.
    rewrite (all_zero_no_record _ H).
    destruct lines; [reflexivity|].
    destruct (is_empty _ || _); [reflexivity|].
    now destruct (_ && _).
  - intros cm r. apply zero_fourth_no_default.
  - intros lines. apply zero_fourth_no_default.
  - intros cm r v. apply zero_longterm_overwritten.
  - intros lines v. apply zero_longterm_overwritten.
Qed.

(** C7, as the code has it.  In both extractors, a record whose
    fourth-year rate was read and is not zero, and whose long-term rate
    was not read, is stored with its long-term rate equal to its
    fourth-year rate. *)
Theorem longterm_defaults_to_nonzero_fourth :
  (forall cm r v,
      rget (row_rates cm r) FOURTH = Some v -> v <> 0%N ->
      rget (row_rates cm r) LONGTERM = None ->
      rget (row_record cm r) LONGTERM = rget (row_record cm r) FOURTH)
  /\ (forall lines v,
         rget (block_rates lines) FOURTH = Some v -> v <> 0%N ->
         rget (block_rates lines) LONGTERM = None ->
         rget (block_record lines) LONGTERM = rget (block_record lines) FOURTH)
  /\ (forall cm scheme_idx sm r,
         table_row cm scheme_idx sm r = sm
         \/ exists name,
             table_row cm scheme_idx sm r = reg_set sm name (row_record cm r))
  /\ (forall lines sm,
         text_line lines sm = sm
         \/ exists name,
             text_line lines sm = reg_set sm name (block_record lines)).
Proof.
  repeat split.
  - intros cm r v. apply nonzero_fourth_default.
  - intros lines v. apply nonzero_fourth_default.
  - intros cm idx sm r. unfold table_row.
    destruct (is_empty r || _); [now left|].
    destruct (is_empty _ || _); [now left|].
    destruct (any_rate _); [right; eexists; reflexivity | now left].
  - intros lines sm. unfold text_line.
    destruct lines; [now left|].
    destruct (is_empty _ || _); [now left|].
    destruct (_ && _); [|now left].
    destruct (any_rate _); [right; eexists; reflexivity | now left].
Qed.

Lemma longterm_defaults_to_nonzero_fourth_witness :
  let cm := map_header (header_of (cells ["Scheme Name"; "4th Yr Trail"]%string)) in
  let r := cells ["ABC Fund"; "0.40%"]%string in
  let lines := [str "abc fund 0.10 0.20 0.30 0.40"] in
  (rget (row_rates cm r) FOURTH = Some 40%N /\ 40%N <> 0%N
   /\ rget (row_rates cm r) LONGTERM = None
   /\ rget (row_record cm r) LONGTERM = rget (row_record cm r) FOURTH)
  /\ (rget (block_rates lines) FOURTH = Some 40%N
      /\ rget (block_rates lines) LONGTERM = None
      /\ rget (block_record lines) LONGTERM = rget (block_record lines) FOURTH).
Proof.
  intros cm r lines.
  destruct longterm_defaults_to_nonzero_fourth as [Htable [Htext _]].
  assert (H1 : rget (row_rates cm r) FOURTH = Some 40%N) by (vm_compute; reflexivity).
  assert (H2 : rget (row_rates cm r) LONGTERM = None) by (vm_compute; reflexivity).
  assert (H3 : rget (block_rates lines) FOURTH = Some 40%N) by (vm_compute; reflexivity).
  assert (H4 : rget (block_rates lines) LONGTERM = None) by (vm_compute; reflexivity).
  assert (Hv : 40%N <> 0%N) by discriminate.
  exact (conj (conj H1 (conj Hv (conj H2 (Htable cm r 40%N H1 Hv H2))))
              (conj H3 (conj H4 (Htext lines 40%N H3 Hv H4)))).
Defined.

(** C7 as stated fails on a fourth-year rate of 0.0: the row
    ["ABC Fund", "0.50%", "0.00%"] under the header ["Scheme Name",
    "1st Yr Trail", "4th Yr Trail"] is stored with a fourth-year rate
    that is set and a long-term rate that is not. *)
Lemma zero_fourth_year_leaves_longterm_unset :
  let cm := map_header (header_of (cells ["Scheme Name"; "1st Yr Trail"; "4th Yr Trail"]%string)) in
  let r := cells ["ABC Fund"; "0.50%"; "0.00%"]%string in
  rget (row_rates cm r) FOURTH = Some 0%N
  /\ rget (row_rates cm r) LONGTERM = None
  /\ rget (row_record cm r) LONGTERM <> rget (row_record cm r) FOURTH
  /\ extract_scheme_data (fun _ _ => Returns [table_page table_zero])
                         (str "rates.pdf") PDF_PASSWORDS
     = [(str "abc fund", row_record cm r)].
Proof.
  intros cm r. repeat split; try (vm_compute; reflexivity).
  vm_compute. discriminate.
Qed.

Lemma zero_rate_counts_as_absent_witness :
  let cm := map_header (header_of (cells ["Scheme Name"; "4th Yr Trail"; "Long Term Trail"]%string)) in
  let zero := cells ["ABC Fund"; "0.00%"; "0.00%"]%string in
  let over := cells ["ABC Fund"; "0.40%"; "0.00%"]%string in
  let zeros := [str "abc fund 0.00 0.00 0.00 0.00"] in
  let overs := [str "abc fund 0.10 0.20 0.30 0.40 0.00"] in
  table_row cm 0 registry_A zero = registry_A
  /\ text_line zeros registry_A = registry_A
  /\ row_record cm zero = row_rates cm zero
  /\ block_record zeros = block_rates zeros
  /\ rget (row_record cm over) LONGTERM = Some 40%N
  /\ rget (block_record overs) LONGTERM = Some 40%N.
Proof.
  intros cm zero over zeros overs.
  destruct zero_rate_counts_as_absent as [H1 [H2 [H3 [H4 [H5 H6]]]]].
  assert (Z1 : all_zero (row_rates cm zero)).
  { intros t v. destruct t; vm_compute; intros [= <-]; reflexivity. }
  assert (Z2 : all_zero (block_rates zeros)).
  { intros t v. destruct t; vm_compute; intros [= <-]; reflexivity. }
  assert (Hv : 40%N <> 0%N) by discriminate.
  assert (Z3 : rget (row_rates cm zero) FOURTH = Some 0%N)
    by (vm_compute; reflexivity).
  assert (Z4 : rget (block_rates zeros) FOURTH = Some 0%N)
    by (vm_compute; reflexivity).
  assert (F1 : rget (row_rates cm over) FOURTH = Some 40%N)
    by (vm_compute; reflexivity).
  assert (L1 : rget (row_rates cm over) LONGTERM = Some 0%N)
    by (vm_compute; reflexivity).
  assert (F2 : rget (block_rates overs) FOURTH = Some 40%N)
    by (vm_compute; reflexivity).
  assert (L2 : rget (block_rates overs) LONGTERM = Some 0%N)
    by (vm_compute; reflexivity).
  exact (conj (H1 cm 0 registry_A zero Z1)
        (conj (H2 zeros registry_A Z2)
        (conj (H3 cm zero Z3)
        (conj (H4 zeros Z4)
        (conj (H5 cm over 40%N F1 Hv L1)
              (H6 overs 40%N F2 Hv L2)))))).
Defined.

(* ================================================================== *)
(** ** The tier patterns and the password loop *)
(* ================================================================== *)

(** C3 fails on the form "1 to 3": in [1\s*[-to]\s*3] the bracket is a
    class of one character, so "to" is not read as a word, and no pattern
    is found in "1 to 3 years trail", "1 to 3 years" or "trail 1 to 3".
    The hyphen forms are classified as the first three tiers. *)
Theorem one_to_three_is_not_classified :
  classify (str "1 to 3 years trail") = []
  /\ classify (str "1 to 3 years") = []
  /\ classify (str "trail 1 to 3") = []
  /\ classify (str "1-3 years") = [FIRST; SECOND; THIRD]
  /\ classify (str "1-3 years trail") = [FIRST; SECOND; THIRD]
  /\ classify (str "trail 1-3") = [FIRST; SECOND; THIRD].
Proof. repeat split; vm_compute; reflexivity. Qed.

(** Passwords that do not open the document leave the registry as it is. *)
Lemma try_passwords_skip (pdf_open : text -> option text -> call document)
      (path : text) (failed rest : list text) (sm : registry) :
  Forall (fun p => pdf_open path (password_or_none p) = Raises) failed ->
  try_passwords pdf_open path (failed ++ rest) sm
  = try_passwords pdf_open path rest sm.
Proof.
  intros H. induction H as [|p l Hp Hl IH]; [reflexivity|].
  cbn [app try_passwords]. unfold attempt at 1. rewrite Hp.
  cbn [scheme_map]. exact IH.
Qed.

(** C1.  Scenario A: when the first password that opens the document
    gives one page whose only table has the header ["Scheme Name",
    "1st Yr Trail", "2nd Yr Trail"] and the row ["ABC Fund", "0.50%",
    "0.30%"], the registry returned is {"abc fund": {first: 0.5,
    second: 0.3, third, fourth and long-term: None}}, whatever text the
    page has. *)
Theorem scenario_A_registry
        (pdf_open : text -> option text -> call document)
        (pdf_path : text) (failed rest : list text) (password : text)
        (page_text : call (option text)) :
  Forall (fun p => pdf_open pdf_path (password_or_none p) = Raises) failed ->
  pdf_open pdf_path (password_or_none password)
  = Returns [Page (Returns [table_A]) page_text] ->
  extract_scheme_data pdf_open pdf_path (failed ++ password :: rest)
  = registry_A.
Proof.
  intros Hfailed Hopen. unfold extract_scheme_data.
  rewrite (try_passwords_skip pdf_open pdf_path failed (password :: rest) []
                               Hfailed).
  cbn [try_passwords]. unfold attempt. rewrite Hopen.
  vm_compute. reflexivity.
Qed.

Lemma scenario_A_registry_witness :
  extract_scheme_data (fun _ _ => Returns [table_page table_A])
                      (str "rates.pdf") PDF_PASSWORDS
  = registry_A.
Proof.
  apply (scenario_A_registry
           (fun _ _ => Returns [table_page table_A]) (str "rates.pdf")
           [] [str "AAHCP7661C"; []] (str "ARN100481")
           (Returns (Some []))).
  - constructor.
  - reflexivity.
Defined.

(** When no attempt stops on an exception after it has stored records,
    every attempt starts from an empty registry: the registry returned is
    the one of the first attempt that ends with records, with the
    overrides applied. *)
Lemma try_passwords_first_success
      (pdf_open : text -> option text -> call document)
      (path : text) (before rest : list text) (password : text)
      (st : attempt_state) :
  Forall (fun p => exists st', (attempt pdf_open path p [] = Done st'
                                \/ attempt pdf_open path p [] = Raised st')
                               /\ scheme_map st' = []) before ->
  attempt pdf_open path password [] = Done st ->
  scheme_map st <> [] ->
  extract_scheme_data pdf_open path (before ++ password :: rest)
  = apply_validations (scheme_map st).
Proof.
  intros Hbefore Hdone Hne. unfold extract_scheme_data.
  induction Hbefore as [|p l [st' [[Hp|Hp] Hempty]] Hl IH];
    cbn [app try_passwords].
  - rewrite Hdone. destruct (scheme_map st); [contradiction|reflexivity].
  - rewrite Hp, Hempty. exact IH.
  - rewrite Hp, Hempty. exact IH.
Qed.

(* ================================================================== *)
(** ** When the text of a page is read *)
(* ================================================================== *)

Lemma process_table_found (st : registry * bool) (t : table) :
  snd (process_table st t) = snd st || two_rows t.
Proof.
  unfold process_table, two_rows.
  destruct t as [|header_row [|r data]]; cbn [List.length Nat.leb].
  - now rewrite orb_false_r.
  - now rewrite orb_false_r.
  - rewrite orb_true_r. now destruct (Dict.get _ _ _).
Qed.

Lemma process_tables_found (tables : list table) (st : registry * bool) :
  snd (fold_left process_table tables st) = snd st || existsb two_rows tables.
Proof.
  revert st. induction tables as [|t l IH]; intros st; cbn [fold_left existsb].
  - now rewrite orb_false_r.
  - rewrite IH, process_table_found. now rewrite orb_assoc.
Qed.

(** One page: the flag after it, and the entry it adds to the log. *)
Lemma process_page_log (st : attempt_state) (pg : page) (tables : list table) :
  extract_tables pg = Returns tables ->
  let st' := state_of (process_page st pg) in
  tables_found st' = tables_found st || existsb two_rows tables
  /\ fallback_log st'
     = fallback_log st
       ++ [negb (tables_found st || existsb two_rows tables)
           || is_empty (after_tables st tables)].
Proof.
  intros Htables. unfold process_page, after_tables. rewrite Htables.
  pose proof (process_tables_found tables (scheme_map st, tables_found st)) as H.
  destruct (fold_left _ _ _) as [sm found]. cbn [snd fst] in *. subst found.
  destruct (negb _ || is_empty sm).
  - destruct (extract_text pg); cbn [state_of tables_found fallback_log]; auto.
  - cbn [state_of tables_found fallback_log]; auto.
Qed.

Lemma process_pages_log (pages : list page) (st st' : attempt_state) :
  process_pages st pages = Done st' ->
  tables_found st'
  = tables_found st || existsb two_rows (flat_map page_tables pages)
  /\ List.length (fallback_log st')
     = List.length (fallback_log st) + List.length pages.
Proof.
  revert st. induction pages as [|pg rest IH]; intros st;
    cbn [process_pages flat_map List.length].
  - intros [= <-]. rewrite orb_false_r. split; [reflexivity | lia].
  - destruct (extract_tables pg) as [tables|] eqn:Et.
    + pose proof (process_page_log st pg tables Et) as [Hf Hl].
      cbn zeta in Hf, Hl.
      destruct (process_page st pg) as [st1|st1]; [|discriminate].
      cbn [state_of] in Hf, Hl. intros Hrest.
      destruct (IH st1 Hrest) as [Hf' Hl']. split.
      * assert (Hpg : page_tables pg = tables)
          by (unfold page_tables; now rewrite Et).
        rewrite Hf', Hf, Hpg, existsb_app. now rewrite orb_assoc.
      * rewrite Hl', Hl, length_app. cbn [List.length]. lia.
    + unfold process_page. rewrite Et. discriminate.
Qed.

(** C4, as the code has it.  [tables_found] is set to false once, when the
    attempt starts, and never reset: on a page whose tables could be read,
    the text is read if and only if no table of two rows or more has been
    found on that page or on an earlier page of the attempt, or the
    registry is empty after the tables of that page. *)
Theorem fallback_runs_iff
        (sm0 : registry) (before : list page) (pg : page)
        (tables : list table) (st : attempt_state) :
  process_pages (AttemptState sm0 false []) before = Done st ->
  extract_tables pg = Returns tables ->
  nth_error (fallback_log (state_of (process_page st pg)))
            (List.length before) = Some true
  <-> (existsb two_rows (flat_map page_tables (before ++ [pg])) = false
       \/ after_tables st tables = []).
Proof.
  intros Hbefore Htables.
  destruct (process_pages_log before _ st Hbefore) as [Hf Hl].
  cbn [tables_found fallback_log List.length orb] in Hf, Hl.
  destruct (process_page_log st pg tables Htables) as [_ Hlog].
  rewrite Hlog, nth_error_app2 by lia.
  replace (List.length before - List.length (fallback_log st)) with 0 by lia.
  assert (Hpg : page_tables pg = tables)
    by (unfold page_tables; now rewrite Htables).
  cbn [nth_error]. rewrite flat_map_app, existsb_app. cbn [flat_map].
  rewrite Hpg, app_nil_r, <- Hf.
  destruct (tables_found st || existsb two_rows tables);
    destruct (after_tables st tables); cbn; split; intros H;
    try reflexivity; try discriminate; auto.
  destruct H; discriminate.
Qed.

Lemma fallback_runs_iff_witness :
  let pg := table_page [cells ["Notes"; "Remarks"]%string] in
  process_pages (AttemptState [] false []) [text_page "ABC Fund 0.50%"]
  = Done (AttemptState registry_A_text false [true])
  /\ extract_tables pg = Returns [[cells ["Notes"; "Remarks"]%string]]
  /\ (nth_error (fallback_log
                   (state_of (process_page
                                (AttemptState registry_A_text false [true]) pg)))
                1 = Some true
      <-> (existsb two_rows
                   (flat_map page_tables ([text_page "ABC Fund 0.50%"] ++ [pg]))
           = false
           \/ after_tables (AttemptState registry_A_text false [true])
                           [[cells ["Notes"; "Remarks"]%string]] = [])).
Proof.
  intros pg.
  assert (H1 : process_pages (AttemptState [] false [])
                             [text_page "ABC Fund 0.50%"]
               = Done (AttemptState registry_A_text false [true]))
    by (vm_compute; reflexivity).
  assert (H2 : extract_tables pg = Returns [[cells ["Notes"; "Remarks"]%string]])
    by reflexivity.
  exact (conj H1 (conj H2
           (fallback_runs_iff [] [text_page "ABC Fund 0.50%"] pg _ _ H1 H2))).
Defined.

(** C4 as stated fails on a page without a table that follows a page with
    one: the second page below has no table, yet its text is not read,
    and "xyz fund", which the text would give, is not in the registry. *)
Lemma no_fallback_after_a_page_with_a_table :
  let second := text_page "XYZ Fund 0.30%" in
  process_pages (AttemptState [] false []) [table_page table_A; second]
  = Done (AttemptState registry_A true [false; false])
  /\ page_tables second = []
  /\ (exists t, extract_text second = Returns t
                /\ text_pass t registry_A
                   = registry_A
                     ++ [(str "xyz fund", Rates (Some 30%N) None None None None)]).
Proof.
  intros second. split; [vm_compute; reflexivity|].
  split; [reflexivity|].
  eexists. split; [reflexivity|]. vm_compute. reflexivity.
Qed.

(* ================================================================== *)
(** ** Reconciliation *)
(* ================================================================== *)

Section Choices.
Variable score : text -> text -> nat.

(** No choice reaches the cutoff: [extractOne] returns [None]. *)
Lemma extractOne_none (query : text) (choices : list text) (cutoff : nat) :
  (forall k, In k choices -> score query k < cutoff) ->
  extractOne score query choices cutoff = None.
Proof.
  unfold extractOne. induction choices as [|c l IH]; intros H;
    cbn [fold_left].
  - reflexivity.
  - unfold better at 2.
    assert (Hc : (score query c <? cutoff) = true)
      by (apply Nat.ltb_lt, H; now left).
    rewrite Hc. apply IH. intros k Hk. apply H. now right.
Qed.
End Choices.

(** C8, as the code has it.  The resolver looks names up in the
    dictionary of line 235, the registry with its keys normalized again,
    not in the registry itself.  For a row whose normalized fund name is
    not a key of that dictionary, if every key of that dictionary scores
    below 90 against the name, the row gets no rate. *)
Theorem fuzzy_below_threshold_gives_no_rate
        (value : Type) (value_str : value -> text)
        (score : text -> text -> nat)
        (normalized_pdf_keys : registry) (df : frame value) (i : nat) :
  let scheme := normalize (row_str value_str df i (str "Schemename")) in
  reg_get normalized_pdf_keys scheme = None ->
  (forall k, In k (Dict.keys normalized_pdf_keys) -> score scheme k < 90) ->
  get_brokerage value_str score normalized_pdf_keys df i = None.
Proof.
  intros scheme Hmiss Hlow. unfold get_brokerage. fold scheme.
  destruct (negb _); [reflexivity|].
  destruct (is_empty scheme || _); [reflexivity|].
  rewrite Hmiss.
  now rewrite (extractOne_none score scheme _ 90 Hlow).
Qed.

Lemma fuzzy_below_threshold_gives_no_rate_witness :
  reg_get registry_A (normalize (row_str xl_str sheet 1 (str "Schemename")))
  = None
  /\ (forall k, In k (Dict.keys registry_A) ->
                exact_score
                  (normalize (row_str xl_str sheet 1 (str "Schemename"))) k
                < 90)
  /\ get_brokerage xl_str exact_score registry_A sheet 1 = None.
Proof.
  assert (H1 : reg_get registry_A
                       (normalize (row_str xl_str sheet 1 (str "Schemename")))
               = None) by (vm_compute; reflexivity).
  assert (H2 : forall k, In k (Dict.keys registry_A) ->
                         exact_score
                           (normalize (row_str xl_str sheet 1 (str "Schemename"))) k
                         < 90).
  { intros k [<-|[]]. vm_compute. lia. }
  exact (conj H1 (conj H2
           (fuzzy_below_threshold_gives_no_rate
              xl_value xl_str exact_score registry_A sheet 1 H1 H2))).
Defined.

(** C8 fails for the keys of the registry itself.  The cell
    "X Retail Plan Regular Plan" is stored under the key "x retail plan";
    line 235 normalizes the key again, to "x".  The row of the fund "X"
    is not a key of the registry and scores 0 against its only key, yet
    it is given the rate 0.5 of that key. *)
Lemma renormalized_key_gives_a_rate :
  let registry :=
    extract_scheme_data
      (fun _ _ =>
         Returns [table_page
                    [ cells ["Scheme Name"; "1st Yr Trail"];
                      cells ["X Retail Plan Regular Plan"; "0.50%"] ]%string])
      (str "rates.pdf") PDF_PASSWORDS in
  let df : frame xl_value :=
    [ (str "Schemename", [XText (str "X")]);
      (str "BrokerageName", [XText (str "FIRST YEAR TRAIL")]) ] in
  registry = [ (str "x retail plan", Rates (Some 50%N) None None None None) ]
  /\ row_scheme xl_str df 0 = str "x"
  /\ reg_get registry (row_scheme xl_str df 0) = None
  /\ (forall k, In k (Dict.keys registry) ->
                exact_score (row_scheme xl_str df 0) k < 90)
  /\ normalize_keys registry
     = [ (str "x", Rates (Some 50%N) None None None None) ]
  /\ xl_get_brokerage (normalize_keys registry) df 0 = Some 50%N
  /\ frame_get (xl_fill_excel df registry) (str "T15") = Some [XFloat 50%N].
Proof.
  intros registry df.
  assert (H : registry
              = [ (str "x retail plan",
                   Rates (Some 50%N) None None None None) ])
    by (vm_compute; reflexivity).
  rewrite H.
  repeat split; try (vm_compute; reflexivity).
  intros k [<-|[]]. vm_compute. lia.
Qed.

Section Columns.
Variable value : Type.

Lemma frame_get_set_same (df : frame value) (col : text) (v : list value) :
  frame_get (frame_set df col v) col = Some v.
Proof.
  unfold frame_get, frame_set.
  induction df as [|[k c] df IH]; cbn [Dict.set Dict.get].
  - now rewrite text_eqb_refl.
  - destruct (text_eqb col k) eqn:E; cbn [Dict.get]; rewrite E;
      [reflexivity | exact IH].
Qed.

Lemma frame_get_set_other (df : frame value) (col other : text)
      (v : list value) :
  other <> col ->
  frame_get (frame_set df col v) other = frame_get df other.
Proof.
  intros Hne. unfold frame_get, frame_set.
  induction df as [|[k c] df IH]; cbn [Dict.set Dict.get].
  - now rewrite (text_eqb_neq other col Hne).
  - destruct (text_eqb col k) eqn:E; cbn [Dict.get].
    + apply text_eqb_eq in E. subst k.
      now rewrite (text_eqb_neq other col Hne).
    + destruct (text_eqb other k); [reflexivity | exact IH].
Qed.
End Columns.

(** C2, as the code has it.  Every column of the input other than "T15",
    "B15" and the first column whose name holds "date" and not
    "brokerage" is in the output as it was in the input; "T15" and "B15"
    both hold the resolved rates, one for each row; and the first date
    column holds what the date formatting makes of it. *)
Theorem fill_excel_columns
        (value : Type) (value_str : value -> text)
        (format_dates : list value -> list value)
        (rate_value : option rate -> value)
        (score : text -> text -> nat)
        (df : frame value) (sm : registry) :
  let out := fill_excel value_str format_dates rate_value score df sm in
  let resolved :=
    map (fun i => rate_value
                    (get_brokerage value_str score (normalize_keys sm)
                                   (convert_dates format_dates df) i))
        (seq 0 (n_rows (convert_dates format_dates df))) in
  (forall col,
      col <> str "T15" -> col <> str "B15" ->
      hd_error (date_cols df) <> Some col ->
      frame_get out col = frame_get df col)
  /\ frame_get out (str "T15") = Some resolved
  /\ frame_get out (str "B15") = Some resolved
  /\ (forall col column,
         col <> str "T15" -> col <> str "B15" ->
         hd_error (date_cols df) = Some col ->
         frame_get df col = Some column ->
         frame_get out col = Some (format_dates column)).
Proof.
  intros out resolved.
  assert (Hout : out = frame_set (frame_set (convert_dates format_dates df)
                                            (str "T15") resolved)
                                 (str "B15") resolved).
  { unfold out, fill_excel. fold resolved.
    now rewrite frame_get_set_same. }
  assert (T15_B15 : str "T15" <> str "B15") by discriminate.
  repeat split.
  - intros col H1 H2 Hd. rewrite Hout.
    rewrite frame_get_set_other, frame_get_set_other by assumption.
    unfold convert_dates. destruct (date_cols df) as [|c l]; [reflexivity|].
    destruct (frame_get df c) eqn:E; [|reflexivity].
    apply frame_get_set_other. intros ->. now apply Hd.
  - rewrite Hout, frame_get_set_other by exact T15_B15.
    apply frame_get_set_same.
  - rewrite Hout. apply frame_get_set_same.
  - intros col column H1 H2 Hd Hcol. rewrite Hout.
    rewrite frame_get_set_other, frame_get_set_other by assumption.
    unfold convert_dates. destruct (date_cols df) as [|c l]; [discriminate|].
    injection Hd as ->. rewrite Hcol. apply frame_get_set_same.
Qed.

Lemma fill_excel_columns_witness :
  (str "Schemename" <> str "T15" /\ str "Schemename" <> str "B15"
   /\ hd_error (date_cols sheet) <> Some (str "Schemename")
   /\ frame_get (xl_fill_excel sheet registry_A) (str "Schemename")
      = frame_get sheet (str "Schemename"))
  /\ (hd_error (date_cols sheet) = Some (str "Date")
      /\ frame_get (xl_fill_excel sheet registry_A) (str "Date")
         = Some (xl_format_dates [XTimestamp 2024 1 5; XTimestamp 2024 2 29])).
Proof.
  destruct (fill_excel_columns xl_value xl_str xl_format_dates xl_rate
                               exact_score sheet registry_A)
    as [Hkeep [_ [_ Hdate]]].
  assert (N1 : str "Schemename" <> str "T15") by discriminate.
  assert (N2 : str "Schemename" <> str "B15") by discriminate.
  assert (N3 : hd_error (date_cols sheet) <> Some (str "Schemename"))
    by (vm_compute; discriminate).
  assert (D1 : str "Date" <> str "T15") by discriminate.
  assert (D2 : str "Date" <> str "B15") by discriminate.
  assert (D3 : hd_error (date_cols sheet) = Some (str "Date"))
    by (vm_compute; reflexivity).
  assert (D4 : frame_get sheet (str "Date")
               = Some [XTimestamp 2024 1 5; XTimestamp 2024 2 29])
    by (vm_compute; reflexivity).
  exact (conj (conj N1 (conj N2 (conj N3 (Hkeep (str "Schemename") N1 N2 N3))))
              (conj D3 (Hdate (str "Date") _ D1 D2 D3 D4))).
Defined.

(** C2 as stated fails on a sheet with a date column: lines 231-233
    rewrite the first column whose name holds "date" as text in the form
    day-month-year.  The sheet below also shows the two rate columns. *)
Lemma date_column_is_rewritten :
  frame_get sheet (str "Date")
  = Some [XTimestamp 2024 1 5; XTimestamp 2024 2 29]
  /\ frame_get (xl_fill_excel sheet registry_A) (str "Date")
     = Some [XText (str "05-01-2024"); XText (str "29-02-2024")]
  /\ frame_get (xl_fill_excel sheet registry_A) (str "Date")
     <> frame_get sheet (str "Date")
  /\ frame_get (xl_fill_excel sheet registry_A) (str "T15")
     = Some [XFloat 50%N; XNaN].
Proof.
  repeat split; try (vm_compute; reflexivity).
  vm_compute. discriminate.
Qed.

(* ================================================================== *)
(** ** The matcher finds matches only *)
(* ================================================================== *)

Lemma last_cons (X : Type) (l : list X) (a d : X) :
  last (a :: l) d = last l a.
Proof.
  revert a d. induction l as [|b l IH]; intros a d; [reflexivity|].
  change (last (a :: b :: l) d) with (last (b :: l) d).
  now rewrite (IH b d), (IH b a).
Qed.

Lemma last_app_default (X : Type) (l1 l2 : list X) (d : X) :
  last (l1 ++ l2) d = last l2 (last l1 d).
Proof.
  revert d. induction l1 as [|a l1 IH]; intros d; [reflexivity|].
  rewrite <- app_comm_cons, !last_cons. apply IH.
Qed.

Lemma last_of_app (prev : option ascii) (m1 m2 : text) :
  last_of (last_of prev m1) m2 = last_of prev (m1 ++ m2).
Proof.
  unfold last_of. now rewrite map_app, last_app_default.
Qed.

Section Soundness.
Variable A : Type.

Lemma star_sound (p : ascii -> bool) (s : text) :
  forall (prev : option ascii) (k : cont A) (a : A),
    star p prev s k = Some a ->
    exists m rest, s = m ++ rest /\ forallb p m = true
                   /\ k (last_of prev m) rest = Some a.
Proof.
  induction s as [|c s IH]; intros prev k a; cbn [star].
  - intros H. exists [], []. repeat split; assumption.
  - destruct (p c) eqn:Hp.
    + destruct (star p (Some c) s k) as [b|] eqn:E.
      * intros [= <-]. destruct (IH _ _ _ E) as [m [rest [-> [Hm Hk]]]].
        exists (c :: m), rest. repeat split.
        -- cbn [forallb]. now rewrite Hp, Hm.
        -- rewrite <- Hk. f_equal.
           exact (eq_sym (last_of_app prev [c] m)).
      * intros H. exists [], (c :: s). repeat split; assumption.
    + intros H. exists [], (c :: s). repeat split; assumption.
Qed.

Lemma rmatch_sound (r : regex) :
  forall (prev : option ascii) (s : text) (k : cont A) (a : A),
    rmatch r prev s k = Some a ->
    exists m rest, s = m ++ rest /\ matches r prev m rest
                   /\ k (last_of prev m) rest = Some a.
Proof.
  induction r as [|p|r1 IH1 r2 IH2|r1 IH1 r2 IH2|r IH|p| |];
    intros prev s k a; cbn [rmatch].
  - intros H. exists [], s. repeat split; [constructor | exact H].
  - destruct s as [|c s]; [discriminate|].
    destruct (p c) eqn:Hp; [|discriminate].
    intros H. exists [c], s. repeat split; [now constructor | exact H].
  - intros H. destruct (IH1 _ _ _ _ H) as [m1 [rest1 [-> [H1 H']]]].
    destruct (IH2 _ _ _ _ H') as [m2 [rest [-> [H2 Hk]]]].
    exists (m1 ++ m2), rest. repeat split.
    + now rewrite app_assoc.
    + now constructor.
    + now rewrite <- last_of_app.
  - destruct (rmatch r1 prev s k) as [b|] eqn:E.
    + intros [= <-]. destruct (IH1 _ _ _ _ E) as [m [rest [-> [H1 Hk]]]].
      exists m, rest. repeat split; [now apply M_AltL | exact Hk].
    + intros H. destruct (IH2 _ _ _ _ H) as [m [rest [-> [H2 Hk]]]].
      exists m, rest. repeat split; [now apply M_AltR | exact Hk].
  - destruct (rmatch r prev s k) as [b|] eqn:E.
    + intros [= <-]. destruct (IH _ _ _ _ E) as [m [rest [-> [H1 Hk]]]].
      exists m, rest. repeat split; [now apply M_OptSome | exact Hk].
    + intros H. exists [], s. repeat split; [apply M_OptNone | exact H].
  - intros H. destruct (star_sound p s prev k a H) as [m [rest [-> [Hm Hk]]]].
    exists m, rest. repeat split; [now constructor | exact Hk].
  - destruct (xorb _ _) eqn:E; [|discriminate].
    intros H. exists [], s. repeat split; [now constructor | exact H].
  - destruct s as [|c [|d s]].
    + intros H. exists [], []. repeat split; [constructor; now left | exact H].
    + destruct (code c =? 10) eqn:E; [|discriminate].
      intros H. exists [], [c]. repeat split; [|exact H].
      constructor. right. exists c. split; [reflexivity|].
      now apply Nat.eqb_eq.
    + discriminate.
Qed.
End Soundness.

Lemma match_here_sound (r : regex) (prev : option ascii) (s rest : text) :
  match_here r prev s = Some rest ->
  exists m, s = m ++ rest /\ matches r prev m rest.
Proof.
  unfold match_here. intros H.
  destruct (rmatch_sound text r prev s _ rest H) as [m [rest' [-> [Hm Hk]]]].
  injection Hk as ->. now exists m.
Qed.

(** A literal matches itself only. *)
Lemma matches_literal (q m : text) (prev : option ascii) (rest : text) :
  matches (seqs (map chr q)) prev m rest -> m = q.
Proof.
  revert m prev. induction q as [|c q IH]; intros m prev H.
  - cbn in H. now inversion H.
  - destruct q as [|d q].
    + cbn in H. inversion H as [|? ? ? ? Hc| | | | | | | |]; subst.
      unfold chr in *. apply Ascii.eqb_eq in Hc. now subst.
    + change (seqs (map chr (c :: d :: q)))
        with (Seq (chr c) (seqs (map chr (d :: q)))) in H.
      inversion H as [| |? ? ? m1 m2 ? H1 H2| | | | | | |]; subst.
      inversion H1 as [|? ? ? ? Hc| | | | | | | |]; subst.
      apply Ascii.eqb_eq in Hc. subst.
      rewrite (IH _ _ H2). reflexivity.
Qed.

(** An alternation matches what one of its alternatives matches. *)
Lemma matches_alts (rs : list regex) (m : text) (prev : option ascii)
      (rest : text) :
  matches (alts rs) prev m rest ->
  exists r, In r rs /\ matches r prev m rest.
Proof.
  induction rs as [|r rs IH]; intros H.
  - cbn in H. inversion H. discriminate.
  - destruct rs as [|r' rs].
    + exists r. split; [now left | exact H].
    + change (alts (r :: r' :: rs)) with (Alt r (alts (r' :: rs))) in H.
      inversion H; subst.
      * exists r. split; [now left | assumption].
      * destruct IH as [x [Hin Hx]]; [assumption|].
        exists x. split; [now right | exact Hx].
Qed.

(** A match of the plan-suffix pattern: white space, a qualifier, white
    space, and then the end of the text or its final line feed. *)
Lemma plan_suffix_match (prev : option ascii) (u rest : text) :
  match_here plan_suffix_pattern prev u = Some rest ->
  exists ws q ws',
    u = ws ++ q ++ ws' ++ rest
    /\ forallb is_space ws = true /\ In q PLAN_QUALIFIERS
    /\ forallb is_space ws' = true
    /\ (rest = [] \/ exists c, rest = [c] /\ code c = 10).
Proof.
  intros H. destruct (match_here_sound _ _ _ _ H) as [m [-> Hm]].
  unfold plan_suffix_pattern, sp in Hm. cbn [seqs] in Hm.
  inversion Hm as [| |? ? ? ws m1 ? Hws G1| | | | | | |]; subst. clear Hm.
  inversion Hws as [| | | | | | |? ? ? ? Fws| |]; subst. clear Hws.
  inversion G1 as [| |? ? ? q m2 ? Hq G2| | | | | | |]; subst. clear G1.
  inversion G2 as [| |? ? ? ws' m3 ? Hws' G3| | | | | | |]; subst. clear G2.
  inversion Hws' as [| | | | | | |? ? ? ? Fws'| |]; subst. clear Hws'.
  inversion G3 as [| | | | | | | | |? ? Hend]; subst. clear G3.
  destruct (matches_alts (map (fun q => seqs (map chr q)) PLAN_QUALIFIERS)
                         _ _ _ Hq) as [r [Hin Hr]].
  apply in_map_iff in Hin. destruct Hin as [q0 [<- Hin]].
  apply matches_literal in Hr. subst q0.
  exists ws, q, ws'. rewrite app_nil_r, <- !app_assoc.
  repeat split; assumption.
Qed.

(* ================================================================== *)
(** ** Substitution *)
(* ================================================================== *)

(** Removing the characters of a class is a filter. *)
Lemma scan_class (p : ascii -> bool) (s : text) :
  forall fuel prev,
    List.length s < fuel ->
    kept (scan fuel (Chr p) prev s) = filter (fun c => negb (p c)) s.
Proof.
  induction s as [|c s IH]; intros fuel prev Hf;
    (destruct fuel as [|fuel]; [inversion Hf|]); cbn [scan filter].
  - reflexivity.
  - unfold match_here. cbn [rmatch List.length] in *.
    destruct (p c) eqn:Hp; cbn [negb].
    + assert (Hlt : (List.length s <? S (List.length s)) = true)
        by (apply Nat.ltb_lt; lia).
      rewrite Hlt. cbn [kept flat_map app]. apply IH. lia.
    + cbn [kept flat_map app]. f_equal. apply IH. lia.
Qed.

Lemma sub_empty_class (p : ascii -> bool) (s : text) :
  sub_empty (Chr p) s = filter (fun c => negb (p c)) s.
Proof. unfold sub_empty, pieces. apply scan_class. lia. Qed.

(** Where the pattern is found nowhere, nothing is removed. *)
Lemma scan_never (r : regex) (s : text) :
  forall fuel prev,
    List.length s < fuel -> never r prev s ->
    kept (scan fuel r prev s) = s.
Proof.
  induction s as [|c s IH]; intros fuel prev Hf [Hm Hn];
    (destruct fuel as [|fuel]; [inversion Hf|]); cbn [scan]; rewrite Hm.
  - reflexivity.
  - cbn [kept flat_map app]. f_equal. apply IH; [cbn in Hf; lia | exact Hn].
Qed.

(** Otherwise the text up to the first match is kept, the match is
    removed, and the scan goes on after it. *)
Lemma scan_first (r : regex) :
  (forall prev u rest,
      match_here r prev u = Some rest -> List.length rest < List.length u) ->
  forall s fuel prev,
    List.length s < fuel ->
    never r prev s
    \/ exists pre u rest prev',
        s = pre ++ u
        /\ match_here r (last_of prev pre) u = Some rest
        /\ List.length rest < fuel - S (List.length pre)
        /\ kept (scan fuel r prev s)
           = pre ++ kept (scan (fuel - S (List.length pre)) r prev' rest).
Proof.
  intros Hne. induction s as [|c s IH]; intros fuel prev Hf;
    (destruct fuel as [|fuel]; [inversion Hf|]).
  - destruct (match_here r prev []) as [rest|] eqn:E.
    + apply Hne in E. inversion E.
    + left. split; [exact E | exact I].
  - destruct (match_here r prev (c :: s)) as [rest|] eqn:E.
    + right. pose proof (Hne _ _ _ E) as Hlt.
      exists [], (c :: s), rest, (last (map Some (matched (c :: s) rest)) prev).
      repeat split.
      * exact E.
      * cbn [List.length] in *. lia.
      * cbn [scan]. rewrite E.
        apply Nat.ltb_lt in Hlt. rewrite Hlt.
        cbn [kept flat_map app].
        replace (S fuel - S (@List.length ascii [])) with fuel
          by (cbn [List.length]; lia).
        reflexivity.
    + cbn [List.length] in Hf.
      destruct (IH fuel (Some c)) as [Hn|[pre [u [rest [prev' [-> [Hm [Hl Hk]]]]]]]];
        [lia| |].
      * left. split; assumption.
      * right. exists (c :: pre), u, rest, prev'. repeat split.
        -- unfold last_of in *. cbn [map]. now rewrite last_cons.
        -- cbn [List.length]. lia.
        -- cbn [scan]. rewrite E. cbn [kept flat_map app List.length].
           unfold kept in Hk. rewrite Hk. reflexivity.
Qed.

Lemma qualifier_length (q : text) :
  In q PLAN_QUALIFIERS -> 3 <= List.length q.
Proof.
  intros H. repeat (destruct H as [<-|H]; [cbn; lia|]). destruct H.
Qed.

Lemma plan_suffix_nonempty (prev : option ascii) (u rest : text) :
  match_here plan_suffix_pattern prev u = Some rest ->
  3 + List.length rest <= List.length u.
Proof.
  intros H.
  destruct (plan_suffix_match _ _ _ H) as [ws [q [ws' [-> [_ [Hq _]]]]]].
  apply qualifier_length in Hq. rewrite !length_app. lia.
Qed.

Lemma plan_suffix_never_short (prev : option ascii) (s : text) :
  List.length s <= 1 -> never plan_suffix_pattern prev s.
Proof.
  intros Hs.
  assert (Hnone : forall p u, List.length u <= 1 ->
                              match_here plan_suffix_pattern p u = None).
  { intros p u Hu. destruct (match_here _ p u) eqn:E; [|reflexivity].
    apply plan_suffix_nonempty in E. lia. }
  destruct s as [|c [|d s]]; cbn [never List.length] in *.
  - split; [apply Hnone; cbn; lia | exact I].
  - split; [apply Hnone; cbn; lia|].
    split; [apply Hnone; cbn; lia | exact I].
  - lia.
Qed.

(** Line 221 either leaves the text as it is, or removes one final
    qualifier with the white space around it. *)
Lemma remove_plan_suffix_cases (t : text) :
  (never plan_suffix_pattern None t /\ remove_plan_suffix t = t)
  \/ exists pre ws q ws' rest,
      t = pre ++ ws ++ q ++ ws' ++ rest
      /\ forallb is_space ws = true /\ In q PLAN_QUALIFIERS
      /\ forallb is_space ws' = true
      /\ (rest = [] \/ exists c, rest = [c] /\ code c = 10)
      /\ remove_plan_suffix t = pre ++ rest.
Proof.
  unfold remove_plan_suffix, sub_empty, pieces.
  destruct (scan_first plan_suffix_pattern) with
    (s := t) (fuel := S (List.length t)) (prev := @None ascii)
    as [Hn|[pre [u [rest [prev' [-> [Hm [Hl Hk]]]]]]]].
  - intros p u rest H. apply plan_suffix_nonempty in H. lia.
  - lia.
  - left. split; [exact Hn|]. apply scan_never; [lia | exact Hn].
  - right.
    destruct (plan_suffix_match _ _ _ Hm)
      as [ws [q [ws' [-> [Hws [Hq [Hws' Hrest]]]]]]].
    exists pre, ws, q, ws', rest. repeat split; try assumption.
    rewrite Hk. f_equal. apply scan_never; [exact Hl|].
    apply plan_suffix_never_short.
    destruct Hrest as [->|[c [-> _]]]; cbn; lia.
Qed.

(* ================================================================== *)
(** ** [strip] and [lower] *)
(* ================================================================== *)

Lemma is_space_lower (c : ascii) : is_space (lower_char c) = is_space c.
Proof. destruct c as [[] [] [] [] [] [] [] []]; vm_compute; reflexivity. Qed.

Lemma lower_char_idem (c : ascii) : lower_char (lower_char c) = lower_char c.
Proof. destruct c as [[] [] [] [] [] [] [] []]; vm_compute; reflexivity. Qed.

Lemma special_lower (c : ascii) :
  special c = false -> special (lower_char c) = false.
Proof.
  destruct c as [[] [] [] [] [] [] [] []]; vm_compute;
    intros H; (reflexivity || discriminate H).
Qed.

Lemma newline_is_space (c : ascii) : code c = 10 -> is_space c = true.
Proof. intros H. unfold is_space, in_range. now rewrite H. Qed.

Lemma lstrip_spec (s : text) :
  exists ws, s = ws ++ lstrip s /\ forallb is_space ws = true
             /\ head_not_space (lstrip s).
Proof.
  induction s as [|c s [ws [Hs [Hws Hh]]]]; cbn [lstrip].
  - exists []. repeat split.
  - destruct (is_space c) eqn:E.
    + exists (c :: ws). cbn [app forallb]. rewrite E, Hws, <- Hs.
      repeat split. exact Hh.
    + exists []. repeat split. exact E.
Qed.

Lemma lstrip_fixed (s : text) : head_not_space s -> lstrip s = s.
Proof. destruct s as [|c s]; cbn; [reflexivity|]. now intros ->. Qed.

Lemma forallb_rev (p : ascii -> bool) (l : text) :
  forallb p l = true -> forallb p (rev l) = true.
Proof.
  rewrite !forallb_forall. intros H x Hx. apply H. now apply in_rev.
Qed.

Lemma rstrip_spec (s : text) :
  exists ws, s = rstrip s ++ ws /\ forallb is_space ws = true
             /\ head_not_space (rev (rstrip s)).
Proof.
  unfold rstrip. destruct (lstrip_spec (rev s)) as [ws [Hs [Hws Hh]]].
  exists (rev ws). repeat split.
  - rewrite <- rev_app_distr, <- Hs. now rewrite rev_involutive.
  - now apply forallb_rev.
  - now rewrite rev_involutive.
Qed.

Lemma lstrip_spaces (ws s : text) :
  forallb is_space ws = true -> lstrip (ws ++ s) = lstrip s.
Proof.
  induction ws as [|c ws IH]; cbn [forallb app lstrip]; [reflexivity|].
  intros H. apply andb_true_iff in H. destruct H as [Hc Hws].
  rewrite Hc. now apply IH.
Qed.

Lemma rstrip_spaces (s ws : text) :
  forallb is_space ws = true -> rstrip (s ++ ws) = rstrip s.
Proof.
  intros H. unfold rstrip. rewrite rev_app_distr.
  now rewrite lstrip_spaces by now apply forallb_rev.
Qed.

Lemma rstrip_fixed (s : text) : head_not_space (rev s) -> rstrip s = s.
Proof.
  intros H. unfold rstrip. rewrite lstrip_fixed by exact H.
  apply rev_involutive.
Qed.

Lemma strip_tidy (s : text) : tidy (strip s).
Proof.
  unfold strip.
  destruct (lstrip_spec s) as [_ [_ [_ Hh]]].
  destruct (rstrip_spec (lstrip s)) as [ws [Hs [_ Hl]]].
  split; [|exact Hl].
  destruct (rstrip (lstrip s)) as [|c b] eqn:E; [exact I|].
  rewrite Hs in Hh. exact Hh.
Qed.

Lemma tidy_strip (s : text) : tidy s -> strip s = s.
Proof.
  intros [Hh Hl]. unfold strip. rewrite lstrip_fixed by exact Hh.
  now apply rstrip_fixed.
Qed.

(** A tidy text does not end with white space. *)
Lemma no_trailing_space (a ws : text) :
  head_not_space (rev (a ++ ws)) -> forallb is_space ws = true -> ws = [].
Proof.
  destruct ws as [|d ws] using rev_ind; [reflexivity|].
  intros Hh Hws. rewrite app_assoc, rev_app_distr in Hh. cbn in Hh.
  rewrite forallb_app in Hws. apply andb_true_iff in Hws.
  destruct Hws as [_ Hd]. cbn in Hd. rewrite Hh in Hd. discriminate.
Qed.

Lemma lstrip_Forall (P : ascii -> Prop) (s : text) :
  Forall P s -> Forall P (lstrip s).
Proof.
  intros H. destruct (lstrip_spec s) as [ws [Hs _]].
  rewrite Hs in H. apply Forall_app in H. tauto.
Qed.

Lemma rstrip_Forall (P : ascii -> Prop) (s : text) :
  Forall P s -> Forall P (rstrip s).
Proof.
  intros H. destruct (rstrip_spec s) as [ws [Hs _]].
  rewrite Hs in H. apply Forall_app in H. tauto.
Qed.

Lemma strip_Forall (P : ascii -> Prop) (s : text) :
  Forall P s -> Forall P (strip s).
Proof. intros H. apply rstrip_Forall, lstrip_Forall, H. Qed.

Lemma lower_tidy (s : text) : tidy s -> tidy (lower s).
Proof.
  unfold tidy, lower. rewrite <- map_rev. intros [Hh Hl].
  split; [destruct s | destruct (rev s)]; cbn [map head_not_space] in *;
    try exact I; now rewrite is_space_lower.
Qed.

(** Line 220 gives a tidy text of plain characters, and leaves such a
    text as it is. *)
Lemma remove_special_tidy (x : text) : tidy (remove_special x).
Proof. apply lower_tidy, strip_tidy. Qed.

Lemma remove_special_plain (x : text) : Forall plain (remove_special x).
Proof.
  unfold remove_special, lower. rewrite sub_empty_class.
  apply Forall_map.
  apply Forall_impl with (P := fun c => special c = false).
  - intros c Hc. split; [now apply special_lower | apply lower_char_idem].
  - apply strip_Forall. apply Forall_forall. intros c Hc.
    apply filter_In in Hc. destruct Hc as [_ Hc].
    now apply negb_true_iff in Hc.
Qed.

Lemma remove_special_fixed (y : text) :
  Forall plain y -> tidy y -> remove_special y = y.
Proof.
  intros Hp Ht. unfold remove_special. rewrite sub_empty_class.
  assert (Hf : filter (fun c => negb (special c)) y = y).
  { clear Ht. induction Hp as [|c l [Hc _] _ IH]; cbn [filter];
      [reflexivity|]. now rewrite Hc, IH. }
  rewrite Hf, (tidy_strip y Ht). unfold lower.
  clear Hf Ht. induction Hp as [|c l [_ Hc] _ IH]; cbn [map];
    [reflexivity|]. now rewrite Hc, IH.
Qed.

(* ================================================================== *)
(** ** [normalize] twice *)
(* ================================================================== *)

Lemma starts_with_app (p b : text) : starts_with p (p ++ b) = true.
Proof.
  induction p as [|c p IH]; cbn [starts_with app]; [reflexivity|].
  now rewrite Ascii.eqb_refl, IH.
Qed.

Lemma ends_with_app (a q : text) : ends_with q (a ++ q) = true.
Proof. unfold ends_with. rewrite rev_app_distr. apply starts_with_app. Qed.

Lemma firstn_before (a q : text) :
  firstn (List.length (a ++ q) - List.length q) (a ++ q) = a.
Proof.
  rewrite length_app.
  replace (List.length a + List.length q - List.length q)
    with (List.length a + 0) by lia.
  now rewrite firstn_app_2, app_nil_r.
Qed.

(** What line 221 and the final [strip] make of a tidy text: the text
    itself, or the text before a final qualifier. *)
Lemma strip_plan_suffix_cases (t : text) :
  tidy t ->
  (never plan_suffix_pattern None t /\ strip (remove_plan_suffix t) = t)
  \/ exists pre ws q,
      t = pre ++ ws ++ q /\ forallb is_space ws = true
      /\ In q PLAN_QUALIFIERS
      /\ strip (remove_plan_suffix t) = strip pre.
Proof.
  intros Ht.
  destruct (remove_plan_suffix_cases t)
    as [[Hn ->]|[pre [ws [q [ws' [rest [Hs [Hws [Hq [Hws' [Hrest Hr]]]]]]]]]]].
  - left. split; [exact Hn | now apply tidy_strip].
  - right. exists pre, ws, q.
    assert (Htail : forallb is_space (ws' ++ rest) = true).
    { rewrite forallb_app, Hws'. destruct Hrest as [->|[c [-> Hc]]];
        [reflexivity|]. cbn. now rewrite (newline_is_space c Hc). }
    assert (Hnil : ws' ++ rest = []).
    { apply (no_trailing_space (pre ++ ws ++ q)); [|exact Htail].
      rewrite <- !app_assoc. rewrite <- Hs. apply Ht. }
    apply app_eq_nil in Hnil. destruct Hnil as [-> ->].
    rewrite !app_nil_r in *. repeat split; try assumption.
    now rewrite Hr.
Qed.

(** C9, as the code has it, for every text [x] whose characters have
    code points below 256.  When the text that line 220 makes of [x] does
    not end with two plan qualifiers, the same or not, one after the
    other, normalizing twice gives what normalizing once gives.  (On such
    a text [str.lower] works character by character and keeps every word
    character a word character; it does not on all of Unicode, which
    [text] does not hold.) *)
Theorem normalize_idempotent (x : text) :
  two_qualifiers (remove_special x) = false ->
  normalize (normalize x) = normalize x.
Proof.
  intros Htwo.
  pose proof (remove_special_tidy x) as Ht.
  pose proof (remove_special_plain x) as Hp.
  unfold normalize at 2 3. set (t := remove_special x) in *.
  destruct (strip_plan_suffix_cases t Ht)
    as [[Hn Hy]|[pre [ws [q [Hs [Hws [Hq Hy]]]]]]]; rewrite Hy.
  - (* nothing was removed *)
    unfold normalize. rewrite (remove_special_fixed t Hp Ht). exact Hy.
  - (* one qualifier was removed *)
    set (y := strip pre) in *.
    assert (Hty : tidy y) by apply strip_tidy.
    assert (Hpy : Forall plain y).
    { apply strip_Forall. rewrite Hs in Hp. apply Forall_app in Hp. tauto. }
    unfold normalize. rewrite (remove_special_fixed y Hpy Hty).
    destruct (strip_plan_suffix_cases y Hty)
      as [[_ Hy2]|[pre2 [ws2 [q2 [Hs2 [_ [Hq2 _]]]]]]]; [exact Hy2|].
    exfalso.
    (* [y] ends with a qualifier, so [t] ends with two *)
    assert (Hpre : lstrip pre = pre).
    { apply lstrip_fixed. destruct pre as [|c pre'].
      - exact I.
      - destruct Ht as [Hh _]. rewrite Hs in Hh. exact Hh. }
    assert (Hy' : rstrip pre = y) by (unfold y, strip; now rewrite Hpre).
    assert (Hbefore : before_qualifier q t = y).
    { unfold before_qualifier. rewrite Hs, app_assoc, firstn_before.
      now rewrite rstrip_spaces. }
    assert (Hend : qualifier_at_end y = true).
    { unfold qualifier_at_end. apply existsb_exists. exists q2.
      split; [exact Hq2|]. rewrite Hs2, app_assoc. apply ends_with_app. }
    assert (Hboth : two_qualifiers t = true).
    { unfold two_qualifiers. apply existsb_exists. exists q.
      split; [exact Hq|]. rewrite Hbefore, Hend, andb_true_r.
      rewrite Hs, app_assoc. apply ends_with_app. }
    rewrite Hboth in Htwo. discriminate.
Qed.

Lemma normalize_idempotent_witness :
  two_qualifiers (remove_special (str "ABC Fund - Regular Plan")) = false
  /\ normalize (normalize (str "ABC Fund - Regular Plan"))
     = normalize (str "ABC Fund - Regular Plan").
Proof.
  assert (H : two_qualifiers (remove_special (str "ABC Fund - Regular Plan"))
              = false) by (vm_compute; reflexivity).
  exact (conj H (normalize_idempotent (str "ABC Fund - Regular Plan") H)).
Defined.

(** Two qualifiers at the end include the same qualifier twice. *)
Lemma duplicated_is_two (t : text) :
  duplicated_qualifier t = true -> two_qualifiers t = true.
Proof.
  unfold duplicated_qualifier, two_qualifiers. rewrite !existsb_exists.
  intros [q [Hq H]]. exists q. split; [exact Hq|].
  apply andb_true_iff in H. destruct H as [H1 H2]. rewrite H1.
  cbn [andb]. unfold qualifier_at_end. apply existsb_exists.
  now exists q.
Qed.

(** C9 as stated fails on a text that ends with two different plan
    qualifiers: no qualifier is there twice, neither in the text nor in
    what line 220 makes of it, yet normalizing once removes the second
    qualifier and normalizing again removes the first. *)
Lemma two_different_qualifiers_not_idempotent :
  let x := str "abc retail plan institutional plan" in
  duplicated_qualifier x = false
  /\ duplicated_qualifier (remove_special x) = false
  /\ normalize x = str "abc retail plan"
  /\ normalize (normalize x) = str "abc"
  /\ normalize (normalize x) <> normalize x.
Proof.
  intros x. repeat split; try (vm_compute; reflexivity).
  vm_compute. discriminate.
Qed.

(* ================================================================== *)
(** ** Every number that is found is a float *)
(* ================================================================== *)

(** A match of [rate_pattern]: digits, a period, one or two digits and
    at most one percent sign. *)
Lemma rate_match (prev : option ascii) (u rest : text) :
  match_here rate_pattern prev u = Some rest ->
  exists ds d1 tail pct,
    u = (ds ++ "."%char :: d1 :: tail ++ pct) ++ rest
    /\ forallb is_digit ds = true /\ is_digit d1 = true
    /\ (tail = [] \/ exists d2, tail = [d2] /\ is_digit d2 = true)
    /\ (pct = [] \/ pct = ["%"%char]).
Proof.
  intros H. destruct (match_here_sound _ _ _ _ H) as [m [-> Hm]].
  unfold rate_pattern, chr in Hm. cbn [seqs] in Hm.
  inversion Hm as [| |? ? ? ds m1 ? Hds G1| | | | | | |]; subst. clear Hm.
  inversion Hds as [| | | | | | |? ? ? ? Fds| |]; subst. clear Hds.
  inversion G1 as [| |? ? ? dot m2 ? Hdot G2| | | | | | |]; subst. clear G1.
  inversion Hdot as [|? c0 ? ? Hc0| | | | | | | |]; subst. clear Hdot.
  apply Ascii.eqb_eq in Hc0. subst c0.
  inversion G2 as [| |? ? ? x m3 ? Hx G3| | | | | | |]; subst. clear G2.
  inversion Hx as [|? d1 ? ? Hd1| | | | | | | |]; subst. clear Hx.
  inversion G3 as [| |? ? ? tail pct ? Htail Hpct| | | | | | |]; subst.
  clear G3.
  exists ds, d1, tail, pct.
  split; [|split; [exact Fds|split; [exact Hd1|split]]].
  - rewrite <- ?app_assoc. cbn [app]. rewrite <- ?app_assoc. reflexivity.
  - inversion Htail as [| | | | |? ? ? ? Hd2| | | |]; subst; [|now left].
    inversion Hd2 as [|? d2 ? ? Hd| | | | | | | |]; subst.
    right. now exists d2.
  - inversion Hpct as [| | | | |? ? ? ? Hp| | | |]; subst; [|now left].
    inversion Hp as [|? c1 ? ? Hc1| | | | | | | |]; subst.
    apply Ascii.eqb_eq in Hc1. subst c1. now right.
Qed.

Lemma found_inl (m : text) (l : list (text + ascii)) :
  found (inl m :: l) = m :: found l.
Proof. reflexivity. Qed.

Lemma found_inr (c : ascii) (l : list (text + ascii)) :
  found (inr c :: l) = found l.
Proof. reflexivity. Qed.

(** What a scan finds are matches of the pattern. *)
Lemma scan_found (r : regex) (fuel : nat) :
  forall prev s m,
    In m (found (scan fuel r prev s)) ->
    exists prev' rest, match_here r prev' (m ++ rest) = Some rest.
Proof.
  induction fuel as [|fuel IH]; intros prev s m; cbn [scan];
    [intros []|].
  destruct (match_here r prev s) as [rest|] eqn:E.
  - destruct (List.length rest <? List.length s) eqn:Hlt.
    + rewrite found_inl. intros [<-|Hin].
      * exists prev, rest.
        destruct (match_here_sound _ _ _ _ E) as [m [Hs _]].
        assert (Hm : matched s rest = m).
        { unfold matched. rewrite Hs, length_app, Nat.add_sub.
          replace (List.length m) with (List.length m + 0) by lia.
          now rewrite firstn_app_2, app_nil_r. }
        rewrite Hm, <- Hs. exact E.
      * exact (IH _ _ _ Hin).
    + rewrite found_inl. intros [<-|Hin].
      * exists prev, s.
        destruct (match_here_sound _ _ _ _ E) as [m [Hs _]].
        apply Nat.ltb_ge in Hlt. rewrite Hs, length_app in Hlt.
        assert (m = []) by (destruct m; [reflexivity | cbn in Hlt; lia]).
        subst m. cbn [app] in *. now subst rest.
      * destruct s as [|c s]; [destruct Hin|].
        rewrite found_inr in Hin. exact (IH _ _ _ Hin).
  - destruct s as [|c s]; [intros []|].
    rewrite found_inr. intros Hin. exact (IH _ _ _ Hin).
Qed.

Lemma digit_not_comma (c : ascii) :
  is_digit c = true -> Ascii.eqb c "," = false.
Proof.
  intros H. destruct (Ascii.eqb c ",") eqn:E; [|reflexivity].
  apply Ascii.eqb_eq in E. subst c. discriminate H.
Qed.

Lemma digit_not_period (c : ascii) :
  is_digit c = true -> Ascii.eqb c "." = false.
Proof.
  intros H. destruct (Ascii.eqb c ".") eqn:E; [|reflexivity].
  apply Ascii.eqb_eq in E. subst c. discriminate H.
Qed.

Lemma digit_not_percent (c : ascii) :
  is_digit c = true -> Ascii.eqb c "%" = false.
Proof.
  intros H. destruct (Ascii.eqb c "%") eqn:E; [|reflexivity].
  apply Ascii.eqb_eq in E. subst c. discriminate H.
Qed.

Lemma replace_comma_fixed (m : text) :
  forallb (fun c => negb (Ascii.eqb c ",")) m = true -> replace_comma m = m.
Proof.
  unfold replace_comma. induction m as [|c m IH]; cbn [forallb map];
    [reflexivity|].
  intros H. apply andb_true_iff in H. destruct H as [Hc Hm].
  apply negb_true_iff in Hc. now rewrite Hc, IH.
Qed.

Lemma rstrip_char_last (ch x : ascii) (b : text) :
  Ascii.eqb x ch = false -> rstrip_char ch (b ++ [x]) = b ++ [x].
Proof.
  intros H. unfold rstrip_char. rewrite rev_app_distr. cbn [rev app].
  rewrite H. now rewrite <- (rev_involutive b) at 2.
Qed.

Lemma rstrip_char_drop (ch : ascii) (b : text) :
  rstrip_char ch (b ++ [ch]) = rstrip_char ch b.
Proof.
  unfold rstrip_char. rewrite rev_app_distr. cbn [rev app].
  now rewrite Ascii.eqb_refl.
Qed.

Lemma split_dot_digits (ds r : text) :
  forallb is_digit ds = true ->
  split_dot (ds ++ "."%char :: r) = Some (ds, r).
Proof.
  induction ds as [|c ds IH]; cbn [forallb app split_dot].
  - reflexivity.
  - intros H. apply andb_true_iff in H. destruct H as [Hc Hds].
    now rewrite (digit_not_period c Hc), (IH Hds).
Qed.

(** The text [float] is applied to, for a match of [rate_pattern]. *)
Lemma rate_match_float (ds tail pct : text) (d1 : ascii) :
  forallb is_digit ds = true -> is_digit d1 = true ->
  (tail = [] \/ exists d2, tail = [d2] /\ is_digit d2 = true) ->
  (pct = [] \/ pct = ["%"%char]) ->
  exists v,
    to_float (rstrip_char "%" (replace_comma (ds ++ "."%char :: d1 :: tail ++ pct)))
    = Some v.
Proof.
  intros Hds Hd1 Htail Hpct.
  assert (Hbody : rstrip_char "%" (replace_comma
                                     (ds ++ "."%char :: d1 :: tail ++ pct))
                  = ds ++ "."%char :: d1 :: tail).
  { rewrite replace_comma_fixed.
    - destruct Htail as [->|[d2 [-> Hd2]]]; destruct Hpct as [-> | ->];
        cbn [app].
      + change (ds ++ ["."%char; d1]) with (ds ++ ["."%char] ++ [d1]).
        rewrite app_assoc. apply rstrip_char_last.
        now apply digit_not_percent.
      + change (ds ++ ["."%char; d1; "%"%char])
          with (ds ++ ["."%char; d1] ++ ["%"%char]).
        rewrite app_assoc, rstrip_char_drop.
        change (ds ++ ["."%char; d1]) with (ds ++ ["."%char] ++ [d1]).
        rewrite app_assoc. apply rstrip_char_last.
        now apply digit_not_percent.
      + change (ds ++ ["."%char; d1; d2]) with (ds ++ ["."%char; d1] ++ [d2]).
        rewrite app_assoc. apply rstrip_char_last.
        now apply digit_not_percent.
      + change (ds ++ ["."%char; d1; d2; "%"%char])
          with (ds ++ ["."%char; d1; d2] ++ ["%"%char]).
        rewrite app_assoc, rstrip_char_drop.
        change (ds ++ ["."%char; d1; d2]) with (ds ++ ["."%char; d1] ++ [d2]).
        rewrite app_assoc. apply rstrip_char_last.
        now apply digit_not_percent.
    - rewrite forallb_app. apply andb_true_iff. split.
      + apply forallb_forall. intros c Hc.
        rewrite forallb_forall in Hds.
        now rewrite (digit_not_comma c (Hds c Hc)).
      + cbn [forallb]. rewrite (digit_not_comma d1 Hd1). cbn.
        destruct Htail as [->|[d2 [-> Hd2]]]; destruct Hpct as [-> | ->];
          cbn; try reflexivity; now rewrite (digit_not_comma d2 Hd2). }
  rewrite Hbody. unfold to_float. rewrite (split_dot_digits ds _ Hds).
  destruct Htail as [->|[d2 [-> Hd2]]].
  - rewrite Hds, Hd1. eexists. reflexivity.
  - rewrite Hds, Hd1, Hd2. eexists. reflexivity.
Qed.

(** The [ValueError] branch is never taken: whatever the text, every
    number that [findall] gives is one that [float] reads. *)
Lemma found_rates_are_floats (s m : text) :
  In m (findall rate_pattern s) ->
  exists v, to_float (rstrip_char "%" (replace_comma m)) = Some v.
Proof.
  unfold findall, pieces. intros H.
  destruct (scan_found _ _ _ _ _ H) as [prev [rest Hm]].
  destruct (rate_match _ _ _ Hm)
    as [ds [d1 [tail [pct [Hs [Hds [Hd1 [Htail Hpct]]]]]]]].
  apply app_inv_tail in Hs. subst m.
  now apply rate_match_float.
Qed.

(** A number that is found holds a period: the scan for numbers never
    meets a match that consumes nothing. *)
Lemma rate_match_nonempty (prev : option ascii) (u rest : text) :
  match_here rate_pattern prev u = Some rest ->
  List.length rest < List.length u.
Proof.
  intros H.
  destruct (rate_match _ _ _ H) as [ds [d1 [tail [pct [-> _]]]]].
  rewrite !length_app. cbn [List.length]. lia.
Qed.

(* ================================================================== *)
(** ** File names *)
(* ================================================================== *)

Lemma rsplit_dot_no_period (s : text) :
  no_period s = true -> rsplit_dot s = [s].
Proof.
  unfold no_period. induction s as [|c s IH]; cbn [forallb rsplit_dot];
    [reflexivity|].
  intros H. apply andb_true_iff in H. destruct H as [Hc Hs].
  apply negb_true_iff in Hc. now rewrite (IH Hs), Hc.
Qed.

Lemma rsplit_dot_last (base ext : text) :
  no_period ext = true -> rsplit_dot (base ++ "."%char :: ext) = [base; ext].
Proof.
  intros Hext. induction base as [|c base IH]; cbn [app rsplit_dot].
  - now rewrite (rsplit_dot_no_period ext Hext).
  - now rewrite IH.
Qed.

(** A text holds no period, or splits at its last one. *)
Lemma last_period (s : text) :
  no_period s = true
  \/ exists base ext, s = base ++ "."%char :: ext /\ no_period ext = true.
Proof.
  induction s as [|c s [IH|[base [ext [-> Hext]]]]].
  - now left.
  - destruct (Ascii.eqb c ".") eqn:E.
    + right. apply Ascii.eqb_eq in E. subst c. now exists [], s.
    + left. unfold no_period in *. cbn [forallb]. now rewrite E, IH.
  - right. now exists (c :: base), ext.
Qed.

Lemma contains_period (s : text) : contains (str ".") s = negb (no_period s).
Proof.
  unfold no_period. induction s as [|c s IH]; [reflexivity|].
  cbn [contains forallb]. rewrite IH.
  change (starts_with (str ".") (c :: s))
    with (Ascii.eqb "." c && true).
  rewrite andb_true_r, Ascii.eqb_sym.
  now destruct (Ascii.eqb c "."), (forallb _ s).
Qed.

Lemma existsb_text_eqb (x : text) (l : list text) :
  existsb (text_eqb x) l = true <-> In x l.
Proof.
  rewrite existsb_exists. split.
  - intros [y [Hy E]]. apply text_eqb_eq in E. now subst.
  - intros H. exists x. split; [exact H | apply text_eqb_refl].
Qed.

(** X1.  A file name is allowed exactly when it holds a period and the
    text after its last period, in lower case, is one of the
    extensions.  So a name without a period is refused, and so is a
    name that ends with a period unless the empty text is an
    extension. *)
Theorem allowed_file_iff (filename : text) (extensions : list text) :
  allowed_file filename extensions = true
  <-> exists base ext,
        filename = base ++ "."%char :: ext
        /\ no_period ext = true
        /\ In (lower ext) extensions.
Proof.
  unfold allowed_file. rewrite contains_period.
  destruct (last_period filename) as [Hno|[base [ext [-> Hext]]]].
  - rewrite Hno. cbn [negb andb]. split; [discriminate|].
    intros [base [ext [-> _]]]. unfold no_period in Hno.
    rewrite forallb_app in Hno. cbn [forallb] in Hno.
    rewrite Ascii.eqb_refl in Hno. cbn in Hno.
    rewrite andb_false_r in Hno. discriminate.
  - assert (Hp : no_period (base ++ "."%char :: ext) = false).
    { unfold no_period. rewrite forallb_app. cbn [forallb].
      rewrite Ascii.eqb_refl. cbn. apply andb_false_r. }
    rewrite Hp, (rsplit_dot_last base ext Hext). cbn [negb andb nth_error].
    rewrite existsb_text_eqb. split.
    + intros H. now exists base, ext.
    + intros [base' [ext' [Hs [Hext' Hin]]]].
      assert (Hsame : rsplit_dot (base ++ "."%char :: ext) = [base'; ext'])
        by (rewrite Hs; now apply rsplit_dot_last).
      rewrite (rsplit_dot_last base ext Hext) in Hsame.
      injection Hsame as _ ->. exact Hin.
Qed.

Lemma period_lower (c : ascii) :
  Ascii.eqb (lower_char c) "." = Ascii.eqb c ".".
Proof. destruct c as [[] [] [] [] [] [] [] []]; vm_compute; reflexivity. Qed.

Lemma no_period_lower (s : text) : no_period (lower s) = no_period s.
Proof.
  unfold no_period, lower. induction s as [|c s IH]; cbn [map forallb];
    [reflexivity|]. now rewrite period_lower, IH.
Qed.

Lemma lower_idem (s : text) : lower (lower s) = lower s.
Proof.
  unfold lower. rewrite map_map. apply map_ext. apply lower_char_idem.
Qed.

(** X2.  [allowed_file] does not look at the case of the file name. *)
Theorem allowed_file_ignores_case (filename : text) (extensions : list text) :
  allowed_file (lower filename) extensions = allowed_file filename extensions.
Proof.
  unfold allowed_file. rewrite !contains_period, no_period_lower.
  destruct (last_period filename) as [Hno|[base [ext [-> Hext]]]].
  - now rewrite Hno.
  - assert (Hl : lower (base ++ "."%char :: ext)
                 = lower base ++ "."%char :: lower ext).
    { unfold lower. now rewrite map_app. }
    rewrite Hl, rsplit_dot_last by now rewrite no_period_lower.
    rewrite (rsplit_dot_last base ext Hext). cbn [nth_error].
    now rewrite lower_idem.
Qed.

(* ================================================================== *)
(** ** The form of a normalized name *)
(* ================================================================== *)

(** A prefix of a tidy text does not start with white space. *)
Lemma strip_prefix (pre rest : text) :
  tidy (pre ++ rest) -> strip pre = rstrip pre.
Proof.
  intros [Hh _]. unfold strip. destruct pre as [|c pre]; [reflexivity|].
  now rewrite lstrip_fixed.
Qed.

(** What [normalize] makes of the text [t] that line 220 gives: [t]
    itself, or [t] without a final qualifier and the white space before
    it. *)
Lemma normalize_cases (x : text) :
  normalize x = remove_special x
  \/ exists gap q,
      blank gap = true /\ In q PLAN_QUALIFIERS
      /\ remove_special x = normalize x ++ gap ++ q.
Proof.
  unfold normalize. pose proof (remove_special_tidy x) as Ht.
  destruct (strip_plan_suffix_cases (remove_special x) Ht)
    as [[_ Hy]|[pre [ws [q [Hs [Hws [Hq Hy]]]]]]]; [now left|].
  right. rewrite Hy. rewrite Hs in Ht.
  rewrite (strip_prefix pre (ws ++ q) Ht).
  destruct (rstrip_spec pre) as [ws0 [Hpre [Hws0 _]]].
  exists (ws0 ++ ws), q. repeat split.
  - unfold blank. now rewrite forallb_app, Hws0, Hws.
  - exact Hq.
  - rewrite Hs. rewrite Hpre at 1. now rewrite <- !app_assoc.
Qed.

Lemma normalize_tidy_plain (x : text) : normal_form (normalize x).
Proof.
  split.
  - unfold normalize. apply strip_tidy.
  - pose proof (remove_special_plain x) as Hp.
    destruct (normalize_cases x) as [->|[gap [q [_ [_ Hs]]]]]; [exact Hp|].
    rewrite Hs in Hp. apply Forall_app in Hp. tauto.
Qed.

(** X3.  For every text whose characters have code points below 256,
    [normalize] gives a text without white space at either end, made of
    lower-case word characters, white space and periods only. *)
Theorem normalize_normal_form (x : text) : normal_form (normalize x).
Proof. apply normalize_tidy_plain. Qed.

(** X5.  [normalize] removes one plan qualifier at most: its result is
    the text of line 220, or that text without one final qualifier and
    the white space before it. *)
Theorem normalize_cuts_one_qualifier (x : text) :
  normalize x = remove_special x
  \/ exists gap q,
      blank gap = true /\ In q PLAN_QUALIFIERS
      /\ remove_special x = normalize x ++ gap ++ q.
Proof. apply normalize_cases. Qed.

(** X6.  A text in normal form that does not end with a plan qualifier is
    left as it is: the white space inside it is kept, not collapsed. *)
Theorem normalize_fixed (t : text) :
  normal_form t -> qualifier_at_end t = false -> normalize t = t.
Proof.
  intros [Ht Hp] Hq. unfold normalize.
  rewrite (remove_special_fixed t Hp Ht).
  destruct (strip_plan_suffix_cases t Ht)
    as [[_ Hy]|[pre [ws [q [Hs [_ [Hin _]]]]]]]; [exact Hy|].
  exfalso. assert (H : qualifier_at_end t = true).
  { unfold qualifier_at_end. apply existsb_exists. exists q.
    split; [exact Hin|]. rewrite Hs, app_assoc. apply ends_with_app. }
  rewrite H in Hq. discriminate.
Qed.

Lemma normalize_fixed_witness :
  normal_form (str "abc  fund") /\ qualifier_at_end (str "abc  fund") = false
  /\ normalize (str "abc  fund") = str "abc  fund".
Proof.
  assert (H1 : normal_form (str "abc  fund")).
  { split; [split; vm_compute; reflexivity|].
    repeat constructor. }
  assert (H2 : qualifier_at_end (str "abc  fund") = false)
    by (vm_compute; reflexivity).
  exact (conj H1 (conj H2 (normalize_fixed (str "abc  fund") H1 H2))).
Defined.

Lemma special_lower_eq (c : ascii) : special (lower_char c) = special c.
Proof. destruct c as [[] [] [] [] [] [] [] []]; vm_compute; reflexivity. Qed.

Lemma lstrip_lower (s : text) : lstrip (lower s) = lower (lstrip s).
Proof.
  unfold lower. induction s as [|c s IH]; cbn [map lstrip]; [reflexivity|].
  rewrite is_space_lower. now destruct (is_space c).
Qed.

Lemma rstrip_lower (s : text) : rstrip (lower s) = lower (rstrip s).
Proof.
  unfold rstrip. unfold lower at 1. rewrite <- map_rev.
  fold (lower (rev s)). rewrite lstrip_lower. unfold lower.
  now rewrite map_rev.
Qed.

Lemma strip_lower (s : text) : strip (lower s) = lower (strip s).
Proof. unfold strip. now rewrite lstrip_lower, rstrip_lower. Qed.

Lemma remove_special_lower (x : text) :
  remove_special (lower x) = remove_special x.
Proof.
  unfold remove_special. rewrite !sub_empty_class.
  assert (H : filter (fun c => negb (special c)) (lower x)
              = lower (filter (fun c => negb (special c)) x)).
  { unfold lower. induction x as [|c x IH]; cbn [map filter]; [reflexivity|].
    rewrite special_lower_eq. destruct (special c); cbn [negb map];
      now rewrite IH. }
  now rewrite H, strip_lower, lower_idem.
Qed.

(** X4.  On a text whose characters have code points below 256,
    [normalize] does not look at the case of the letters: it gives the
    same for [x.lower()] as for [x]. *)
Theorem normalize_ignores_case (x : text) :
  normalize (lower x) = normalize x.
Proof. unfold normalize. now rewrite remove_special_lower. Qed.

(* ================================================================== *)
(** ** Dictionaries with text keys *)
(* ================================================================== *)

Section TextDict.
Variable V : Type.

Lemma get_set_same (d : Dict.dict text V) (k : text) (v : V) :
  Dict.get text_eqb (Dict.set text_eqb d k v) k = Some v.
Proof.
  induction d as [|[k' v'] d IH]; cbn [Dict.set Dict.get].
  - now rewrite text_eqb_refl.
  - destruct (text_eqb k k') eqn:E; cbn [Dict.get]; rewrite E;
      [reflexivity | exact IH].
Qed.

Lemma get_set_other (d : Dict.dict text V) (k other : text) (v : V) :
  other <> k ->
  Dict.get text_eqb (Dict.set text_eqb d k v) other = Dict.get text_eqb d other.
Proof.
  intros Hne. induction d as [|[k' v'] d IH]; cbn [Dict.set Dict.get].
  - now rewrite (text_eqb_neq other k Hne).
  - destruct (text_eqb k k') eqn:E; cbn [Dict.get].
    + apply text_eqb_eq in E. subst k'.
      now rewrite (text_eqb_neq other k Hne).
    + destruct (text_eqb other k'); [reflexivity | exact IH].
Qed.

Lemma get_In (d : Dict.dict text V) (k : text) (v : V) :
  Dict.get text_eqb d k = Some v -> In (k, v) d.
Proof.
  induction d as [|[k' v'] d IH]; cbn [Dict.get]; [discriminate|].
  destruct (text_eqb k k') eqn:E.
  - intros [= <-]. apply text_eqb_eq in E. subst. now left.
  - intros H. right. now apply IH.
Qed.

Lemma keys_get (d : Dict.dict text V) (k : text) :
  In k (Dict.keys d) <-> exists v, Dict.get text_eqb d k = Some v.
Proof.
  unfold Dict.keys. induction d as [|[k' v'] d IH]; cbn [map Dict.get fst].
  - split; [intros [] | intros [v H]; discriminate].
  - destruct (text_eqb k k') eqn:E.
    + apply text_eqb_eq in E. subst. split; [now exists v' | now left].
    + rewrite <- IH. split; [intros [->|H] | now right].
      * now rewrite text_eqb_refl in E.
      * exact H.
Qed.

Lemma set_keys (d : Dict.dict text V) (k : text) (v : V) :
  (In k (Dict.keys d) /\ Dict.keys (Dict.set text_eqb d k v) = Dict.keys d)
  \/ (~ In k (Dict.keys d)
      /\ Dict.keys (Dict.set text_eqb d k v) = Dict.keys d ++ [k]).
Proof.
  unfold Dict.keys. induction d as [|[k' v'] d IH]; cbn [Dict.set map fst].
  - right. split; [intros [] | reflexivity].
  - destruct (text_eqb k k') eqn:E.
    + apply text_eqb_eq in E. subst. left. split; [now left | reflexivity].
    + cbn [map fst app].
      destruct IH as [[Hin Hk]|[Hnin Hk]]; rewrite Hk.
      * left. split; [now right | reflexivity].
      * right. split; [|reflexivity]. intros [->|H]; [|now apply Hnin].
        now rewrite text_eqb_refl in E.
Qed.

Lemma set_Forall (Q : text * V -> Prop) (d : Dict.dict text V)
      (k : text) (v : V) :
  Forall Q d -> Q (k, v) -> Forall Q (Dict.set text_eqb d k v).
Proof.
  intros Hd Hq. induction Hd as [|[k' v'] d H1 H2 IH]; cbn [Dict.set].
  - now constructor.
  - destruct (text_eqb k k') eqn:E; constructor; try assumption.
    apply text_eqb_eq in E. now subst.
Qed.

Lemma set_distinct (d : Dict.dict text V) (k : text) (v : V) :
  NoDup (Dict.keys d) -> NoDup (Dict.keys (Dict.set text_eqb d k v)).
Proof.
  intros H. destruct (set_keys d k v) as [[_ ->]|[Hnin ->]]; [exact H|].
  apply NoDup_app; [exact H | repeat constructor; intros [] |].
  intros x Hx [<-|[]]. now apply Hnin.
Qed.
End TextDict.

(* ================================================================== *)
(** ** What an attempt keeps true of the registry *)
(* ================================================================== *)

Lemma is_empty_false (A : Type) (l : list A) : is_empty l = false -> l <> [].
Proof. destruct l; [discriminate | discriminate]. Qed.

Section RegistryInvariant.
Variable I : registry -> Prop.

(** Storing a record under a name that [normalize] gave and that is not
    empty, when the record has a rate that counts, keeps [I]. *)
Hypothesis I_store :
  forall sm name rec,
    I sm -> name <> [] -> (exists x, name = normalize x) ->
    any_rate rec = true -> I (reg_set sm name rec).

Lemma table_row_inv (cm : col_mapping) (idx : nat) (sm : registry) (r : row) :
  I sm -> I (table_row cm idx sm r).
Proof.
  intros Hsm. unfold table_row.
  destruct (is_empty r || (List.length r <=? idx)); [exact Hsm|].
  destruct (is_empty (normalize _)) eqn:En; [exact Hsm|].
  cbn [orb]. destruct (contains_any _ _); [exact Hsm|].
  destruct (any_rate _) eqn:Ea; [|exact Hsm].
  apply I_store; [exact Hsm | now apply is_empty_false | | exact Ea].
  eexists. reflexivity.
Qed.

Lemma process_table_inv (st : registry * bool) (t : table) :
  I (fst st) -> I (fst (process_table st t)).
Proof.
  intros Hst. unfold process_table.
  destruct t as [|header_row [|r data]]; try exact Hst.
  destruct (Dict.get _ _ _); cbn [fst]; [|exact Hst].
  apply fold_left_keeps; [|exact Hst].
  intros a b. apply table_row_inv.
Qed.

Lemma text_line_inv (lines : list text) (sm : registry) :
  I sm -> I (text_line lines sm).
Proof.
  intros Hsm. unfold text_line. destruct lines as [|raw rest]; [exact Hsm|].
  destruct (is_empty _ || contains_any _ _); [exact Hsm|].
  destruct (negb (is_empty (findall _ _))); [|exact Hsm].
  destruct (is_empty (normalize (strip (sub_empty _ _)))) eqn:En;
    [exact Hsm|].
  cbn [negb andb]. destruct (negb (existsb _ _)); [|exact Hsm].
  destruct (any_rate _) eqn:Ea; [|exact Hsm].
  apply I_store; [exact Hsm | now apply is_empty_false | | exact Ea].
  eexists. reflexivity.
Qed.

Lemma text_lines_inv (lines : list text) (sm : registry) :
  I sm -> I (text_lines lines sm).
Proof.
  revert sm. induction lines as [|l rest IH]; intros sm Hsm;
    cbn [text_lines].
  - exact Hsm.
  - apply IH, text_line_inv, Hsm.
Qed.

Lemma process_page_inv (st : attempt_state) (pg : page) :
  I (scheme_map st) -> I (scheme_map (state_of (process_page st pg))).
Proof.
  intros Hst. unfold process_page.
  destruct (extract_tables pg) as [tables|]; [|exact Hst].
  assert (H : I (fst (fold_left process_table tables
                                (scheme_map st, tables_found st)))).
  { apply (fold_left_keeps _ _ (fun s => I (fst s))); [|exact Hst].
    intros a b. apply process_table_inv. }
  destruct (fold_left _ _ _) as [sm found]. cbn [fst] in H.
  destruct (negb found || is_empty sm); [|exact H].
  destruct (extract_text pg) as [t|]; cbn [state_of scheme_map]; [|exact H].
  destruct t as [[|c s]|]; cbn [text_pass]; try exact H.
  apply text_lines_inv, H.
Qed.

Lemma process_pages_inv (pages : list page) (st : attempt_state) :
  I (scheme_map st) -> I (scheme_map (state_of (process_pages st pages))).
Proof.
  revert st. induction pages as [|pg rest IH]; intros st Hst;
    cbn [process_pages].
  - exact Hst.
  - pose proof (process_page_inv st pg Hst) as H.
    destruct (process_page st pg) as [st'|st']; cbn [state_of] in *;
      [|exact H].
    apply IH, H.
Qed.

Lemma attempt_inv (pdf_open : text -> option text -> call document)
      (path password : text) (sm : registry) :
  I sm -> I (scheme_map (state_of (attempt pdf_open path password sm))).
Proof.
  intros Hsm. unfold attempt. destruct (pdf_open _ _); [|exact Hsm].
  now apply process_pages_inv.
Qed.

Lemma try_passwords_inv (pdf_open : text -> option text -> call document)
      (path : text) (passwords : list text) (sm : registry) :
  I [] -> (forall sm', I sm' -> I (apply_validations sm')) ->
  I sm -> I (try_passwords pdf_open path passwords sm).
Proof.
  intros Hnil Hval. revert sm.
  induction passwords as [|pw rest IH]; intros sm Hsm; cbn [try_passwords].
  - exact Hnil.
  - pose proof (attempt_inv pdf_open path pw sm Hsm) as H.
    destruct (attempt pdf_open path pw sm) as [st|st]; cbn [state_of] in H.
    + destruct (negb (is_empty (scheme_map st))); [now apply Hval|].
      now apply IH.
    + now apply IH.
Qed.
End RegistryInvariant.

(* ================================================================== *)
(** ** The overrides *)
(* ================================================================== *)

Lemma validate_scheme_keys (sm : registry) (e : text * list (tier * rate)) :
  Dict.keys (validate_scheme sm e) = Dict.keys sm.
Proof.
  destruct e as [scheme expected]. unfold validate_scheme, reg_get, reg_set.
  destruct (Dict.get text_eqb sm scheme) as [r|] eqn:E; [|reflexivity].
  destruct (set_keys rates sm scheme (fold_left validate_rate expected r))
    as [[_ H]|[Hnin _]]; [exact H|].
  exfalso. apply Hnin. apply keys_get. now exists r.
Qed.

Lemma validations_keys (l : list (text * list (tier * rate))) (sm : registry) :
  Dict.keys (fold_left validate_scheme l sm) = Dict.keys sm.
Proof.
  revert sm. induction l as [|e l IH]; intros sm; cbn [fold_left];
    [reflexivity|]. now rewrite IH, validate_scheme_keys.
Qed.

Lemma validate_scheme_other (sm : registry) (e : text * list (tier * rate))
      (k : text) :
  k <> fst e -> reg_get (validate_scheme sm e) k = reg_get sm k.
Proof.
  destruct e as [scheme expected]. cbn [fst]. intros Hne.
  unfold validate_scheme. destruct (reg_get sm scheme); [|reflexivity].
  now apply get_set_other.
Qed.

Lemma validate_scheme_same (sm : registry) (scheme : text)
      (expected : list (tier * rate)) :
  reg_get (validate_scheme sm (scheme, expected)) scheme
  = option_map (fold_left validate_rate expected) (reg_get sm scheme).
Proof.
  unfold validate_scheme. destruct (reg_get sm scheme) as [r|] eqn:E.
  - cbn [option_map]. apply get_set_same.
  - now rewrite E.
Qed.

Lemma validations_other (l : list (text * list (tier * rate)))
      (sm : registry) (k : text) :
  ~ In k (map fst l) ->
  reg_get (fold_left validate_scheme l sm) k = reg_get sm k.
Proof.
  revert sm. induction l as [|e l IH]; intros sm Hk; cbn [fold_left];
    [reflexivity|].
  cbn [map] in Hk. rewrite IH by (intros H; apply Hk; now right).
  apply validate_scheme_other. intros ->. apply Hk. now left.
Qed.

Lemma validate_rate_sets (r : rates) (bt : tier) (v : rate) :
  rget (validate_rate r (bt, v)) bt = Some v.
Proof.
  unfold validate_rate. destruct (rget r bt) as [c|] eqn:E.
  - destruct (c =? v)%N eqn:Ev; [|apply rget_rset_same].
    apply N.eqb_eq in Ev. now subst.
  - apply rget_rset_same.
Qed.

Lemma validate_rate_other (r : rates) (e : tier * rate) (t : tier) :
  t <> fst e -> rget (validate_rate r e) t = rget r t.
Proof.
  destruct e as [bt v]. cbn [fst]. intros Hne. unfold validate_rate.
  destruct (rget r bt) as [c|].
  - destruct (c =? v)%N; [reflexivity|].
    apply rget_rset_other. congruence.
  - apply rget_rset_other. congruence.
Qed.

Lemma validate_rates_other (expected : list (tier * rate)) (r : rates)
      (t : tier) :
  ~ In t (map fst expected) ->
  rget (fold_left validate_rate expected r) t = rget r t.
Proof.
  revert r. induction expected as [|e l IH]; intros r Ht; cbn [fold_left];
    [reflexivity|].
  cbn [map] in Ht. rewrite IH by (intros H; apply Ht; now right).
  apply validate_rate_other. intros ->. apply Ht. now left.
Qed.

Lemma validate_rates_set (expected : list (tier * rate)) (r : rates)
      (bt : tier) (v : rate) :
  NoDup (map fst expected) -> In (bt, v) expected ->
  rget (fold_left validate_rate expected r) bt = Some v.
Proof.
  revert r. induction expected as [|e l IH]; intros r Hnd Hin;
    [destruct Hin|].
  cbn [map] in Hnd. inversion Hnd as [|? ? Hnotin Hnd']; subst.
  cbn [fold_left]. destruct Hin as [->|Hin].
  - cbn [fst] in Hnotin. rewrite validate_rates_other by exact Hnotin.
    apply validate_rate_sets.
  - now apply IH.
Qed.

(** Whatever table of overrides is applied, if no scheme and no tier of
    a scheme is listed twice, a listed scheme that is in the registry
    ends with the listed rates. *)
Lemma validations_win (l : list (text * list (tier * rate))) :
  NoDup (map fst l) ->
  Forall (fun e => NoDup (map fst (snd e))) l ->
  forall sm scheme expected bt v r,
    In (scheme, expected) l -> In (bt, v) expected ->
    reg_get (fold_left validate_scheme l sm) scheme = Some r ->
    rget r bt = Some v.
Proof.
  induction l as [|e l IH]; intros Hnd Hall sm scheme expected bt v r Hin Hbt;
    [destruct Hin|].
  cbn [map] in Hnd. inversion Hnd as [|? ? Hnotin Hnd']; subst.
  inversion Hall as [|? ? He Hall']; subst.
  cbn [fold_left]. destruct Hin as [->|Hin].
  - cbn [fst snd] in *. rewrite validations_other by exact Hnotin.
    rewrite validate_scheme_same.
    destruct (reg_get sm scheme) as [r0|]; [|discriminate].
    cbn [option_map]. intros [= <-]. now apply validate_rates_set.
  - now apply (IH Hnd' Hall' _ scheme expected).
Qed.

Lemma validations_distinct :
  NoDup (map fst SCHEME_VALIDATIONS)
  /\ Forall (fun e => NoDup (map fst (snd e))) SCHEME_VALIDATIONS.
Proof.
  split.
  - repeat constructor; cbn; intuition discriminate.
  - repeat constructor; cbn; intuition discriminate.
Qed.

(** The registry returned is empty, or is a registry with the overrides
    applied. *)
Lemma try_passwords_result
      (pdf_open : text -> option text -> call document)
      (path : text) (passwords : list text) (sm : registry) :
  try_passwords pdf_open path passwords sm = []
  \/ exists sm', sm' <> []
                 /\ try_passwords pdf_open path passwords sm
                    = apply_validations sm'.
Proof.
  revert sm. induction passwords as [|pw rest IH]; intros sm;
    cbn [try_passwords]; [now left|].
  destruct (attempt pdf_open path pw sm) as [st|st]; [|apply IH].
  destruct (scheme_map st) as [|kv sm'] eqn:E; cbn [is_empty negb];
    [apply IH|].
  right. exists (kv :: sm'). split; [discriminate | reflexivity].
Qed.

(** X9.  The overrides win: in the registry that [extract_scheme_data]
    returns, a scheme of [SCHEME_VALIDATIONS] has, for each tier listed
    for it, the listed rate, whatever was read from the document. *)
Theorem overrides_win
        (pdf_open : text -> option text -> call document)
        (pdf_path : text) (passwords : list text)
        (scheme : text) (expected : list (tier * rate))
        (bt : tier) (v : rate) (r : rates) :
  In (scheme, expected) SCHEME_VALIDATIONS -> In (bt, v) expected ->
  reg_get (extract_scheme_data pdf_open pdf_path passwords) scheme = Some r ->
  rget r bt = Some v.
Proof.
  intros Hin Hbt. unfold extract_scheme_data.
  destruct (try_passwords_result pdf_open pdf_path passwords [])
    as [->|[sm [_ ->]]]; [discriminate|].
  destruct validations_distinct as [H1 H2].
  now apply (validations_win SCHEME_VALIDATIONS H1 H2 sm scheme expected).
Qed.

(** X10.  The overrides change nothing else: they keep the keys of the
    registry and their order, the record of every scheme that is not
    listed, and, in the record of a listed scheme, every tier that is not
    listed for it. *)
Theorem overrides_change_nothing_else (sm : registry) :
  Dict.keys (apply_validations sm) = Dict.keys sm
  /\ (forall k, ~ In k (map fst SCHEME_VALIDATIONS) ->
                reg_get (apply_validations sm) k = reg_get sm k)
  /\ (forall scheme expected t r,
         In (scheme, expected) SCHEME_VALIDATIONS ->
         ~ In t (map fst expected) ->
         reg_get sm scheme = Some r ->
         exists r', reg_get (apply_validations sm) scheme = Some r'
                    /\ rget r' t = rget r t).
Proof.
  unfold apply_validations. split; [apply validations_keys|].
  split; [intros k; apply validations_other|].
  intros scheme expected t r Hin Ht Hr.
  unfold SCHEME_VALIDATIONS in *. cbn [fold_left].
  destruct Hin as [[= <- <-]|[[= <- <-]|[[= <- <-]|[]]]].
  - rewrite !validate_scheme_other by (cbn [fst]; discriminate).
    rewrite validate_scheme_same, Hr. cbn [option_map].
    eexists. split; [reflexivity|]. now apply validate_rates_other.
  - rewrite validate_scheme_other by (cbn [fst]; discriminate).
    rewrite validate_scheme_same.
    rewrite validate_scheme_other by (cbn [fst]; discriminate).
    rewrite Hr. cbn [option_map].
    eexists. split; [reflexivity|]. now apply validate_rates_other.
  - rewrite validate_scheme_same.
    rewrite !validate_scheme_other by (cbn [fst]; discriminate).
    rewrite Hr. cbn [option_map].
    eexists. split; [reflexivity|]. now apply validate_rates_other.
Qed.

Lemma overrides_win_witness :
  let pdf_open := fun (_ : text) (_ : option text) =>
    Returns [table_page [cells ["Scheme Name"; "4th Yr Trail"]%string;
                         cells ["HSBC Financial Services Fund"; "0.50%"]%string]] in
  let scheme := str "hsbc financial services fund" in
  let r := Rates None None None (Some 135%N) (Some 50%N) in
  In (scheme, [(FOURTH, 135%N)]) SCHEME_VALIDATIONS
  /\ In (FOURTH, 135%N) [(FOURTH, 135%N)]
  /\ reg_get (extract_scheme_data pdf_open (str "rates.pdf") PDF_PASSWORDS)
             scheme = Some r
  /\ rget r FOURTH = Some 135%N.
Proof.
  intros pdf_open scheme r.
  assert (H1 : In (scheme, [(FOURTH, 135%N)]) SCHEME_VALIDATIONS) by now left.
  assert (H2 : In (FOURTH, 135%N) [(FOURTH, 135%N)]) by now left.
  assert (H3 : reg_get (extract_scheme_data pdf_open (str "rates.pdf")
                                            PDF_PASSWORDS) scheme = Some r)
    by (vm_compute; reflexivity).
  exact (conj H1 (conj H2 (conj H3
           (overrides_win pdf_open (str "rates.pdf") PDF_PASSWORDS scheme
                          [(FOURTH, 135%N)] FOURTH 135%N r H1 H2 H3)))).
Defined.

Lemma overrides_change_nothing_else_witness :
  let sm := [ (str "abc fund", Rates (Some 50%N) None None None None);
              (str "hsbc midcap fund",
               Rates (Some 90%N) None (Some 20%N) None None) ] in
  Dict.keys (apply_validations sm) = Dict.keys sm
  /\ reg_get (apply_validations sm) (str "abc fund")
     = reg_get sm (str "abc fund")
  /\ exists r', reg_get (apply_validations sm) (str "hsbc midcap fund")
                = Some r'
                /\ rget r' FIRST = Some 90%N.
Proof.
  intros sm.
  destruct (overrides_change_nothing_else sm) as [Hkeys [Hother Htier]].
  assert (N1 : ~ In (str "abc fund") (map fst SCHEME_VALIDATIONS))
    by (cbn; intuition discriminate).
  assert (N2 : In (str "hsbc midcap fund",
                   [(THIRD, 115%N); (FOURTH, 105%N); (LONGTERM, 105%N)])
                  SCHEME_VALIDATIONS) by (right; right; now left).
  assert (N3 : ~ In FIRST (map fst [(THIRD, 115%N); (FOURTH, 105%N);
                                    (LONGTERM, 105%N)]))
    by (cbn; intuition discriminate).
  assert (N4 : reg_get sm (str "hsbc midcap fund")
               = Some (Rates (Some 90%N) None (Some 20%N) None None))
    by (vm_compute; reflexivity).
  exact (conj Hkeys (conj (Hother (str "abc fund") N1)
                          (Htier _ _ FIRST _ N2 N3 N4))).
Defined.

(* ================================================================== *)
(** ** What every returned registry satisfies *)
(* ================================================================== *)

Lemma any_rate_has_rate (r : rates) : any_rate r = true -> has_rate r.
Proof.
  unfold any_rate. rewrite existsb_truthy_filter. unfold rvalues.
  rewrite existsb_exists. intros [o [Hin Ho]].
  apply in_map_iff in Hin. destruct Hin as [t [<- _]].
  destruct (rget r t) as [v|] eqn:E; [|discriminate].
  exists t, v. split; [exact E|]. cbn [truthy] in Ho.
  apply negb_true_iff in Ho. now apply N.eqb_neq.
Qed.

Lemma has_rate_rset (r : rates) (bt : tier) (v : rate) :
  has_rate r -> v <> 0%N -> has_rate (rset r bt (Some v)).
Proof.
  intros [t [w [Ht Hw]]] Hv. destruct (tier_eq_dec bt t) as [->|Hne].
  - exists t, v. split; [apply rget_rset_same | exact Hv].
  - exists t, w. split; [|exact Hw]. now rewrite rget_rset_other.
Qed.

Lemma validations_nonzero :
  Forall (fun e => Forall (fun tv => snd tv <> 0%N) (snd e)) SCHEME_VALIDATIONS.
Proof. repeat constructor; cbn; discriminate. Qed.

Lemma validate_rates_has_rate (expected : list (tier * rate)) (r : rates) :
  Forall (fun tv => snd tv <> 0%N) expected ->
  has_rate r -> has_rate (fold_left validate_rate expected r).
Proof.
  intros He. revert r. induction He as [|[bt v] l Hv _ IH]; intros r Hr;
    cbn [fold_left]; [exact Hr|].
  apply IH. unfold validate_rate. cbn [snd] in Hv.
  destruct (rget r bt) as [c|].
  - destruct (c =? v)%N; [exact Hr | now apply has_rate_rset].
  - now apply has_rate_rset.
Qed.

(** The overrides keep a property of the records that they keep in the
    record they rewrite. *)
Lemma validations_every (P : text -> rates -> Prop)
      (l : list (text * list (tier * rate))) :
  Forall (fun e => forall k r, P k r ->
                               P k (fold_left validate_rate (snd e) r)) l ->
  forall sm, every_record P sm ->
             every_record P (fold_left validate_scheme l sm).
Proof.
  intros Hl. induction Hl as [|[scheme expected] l He _ IH]; intros sm Hsm;
    cbn [fold_left]; [exact Hsm|].
  apply IH. unfold validate_scheme.
  destruct (reg_get sm scheme) as [r|] eqn:E; [|exact Hsm].
  apply set_Forall; [exact Hsm|]. cbn [fst snd] in *. apply He.
  apply get_In in E. unfold every_record in Hsm.
  rewrite Forall_forall in Hsm. exact (Hsm _ E).
Qed.

(** X7.  No record without a rate is ever returned: every record of the
    registry that [extract_scheme_data] returns has a tier whose rate is
    set and is not zero. *)
Theorem returned_records_have_a_rate
        (pdf_open : text -> option text -> call document)
        (pdf_path : text) (passwords : list text) :
  every_record (fun _ r => has_rate r)
               (extract_scheme_data pdf_open pdf_path passwords).
Proof.
  unfold extract_scheme_data. apply try_passwords_inv.
  - intros sm name rec Hsm _ _ Ha. apply set_Forall; [exact Hsm|].
    now apply any_rate_has_rate.
  - constructor.
  - intros sm. apply validations_every.
    pose proof validations_nonzero as H.
    apply Forall_impl with (2 := H).
    intros e He k r. now apply validate_rates_has_rate.
  - constructor.
Qed.

(** X8.  When the cells and the page texts of the document hold
    characters with code points below 256 only, the keys of the registry
    that [extract_scheme_data] returns are distinct, not empty, and in
    the form [normalize] gives such texts: no white space at either end,
    lower-case word characters, white space and periods only. *)
Theorem returned_keys_are_normalized
        (pdf_open : text -> option text -> call document)
        (pdf_path : text) (passwords : list text) :
  let registry := extract_scheme_data pdf_open pdf_path passwords in
  distinct_keys registry
  /\ every_record (fun k _ => k <> [] /\ normal_form k) registry.
Proof.
  unfold extract_scheme_data.
  apply (try_passwords_inv
           (fun sm => distinct_keys sm
                      /\ every_record (fun k _ => k <> [] /\ normal_form k) sm)).
  - intros sm name rec [Hd He] Hne [x ->] _. split.
    + now apply set_distinct.
    + apply set_Forall; [exact He|]. cbn [fst].
      split; [exact Hne | apply normalize_tidy_plain].
  - split; constructor.
  - intros sm [Hd He]. split.
    + unfold distinct_keys, apply_validations. now rewrite validations_keys.
    + apply validations_every; [|exact He].
      apply Forall_forall. intros e _ k r H. exact H.
  - split; constructor.
Qed.

(** X20.  An attempt never removes a record: a key that is in the
    registry when the attempt starts is in it when the attempt ends or
    stops on an exception. *)
Theorem attempt_keeps_keys
        (pdf_open : text -> option text -> call document)
        (pdf_path password : text) (sm : registry) (k : text) :
  In k (Dict.keys sm) ->
  In k (Dict.keys (scheme_map (state_of (attempt pdf_open pdf_path password sm)))).
Proof.
  apply (attempt_inv (fun sm => In k (Dict.keys sm))).
  intros sm' name rec Hin _ _ _. unfold reg_set.
  destruct (set_keys rates sm' name rec) as [[_ ->]|[_ ->]]; [exact Hin|].
  apply in_or_app. now left.
Qed.

Lemma attempt_keeps_keys_witness :
  In (str "abc fund") (Dict.keys registry_A)
  /\ In (str "abc fund")
        (Dict.keys (scheme_map (state_of
           (attempt open_two (str "rates.pdf") (str "second") registry_A)))).
Proof.
  assert (H : In (str "abc fund") (Dict.keys registry_A)) by now left.
  exact (conj H (attempt_keeps_keys open_two (str "rates.pdf") (str "second")
                                    registry_A (str "abc fund") H)).
Defined.

(* ================================================================== *)
(** ** The loop over the passwords *)
(* ================================================================== *)

Lemma try_passwords_all_raise
      (pdf_open : text -> option text -> call document)
      (path : text) (passwords : list text) :
  (forall p sm, In p passwords ->
                exists st, attempt pdf_open path p sm = Raised st) ->
  forall sm, try_passwords pdf_open path passwords sm = [].
Proof.
  induction passwords as [|pw rest IH]; intros H sm; cbn [try_passwords];
    [reflexivity|].
  destruct (H pw sm) as [st ->]; [now left|].
  apply IH. intros p sm' Hp. apply H. now right.
Qed.

(** X11.  When every attempt stops on an exception, because the document
    does not open or because a page cannot be read, the registry
    returned is empty, whatever the attempts had stored; the same holds
    without any password. *)
Theorem no_attempt_succeeds_gives_empty_registry
        (pdf_open : text -> option text -> call document)
        (pdf_path : text) (passwords : list text) :
  (forall p sm, In p passwords ->
                exists st, attempt pdf_open pdf_path p sm = Raised st) ->
  extract_scheme_data pdf_open pdf_path passwords = [].
Proof.
  intros H. unfold extract_scheme_data. now apply try_passwords_all_raise.
Qed.

Lemma no_attempt_succeeds_gives_empty_registry_witness :
  (forall p sm, In p [str "first"] ->
                exists st, attempt open_two (str "rates.pdf") p sm = Raised st)
  /\ extract_scheme_data open_two (str "rates.pdf") [str "first"] = [].
Proof.
  assert (H : forall p sm, In p [str "first"] ->
                exists st, attempt open_two (str "rates.pdf") p sm = Raised st).
  { intros p sm [<-|[]]. unfold attempt.
    change (open_two (str "rates.pdf") (password_or_none (str "first")))
      with (Returns [table_page table_A; broken_page]).
    cbn [process_pages].
    destruct (process_page _ (table_page table_A)) as [st|st];
      [|now exists st].
    exists st. reflexivity. }
  exact (conj H (no_attempt_succeeds_gives_empty_registry
                   open_two (str "rates.pdf") [str "first"] H)).
Defined.

Lemma attempt_same_open
      (open1 open2 : text -> option text -> call document)
      (path p : text) (sm : registry) :
  open2 path (password_or_none p) = open1 path (password_or_none p) ->
  attempt open2 path p sm = attempt open1 path p sm.
Proof. intros H. unfold attempt. now rewrite H. Qed.

(** X12.  The first attempt that ends with records wins, and the
    passwords after it are not tried: if the attempts before it end, or
    stop, with an empty registry, the registry returned is the one of
    that attempt with the overrides applied, whatever passwords follow
    and whatever they would open. *)
Theorem later_passwords_are_not_tried
        (open1 open2 : text -> option text -> call document)
        (pdf_path : text) (before rest1 rest2 : list text) (password : text)
        (st : attempt_state) :
  Forall (fun p => exists st', (attempt open1 pdf_path p [] = Done st'
                                \/ attempt open1 pdf_path p [] = Raised st')
                               /\ scheme_map st' = []) before ->
  attempt open1 pdf_path password [] = Done st ->
  scheme_map st <> [] ->
  (forall p, In p (before ++ [password]) ->
             open2 pdf_path (password_or_none p)
             = open1 pdf_path (password_or_none p)) ->
  extract_scheme_data open1 pdf_path (before ++ password :: rest1)
  = apply_validations (scheme_map st)
  /\ extract_scheme_data open2 pdf_path (before ++ password :: rest2)
     = apply_validations (scheme_map st).
Proof.
  intros Hbefore Hdone Hne Hsame. split.
  - now apply try_passwords_first_success.
  - apply try_passwords_first_success; [| |exact Hne].
    + apply Forall_forall. intros p Hp.
      rewrite Forall_forall in Hbefore.
      destruct (Hbefore p Hp) as [st' H]. exists st'.
      rewrite (attempt_same_open open1 open2); [exact H|].
      apply Hsame. apply in_or_app. now left.
    + rewrite (attempt_same_open open1 open2); [exact Hdone|].
      apply Hsame. apply in_or_app. right. now left.
Qed.

Lemma later_passwords_are_not_tried_witness :
  let open1 := fun (_ : text) (_ : option text) => Returns [table_page table_A] in
  extract_scheme_data open1 (str "rates.pdf") ([] ++ str "ARN100481" :: [])
  = apply_validations registry_A
  /\ extract_scheme_data open_two (str "rates.pdf")
                         ([] ++ str "second" :: [str "first"])
     = apply_validations
         [(str "xyz fund", Rates (Some 30%N) None None None None)].
Proof.
  intros open1. split.
  - refine (proj1 (later_passwords_are_not_tried
                     open1 open1 (str "rates.pdf") [] [] []
                     (str "ARN100481")
                     (AttemptState registry_A true [false]) _ _ _ _)).
    + constructor.
    + vm_compute. reflexivity.
    + discriminate.
    + reflexivity.
  - refine (proj1 (later_passwords_are_not_tried
                     open_two open_two (str "rates.pdf") [] [str "first"] []
                     (str "second")
                     (AttemptState [(str "xyz fund",
                                     Rates (Some 30%N) None None None None)]
                                   true [false]) _ _ _ _)).
    + constructor.
    + vm_compute. reflexivity.
    + discriminate.
    + reflexivity.
Defined.

(* ================================================================== *)
(** ** Resolving a row *)
(* ================================================================== *)

Lemma tier_of_name_name (name : text) (t : tier) :
  tier_of_name name = Some t -> name = tier_name t.
Proof.
  unfold tier_of_name. intros H. apply find_some in H.
  destruct H as [_ H]. apply text_eqb_eq in H. now subst.
Qed.

(** Every tier name is a key of [brokerage_type_map], and stands for
    itself. *)
Lemma tier_names_are_labels (t : tier) :
  Dict.get text_eqb brokerage_type_map (tier_name t)
  = Some (Single (tier_name t)).
Proof. destruct t; vm_compute; reflexivity. Qed.

(** Every value of [brokerage_type_map] passes the two tests of lines
    262-268. *)
Lemma labels_are_known (b : text) (l : label) :
  Dict.get text_eqb brokerage_type_map b = Some l ->
  match l with
  | Listed _ => true
  | Single name => is_some (tier_of_name name)
  end = true
  /\ match l with
     | Listed names => negb (is_empty names)
     | Single name => negb (is_empty name)
     end = true.
Proof.
  intros H. apply get_In in H. unfold brokerage_type_map in H.
  repeat (destruct H as [[= <- <-]|H]; [split; vm_compute; reflexivity|]).
  destruct H.
Qed.

Section Resolver.
Variable value : Type.
Variable value_str : value -> text.
Variable score : text -> text -> nat.

(** [get_brokerage] by cases: the label must be a key of
    [brokerage_type_map] and the name must not be empty; then the name
    is looked up, and only a name that is not a key is given to
    [extractOne]. *)
Lemma get_brokerage_cases (keys : registry) (df : frame value) (i : nat) :
  get_brokerage value_str score keys df i
  = match Dict.get text_eqb brokerage_type_map (row_label value_str df i) with
    | None => None
    | Some l =>
        if is_empty (row_scheme value_str df i) then None
        else
          match reg_get keys (row_scheme value_str df i) with
          | Some r => lookup_rate r l
          | None =>
              match extractOne score (row_scheme value_str df i)
                               (Dict.keys keys) 90 with
              | None => None
              | Some (matched_key, _) =>
                  match reg_get keys matched_key with
                  | Some r => lookup_rate r l
                  | None => None
                  end
              end
          end
    end.
Proof.
  unfold get_brokerage, row_label, row_scheme.
  destruct (Dict.get text_eqb brokerage_type_map _) as [l|] eqn:E.
  - destruct (labels_are_known _ l E) as [-> ->]. cbn [negb orb].
    now rewrite orb_false_r.
  - destruct (tier_of_name _) as [t|] eqn:Et; [|reflexivity].
    apply tier_of_name_name in Et. rewrite Et in E.
    now rewrite tier_names_are_labels in E.
Qed.

Lemma first_rate_stored (r : rates) (names : list text) (v : rate) :
  first_rate r names = Some v -> exists t, rget r t = Some v.
Proof.
  induction names as [|n l IH]; cbn [first_rate]; [discriminate|].
  unfold rates_get at 1. destruct (tier_of_name n) as [t|].
  - destruct (rget r t) as [w|] eqn:E; [|exact IH].
    intros [= <-]. now exists t.
  - exact IH.
Qed.

Lemma lookup_rate_stored (r : rates) (l : label) (v : rate) :
  lookup_rate r l = Some v -> exists t, rget r t = Some v.
Proof.
  destruct l as [name|names]; cbn [lookup_rate];
    [|apply first_rate_stored].
  unfold rates_get. destruct (tier_of_name name) as [t|]; [|discriminate].
  intros H. now exists t.
Qed.

(** What [extractOne] returns, from any best choice so far. *)
Lemma better_fold (query : text) (cutoff : nat) (choices : list text) :
  forall best,
    (forall k s, best = Some (k, s) -> s = score query k /\ cutoff <= s) ->
    match fold_left (better score query cutoff) choices best with
    | None => best = None /\ forall k, In k choices -> score query k < cutoff
    | Some (k, s) =>
        s = score query k /\ cutoff <= s
        /\ (In k choices \/ best = Some (k, s))
        /\ (forall k', In k' choices -> score query k' <= s)
        /\ (forall k0 s0, best = Some (k0, s0) -> s0 <= s)
    end.
Proof.
  induction choices as [|c l IH]; intros best Hbest; cbn [fold_left].
  - destruct best as [[k s]|].
    + destruct (Hbest k s eq_refl) as [H1 H2].
      repeat split; auto.
      * intros k' [].
      * intros k0 s0 [= <- <-]. lia.
    + split; [reflexivity | intros k []].
  - assert (Hnext : forall k s,
               better score query cutoff best c = Some (k, s) ->
               s = score query k /\ cutoff <= s).
    { unfold better. intros k s.
      destruct (score query c <? cutoff) eqn:E; [apply Hbest|].
      apply Nat.ltb_ge in E.
      destruct best as [[k0 s0]|].
      - destruct (s0 <? score query c); [|apply Hbest].
        intros [= <- <-]. now split.
      - intros [= <- <-]. now split. }
    specialize (IH _ Hnext).
    destruct (fold_left _ l _) as [[k s]|].
    + destruct IH as [H1 [H2 [H3 [H4 H5]]]]. split; [exact H1|].
      split; [exact H2|].
      unfold better in H3, H5.
      destruct (score query c <? cutoff) eqn:E.
      * apply Nat.ltb_lt in E. repeat split.
        -- destruct H3 as [H3|H3]; [left; now right | now right].
        -- intros k' [<-|Hk']; [lia | now apply H4].
        -- exact H5.
      * apply Nat.ltb_ge in E. destruct best as [[k0 s0]|].
        -- destruct (s0 <? score query c) eqn:E2.
           ++ apply Nat.ltb_lt in E2.
              pose proof (H5 _ _ eq_refl) as H6. repeat split.
              ** destruct H3 as [H3|[= <- <-]]; left; [now right | now left].
              ** intros k' [<-|Hk']; [exact H6 | now apply H4].
              ** intros k1 s1 [= <- <-]. lia.
           ++ apply Nat.ltb_ge in E2.
              pose proof (H5 _ _ eq_refl) as H6. repeat split.
              ** destruct H3 as [H3|H3]; [left; now right | now right].
              ** intros k' [<-|Hk']; [lia | now apply H4].
              ** exact H5.
        -- pose proof (H5 _ _ eq_refl) as H6. repeat split.
           ++ destruct H3 as [H3|[= <- <-]]; left; [now right | now left].
           ++ intros k' [<-|Hk']; [exact H6 | now apply H4].
           ++ intros k1 s1 [=].
    + destruct IH as [H1 H2]. unfold better in H1.
      destruct (score query c <? cutoff) eqn:E.
      * apply Nat.ltb_lt in E. split; [exact H1|].
        intros k [<-|Hk]; [exact E | now apply H2].
      * destruct best as [[k0 s0]|]; [|discriminate].
        destruct (s0 <? score query c); [discriminate|].
        discriminate.
Qed.

Lemma extractOne_best (query : text) (choices : list text) (cutoff : nat) :
  match extractOne score query choices cutoff with
  | None => forall k, In k choices -> score query k < cutoff
  | Some (k, s) =>
      In k choices /\ s = score query k /\ cutoff <= s
      /\ forall k', In k' choices -> score query k' <= s
  end.
Proof.
  unfold extractOne.
  pose proof (better_fold query cutoff choices None) as H.
  destruct (fold_left _ choices None) as [[k s]|].
  - destruct H as [H1 [H2 [[H3|H3] [H4 _]]]];
      [discriminate| |discriminate]. now repeat split.
  - destruct H as [_ H]; [discriminate|]. exact H.
Qed.
End Resolver.

(** X13.  A name that is a key of the registry is resolved from its own
    record and never by similarity: the rate does not depend on the
    score function, and for a name that is not empty and a label of
    [brokerage_type_map] it is the rate of that record for the label. *)
Theorem exact_name_never_uses_scores
        (value : Type) (value_str : value -> text)
        (score score' : text -> text -> nat)
        (keys : registry) (df : frame value) (i : nat) (r : rates) :
  reg_get keys (row_scheme value_str df i) = Some r ->
  get_brokerage value_str score keys df i
  = get_brokerage value_str score' keys df i
  /\ (forall l,
         row_scheme value_str df i <> [] ->
         Dict.get text_eqb brokerage_type_map (row_label value_str df i)
         = Some l ->
         get_brokerage value_str score keys df i = lookup_rate r l).
Proof.
  intros Hr. rewrite !get_brokerage_cases, Hr.
  split; [reflexivity|].
  intros l Hne Hl. rewrite Hl.
  destruct (row_scheme value_str df i); [contradiction | reflexivity].
Qed.

Lemma exact_name_never_uses_scores_witness :
  reg_get registry_A (row_scheme xl_str sheet 0)
  = Some (Rates (Some 50%N) (Some 30%N) None None None)
  /\ get_brokerage xl_str exact_score registry_A sheet 0
     = get_brokerage xl_str (fun _ _ => 100) registry_A sheet 0
  /\ get_brokerage xl_str exact_score registry_A sheet 0 = Some 50%N.
Proof.
  assert (H : reg_get registry_A (row_scheme xl_str sheet 0)
              = Some (Rates (Some 50%N) (Some 30%N) None None None))
    by (vm_compute; reflexivity).
  destruct (exact_name_never_uses_scores
              xl_value xl_str exact_score (fun _ _ => 100) registry_A sheet 0
              _ H) as [H1 H2].
  refine (conj H (conj H1 _)).
  rewrite (H2 (Single (str "FIRST YEAR TRAIL"))).
  - vm_compute. reflexivity.
  - vm_compute. discriminate.
  - vm_compute. reflexivity.
Defined.

(** X14.  A row whose label, stripped and in upper case, is not a key of
    [brokerage_type_map], or whose normalized name is empty (as when the
    sheet has no "Schemename" column), gets no rate, whatever the
    registry holds. *)
Theorem unknown_label_or_empty_name_gives_no_rate
        (value : Type) (value_str : value -> text)
        (score : text -> text -> nat)
        (keys : registry) (df : frame value) (i : nat) :
  Dict.get text_eqb brokerage_type_map (row_label value_str df i) = None
  \/ row_scheme value_str df i = [] ->
  get_brokerage value_str score keys df i = None.
Proof.
  intros H. rewrite get_brokerage_cases. destruct H as [->| ->];
    [reflexivity|].
  now destruct (Dict.get text_eqb brokerage_type_map _).
Qed.

Lemma unknown_label_or_empty_name_gives_no_rate_witness :
  (Dict.get text_eqb brokerage_type_map
            (row_label xl_str [(str "Schemename", [XText (str "ABC Fund")]);
                               (str "BrokerageName", [XText (str "5th year")])]
                       0) = None
   \/ row_scheme xl_str [(str "Schemename", [XText (str "ABC Fund")]);
                         (str "BrokerageName", [XText (str "5th year")])] 0
      = [])
  /\ get_brokerage xl_str exact_score registry_A
                   [(str "Schemename", [XText (str "ABC Fund")]);
                    (str "BrokerageName", [XText (str "5th year")])] 0
     = None.
Proof.
  assert (H : Dict.get text_eqb brokerage_type_map
                (row_label xl_str
                   [(str "Schemename", [XText (str "ABC Fund")]);
                    (str "BrokerageName", [XText (str "5th year")])] 0)
              = None
              \/ row_scheme xl_str
                   [(str "Schemename", [XText (str "ABC Fund")]);
                    (str "BrokerageName", [XText (str "5th year")])] 0 = [])
    by (left; vm_compute; reflexivity).
  exact (conj H (unknown_label_or_empty_name_gives_no_rate
                   xl_value xl_str exact_score registry_A _ 0 H)).
Defined.

(** X15.  A rate is never made up: when a row gets a rate, that rate is
    stored in the registry, under some key and some tier. *)
Theorem resolved_rate_is_stored
        (value : Type) (value_str : value -> text)
        (score : text -> text -> nat)
        (keys : registry) (df : frame value) (i : nat) (v : rate) :
  get_brokerage value_str score keys df i = Some v ->
  exists k r t, In (k, r) keys /\ rget r t = Some v.
Proof.
  rewrite get_brokerage_cases.
  destruct (Dict.get text_eqb brokerage_type_map _) as [l|]; [|discriminate].
  destruct (is_empty _); [discriminate|].
  destruct (reg_get keys (row_scheme value_str df i)) as [r|] eqn:E.
  - intros H. destruct (lookup_rate_stored r l v H) as [t Ht].
    exists (row_scheme value_str df i), r, t.
    split; [now apply get_In | exact Ht].
  - destruct (extractOne _ _ _ _) as [[k s]|]; [|discriminate].
    destruct (reg_get keys k) as [r|] eqn:Ek; [|discriminate].
    intros H. destruct (lookup_rate_stored r l v H) as [t Ht].
    exists k, r, t. split; [now apply get_In | exact Ht].
Qed.

Lemma resolved_rate_is_stored_witness :
  get_brokerage xl_str exact_score registry_A sheet 0 = Some 50%N
  /\ exists k r t, In (k, r) registry_A /\ rget r t = Some 50%N.
Proof.
  assert (H : get_brokerage xl_str exact_score registry_A sheet 0 = Some 50%N)
    by (vm_compute; reflexivity).
  exact (conj H (resolved_rate_is_stored xl_value xl_str exact_score
                                         registry_A sheet 0 50%N H)).
Defined.

(** X17.  A name that is not a key is resolved by similarity from a best
    key: if some key scores 90 or more, the rate is the one of the
    record of a key that scores 90 or more and that no key outscores. *)
Theorem fuzzy_match_takes_a_best_key
        (value : Type) (value_str : value -> text)
        (score : text -> text -> nat)
        (keys : registry) (df : frame value) (i : nat) (l : label) :
  let scheme := row_scheme value_str df i in
  reg_get keys scheme = None ->
  scheme <> [] ->
  Dict.get text_eqb brokerage_type_map (row_label value_str df i) = Some l ->
  (exists k, In k (Dict.keys keys) /\ 90 <= score scheme k) ->
  exists k r,
    reg_get keys k = Some r
    /\ 90 <= score scheme k
    /\ (forall k', In k' (Dict.keys keys) -> score scheme k' <= score scheme k)
    /\ get_brokerage value_str score keys df i = lookup_rate r l.
Proof.
  intros scheme Hmiss Hne Hl [k0 [Hk0 Hs0]].
  rewrite get_brokerage_cases, Hl. fold scheme. rewrite Hmiss.
  pose proof (extractOne_best score scheme (Dict.keys keys) 90) as H.
  destruct (extractOne score scheme (Dict.keys keys) 90) as [[k s]|].
  - destruct H as [Hin [-> [Hs Hmax]]].
    apply keys_get in Hin. destruct Hin as [r Hr].
    exists k, r. unfold reg_get. rewrite Hr.
    repeat split; try assumption.
    destruct scheme; [contradiction | reflexivity].
  - specialize (H k0 Hk0). lia.
Qed.

Lemma fuzzy_match_takes_a_best_key_witness :
  let df : frame xl_value :=
    [(str "Schemename", [XText (str "ABC Fnd")]);
     (str "BrokerageName", [XText (str "first year trail")])] in
  let close := fun (a b : text) => 95 in
  exists k r,
    reg_get registry_A k = Some r
    /\ 90 <= close (row_scheme xl_str df 0) k
    /\ (forall k', In k' (Dict.keys registry_A) ->
                   close (row_scheme xl_str df 0) k'
                   <= close (row_scheme xl_str df 0) k)
    /\ get_brokerage xl_str close registry_A df 0
       = lookup_rate r (Single (str "FIRST YEAR TRAIL")).
Proof.
  intros df close.
  apply (fuzzy_match_takes_a_best_key xl_value xl_str close registry_A df 0
                                      (Single (str "FIRST YEAR TRAIL"))).
  - vm_compute. reflexivity.
  - vm_compute. discriminate.
  - vm_compute. reflexivity.
  - exists (str "abc fund"). split; [now left | unfold close; lia].
Defined.

(* ================================================================== *)
(** ** The sheet that is written *)
(* ================================================================== *)

Section Sheet.
Variable value : Type.
Variable value_str : value -> text.
Variable format_dates : list value -> list value.
Variable rate_value : option rate -> value.
Variable score : text -> text -> nat.

Lemma convert_dates_keys (df : frame value) :
  Dict.keys (convert_dates format_dates df) = Dict.keys df.
Proof.
  unfold convert_dates. destruct (date_cols df) as [|col l]; [reflexivity|].
  destruct (frame_get df col) as [column|] eqn:E; [|reflexivity].
  unfold frame_set.
  destruct (set_keys (list value) df col (format_dates column))
    as [[_ H]|[Hnin _]]; [exact H|].
  exfalso. apply Hnin. apply keys_get. now exists column.
Qed.

(** With an empty registry no row gets a rate. *)
Lemma get_brokerage_empty (df : frame value) (i : nat) :
  get_brokerage value_str score [] df i = None.
Proof.
  rewrite get_brokerage_cases.
  destruct (Dict.get text_eqb brokerage_type_map _); [|reflexivity].
  now destruct (is_empty _).
Qed.

Lemma fill_excel_rates (df : frame value) (sm : registry) :
  let out := fill_excel value_str format_dates rate_value score df sm in
  let resolved :=
    map (fun i => rate_value
                    (get_brokerage value_str score (normalize_keys sm)
                                   (convert_dates format_dates df) i))
        (seq 0 (n_rows (convert_dates format_dates df))) in
  out = frame_set (frame_set (convert_dates format_dates df)
                             (str "T15") resolved)
                  (str "B15") resolved.
Proof.
  intros out resolved. unfold out, fill_excel. fold resolved.
  now rewrite frame_get_set_same.
Qed.
End Sheet.

(** X16.  When [extract_scheme_data] returns the empty registry, because
    every attempt stopped on an exception or because no attempt found a
    record, [fill_excel] gives, for a sheet whose column names are text,
    a frame whose columns "T15" and "B15" hold the cell of an absent rate
    in every row. *)
Theorem empty_registry_fills_absent_rates
        (value : Type) (value_str : value -> text)
        (format_dates : list value -> list value)
        (rate_value : option rate -> value)
        (score : text -> text -> nat)
        (pdf_open : text -> option text -> call document)
        (pdf_path : text) (passwords : list text) (df : frame value) :
  extract_scheme_data pdf_open pdf_path passwords = [] ->
  let out := fill_excel value_str format_dates rate_value score df
                        (extract_scheme_data pdf_open pdf_path passwords) in
  let absent := map (fun _ => rate_value None)
                    (seq 0 (n_rows (convert_dates format_dates df))) in
  frame_get out (str "T15") = Some absent
  /\ frame_get out (str "B15") = Some absent.
Proof.
  intros Hreg out absent.
  unfold out. rewrite fill_excel_rates, Hreg.
  change (normalize_keys []) with (@nil (text * rates)).
  assert (Hcol : map (fun i => rate_value
                                 (get_brokerage value_str score []
                                    (convert_dates format_dates df) i))
                     (seq 0 (n_rows (convert_dates format_dates df)))
                 = absent).
  { unfold absent. apply map_ext. intros i.
    now rewrite get_brokerage_empty. }
  rewrite Hcol. split.
  - rewrite frame_get_set_other by discriminate. apply frame_get_set_same.
  - apply frame_get_set_same.
Qed.

(** A document that can be read and holds no rate. *)
Lemma empty_registry_fills_absent_rates_witness :
  let pdf_open := fun (_ : text) (_ : option text) =>
                    Returns [text_page "Statement of account"] in
  extract_scheme_data pdf_open (str "rates.pdf") PDF_PASSWORDS = []
  /\ frame_get (xl_fill_excel sheet
                  (extract_scheme_data pdf_open (str "rates.pdf")
                                       PDF_PASSWORDS))
               (str "T15") = Some [XNaN; XNaN]
  /\ frame_get (xl_fill_excel sheet
                  (extract_scheme_data pdf_open (str "rates.pdf")
                                       PDF_PASSWORDS))
               (str "B15") = Some [XNaN; XNaN].
Proof.
  intros pdf_open.
  assert (H : extract_scheme_data pdf_open (str "rates.pdf") PDF_PASSWORDS
              = []) by (vm_compute; reflexivity).
  exact (conj H (empty_registry_fills_absent_rates
                   xl_value xl_str xl_format_dates xl_rate exact_score
                   pdf_open (str "rates.pdf") PDF_PASSWORDS sheet H)).
Defined.

(** X18.  For a sheet whose column names are text, no column is dropped
    or moved and none is added twice: the columns of the frame that
    [fill_excel] gives are the columns of the input, in their order,
    followed by those of "T15" and "B15", in this order, that the input
    does not have. *)
Theorem fill_excel_columns_are_exact
        (value : Type) (value_str : value -> text)
        (format_dates : list value -> list value)
        (rate_value : option rate -> value)
        (score : text -> text -> nat)
        (df : frame value) (sm : registry) :
  let out := fill_excel value_str format_dates rate_value score df sm in
  Dict.keys out
  = Dict.keys df
    ++ filter (fun c => negb (existsb (text_eqb c) (Dict.keys df)))
              [str "T15"; str "B15"].
Proof.
  intros out. unfold out. rewrite fill_excel_rates.
  set (resolved := map _ _). unfold frame_set.
  set (df1 := convert_dates format_dates df).
  assert (H1 : Dict.keys df1 = Dict.keys df) by apply convert_dates_keys.
  assert (Hex : forall c l, existsb (text_eqb c) l = true <-> In c l).
  { intros c l. rewrite existsb_exists. split.
    - intros [x [Hx E]]. apply text_eqb_eq in E. now subst x.
    - intros Hc. exists c. split; [exact Hc|apply text_eqb_refl]. }
  assert (Hno : forall c l, ~ In c l -> existsb (text_eqb c) l = false).
  { intros c l Hc. destruct (existsb (text_eqb c) l) eqn:E; [|reflexivity].
    apply Hex in E. contradiction. }
  cbn [filter].
  destruct (set_keys (list value) df1 (str "T15") resolved)
    as [[Hin Hk]|[Hnin Hk]];
    set (df2 := Dict.set text_eqb df1 (str "T15") resolved) in *;
    destruct (set_keys (list value) df2 (str "B15") resolved)
      as [[Hin2 Hk2]|[Hnin2 Hk2]]; rewrite Hk2, Hk, H1;
    rewrite Hk, H1 in *.
  - rewrite (proj2 (Hex _ _) Hin), (proj2 (Hex _ _) Hin2).
    cbn [negb]. now rewrite app_nil_r.
  - rewrite (proj2 (Hex _ _) Hin), (Hno _ _ Hnin2). reflexivity.
  - assert (Hb : In (str "B15") (Dict.keys df)).
    { apply in_app_or in Hin2. destruct Hin2 as [H|[H|[]]];
        [exact H|discriminate H]. }
    rewrite (Hno _ _ Hnin), (proj2 (Hex _ _) Hb). reflexivity.
  - assert (Hb : ~ In (str "B15") (Dict.keys df)).
    { intros H. apply Hnin2. apply in_or_app. now left. }
    rewrite (Hno _ _ Hnin), (Hno _ _ Hb).
    cbn [negb]. now rewrite <- app_assoc.
Qed.

(** X19.  The [ValueError] branches are never taken.  Every number that
    [rate_pattern] finds in a text is a run of decimal digits, a period,
    one or two decimal digits and at most one percent sign, and [float]
    reads it once the percent sign is stripped. *)
Theorem found_number_is_a_float (s m : text) :
  In m (findall rate_pattern s) ->
  (exists ds d1 tail pct,
      m = ds ++ "."%char :: d1 :: tail ++ pct
      /\ forallb is_digit ds = true /\ is_digit d1 = true
      /\ (tail = [] \/ exists d2, tail = [d2] /\ is_digit d2 = true)
      /\ (pct = [] \/ pct = ["%"%char]))
  /\ exists v, to_float (rstrip_char "%" (replace_comma m)) = Some v.
Proof.
  intros H. split; [|exact (found_rates_are_floats s m H)].
  unfold findall, pieces in H.
  destruct (scan_found _ _ _ _ _ H) as [prev [rest Hm]].
  destruct (rate_match _ _ _ Hm)
    as [ds [d1 [tail [pct [Hs [Hds [Hd1 [Htail Hpct]]]]]]]].
  apply app_inv_tail in Hs. subst m.
  exists ds, d1, tail, pct. repeat split; assumption.
Qed.

Lemma found_number_is_a_float_witness :
  In (str "12.50%") (findall rate_pattern (str "fee 12.50% p.a."))
  /\ (exists ds d1 tail pct,
         str "12.50%" = ds ++ "."%char :: d1 :: tail ++ pct
         /\ forallb is_digit ds = true /\ is_digit d1 = true
         /\ (tail = [] \/ exists d2, tail = [d2] /\ is_digit d2 = true)
         /\ (pct = [] \/ pct = ["%"%char]))
  /\ exists v,
       to_float (rstrip_char "%" (replace_comma (str "12.50%"))) = Some v.
Proof.
  assert (H : In (str "12.50%")
                 (findall rate_pattern (str "fee 12.50% p.a.")))
    by (vm_compute; now left).
  exact (conj H (found_number_is_a_float _ _ H)).
Defined.

(* ================================================================== *)
(** ** The header of a table *)
(* ================================================================== *)

Section KeyDict.
Variables K V : Type.
Variable eqb : K -> K -> bool.
Hypothesis eqb_eq : forall a b, eqb a b = true <-> a = b.

Lemma kd_get_set_same (d : Dict.dict K V) (k : K) (v : V) :
  Dict.get eqb (Dict.set eqb d k v) k = Some v.
Proof.
  assert (Hrefl : eqb k k = true) by now apply eqb_eq.
  induction d as [|[k' v'] d IH]; cbn [Dict.set Dict.get].
  - now rewrite Hrefl.
  - destruct (eqb k k') eqn:E; cbn [Dict.get]; rewrite E;
      [reflexivity | exact IH].
Qed.

Lemma kd_get_set_other (d : Dict.dict K V) (k other : K) (v : V) :
  other <> k ->
  Dict.get eqb (Dict.set eqb d k v) other = Dict.get eqb d other.
Proof.
  intros Hne.
  assert (Hf : eqb other k = false).
  { destruct (eqb other k) eqn:E; [|reflexivity].
    apply eqb_eq in E. contradiction. }
  induction d as [|[k' v'] d IH]; cbn [Dict.set Dict.get].
  - now rewrite Hf.
  - destruct (eqb k k') eqn:E; cbn [Dict.get].
    + apply eqb_eq in E. subst k'. now rewrite Hf.
    + destruct (eqb other k'); [reflexivity | exact IH].
Qed.

Lemma kd_set_Forall (Q : K * V -> Prop) (d : Dict.dict K V) (k : K) (v : V) :
  Forall Q d -> Q (k, v) -> Forall Q (Dict.set eqb d k v).
Proof.
  intros Hd Hq. induction Hd as [|[k' v'] d H1 H2 IH]; cbn [Dict.set].
  - now constructor.
  - destruct (eqb k k') eqn:E; constructor; try assumption.
    apply eqb_eq in E. now subst.
Qed.
End KeyDict.

Lemma col_key_eqb_eq (a b : col_key) : col_key_eqb a b = true <-> a = b.
Proof.
  destruct a as [|x], b as [|y]; cbn; split; try discriminate;
    try reflexivity.
  - destruct x, y; cbn; intros H; try discriminate; reflexivity.
  - intros [= ->]. now destruct y.
Qed.

Lemma enumerate_from (A : Type) (h : list A) (x : A) :
  forall s,
    combine (seq s (List.length (h ++ [x]))) (h ++ [x])
    = combine (seq s (List.length h)) h ++ [(s + List.length h, x)].
Proof.
  induction h as [|a h IH]; intros s; cbn [app List.length seq combine].
  - now rewrite Nat.add_0_r.
  - rewrite IH. cbn [app]. now rewrite Nat.add_succ_comm.
Qed.

Lemma enumerate_snoc (A : Type) (h : list A) (x : A) :
  enumerate (h ++ [x]) = enumerate h ++ [(List.length h, x)].
Proof. unfold enumerate. now rewrite enumerate_from. Qed.

Lemma map_header_snoc (h : list text) (x : text) :
  map_header (h ++ [x]) = map_column (map_header h) (List.length h, x).
Proof.
  unfold map_header. now rewrite enumerate_snoc, fold_left_app.
Qed.

Lemma set_tiers_scheme (bts : list tier) (i : nat) (cm : col_mapping) :
  Dict.get col_key_eqb
           (fold_left (fun cm bt => Dict.set col_key_eqb cm (BT bt) i) bts cm)
           SCHEME
  = Dict.get col_key_eqb cm SCHEME.
Proof.
  revert cm. induction bts as [|bt l IH]; intros cm; cbn [fold_left];
    [reflexivity|].
  rewrite IH. apply (kd_get_set_other _ _ _ col_key_eqb_eq). discriminate.
Qed.

Lemma map_column_scheme (cm : col_mapping) (i : nat) (col : text) :
  Dict.get col_key_eqb (map_column cm (i, col)) SCHEME
  = if is_name_header col then Some i else Dict.get col_key_eqb cm SCHEME.
Proof.
  unfold map_column, is_name_header.
  destruct (contains_any NAME_MARKERS (lower col)).
  - apply (kd_get_set_same _ _ _ col_key_eqb_eq).
  - apply set_tiers_scheme.
Qed.

Lemma scheme_column (header : list text) :
  match Dict.get col_key_eqb (map_header header) SCHEME with
  | Some i =>
      i < List.length header
      /\ is_name_header (nth i header []) = true
      /\ forall j, i < j -> j < List.length header ->
                   is_name_header (nth j header []) = false
  | None =>
      forall j, j < List.length header ->
                is_name_header (nth j header []) = false
  end.
Proof.
  induction header as [|x h IH] using rev_ind.
  - cbn. intros j Hj. inversion Hj.
  - rewrite map_header_snoc, map_column_scheme, length_app.
    cbn [List.length]. destruct (is_name_header x) eqn:Ex.
    + split; [lia|]. split.
      * now rewrite nth_middle.
      * intros j H1 H2. lia.
    + destruct (Dict.get col_key_eqb (map_header h) SCHEME) as [i|].
      * destruct IH as [H1 [H2 H3]]. split; [lia|]. split.
        -- now rewrite app_nth1.
        -- intros j Hj1 Hj2.
           destruct (Nat.eq_dec j (List.length h)) as [->|Hne].
           ++ now rewrite nth_middle.
           ++ rewrite app_nth1 by lia. apply H3; lia.
      * intros j Hj.
        destruct (Nat.eq_dec j (List.length h)) as [->|Hne].
        -- now rewrite nth_middle.
        -- rewrite app_nth1 by lia. apply IH. lia.
Qed.

(** X24.  The column of the fund names is the last column whose header
    holds "scheme", "fund" or "name": [map_header] maps "SCHEME" to the
    index of that column, and to nothing when no header holds one of the
    three words. *)
Theorem scheme_column_is_the_last_name_header (header : list text) :
  match Dict.get col_key_eqb (map_header header) SCHEME with
  | Some i =>
      i < List.length header
      /\ is_name_header (nth i header []) = true
      /\ forall j, i < j -> j < List.length header ->
                   is_name_header (nth j header []) = false
  | None =>
      forall j, j < List.length header ->
                is_name_header (nth j header []) = false
  end.
Proof. apply scheme_column. Qed.

Lemma sound_entry_snoc (h : list text) (x : text) (e : col_key * nat) :
  sound_entry h e -> sound_entry (h ++ [x]) e.
Proof.
  unfold sound_entry. intros [Hi He]. rewrite length_app. cbn [List.length].
  split; [lia|]. now rewrite app_nth1.
Qed.

Lemma set_tiers_Forall (Q : col_key * nat -> Prop) (bts : list tier)
      (i : nat) (cm : col_mapping) :
  Forall Q cm -> (forall bt, In bt bts -> Q (BT bt, i)) ->
  Forall Q (fold_left (fun cm bt => Dict.set col_key_eqb cm (BT bt) i) bts cm).
Proof.
  revert cm. induction bts as [|bt l IH]; intros cm Hcm Hq; cbn [fold_left];
    [exact Hcm|].
  apply IH.
  - apply (kd_set_Forall _ _ _ col_key_eqb_eq); [exact Hcm|].
    apply Hq. now left.
  - intros b Hb. apply Hq. now right.
Qed.

(** X25.  Every entry of the column mapping of a header is sound: its
    index is within the header, the "SCHEME" column is a name column,
    and a column mapped to a tier is never a name column and its header
    is classified as that tier. *)
Theorem map_header_is_sound (header : list text) :
  Forall (sound_entry header) (map_header header).
Proof.
  induction header as [|x h IH] using rev_ind; [constructor|].
  rewrite map_header_snoc.
  assert (Hold : Forall (sound_entry (h ++ [x])) (map_header h)).
  { apply Forall_impl with (2 := IH). intros e. apply sound_entry_snoc. }
  unfold map_column. fold (is_name_header x).
  destruct (is_name_header x) eqn:Ex.
  - apply (kd_set_Forall _ _ _ col_key_eqb_eq); [exact Hold|].
    unfold sound_entry. cbn [fst snd]. rewrite length_app, nth_middle.
    cbn [List.length]. split; [lia | exact Ex].
  - apply set_tiers_Forall; [exact Hold|].
    intros bt Hbt. unfold sound_entry. cbn [fst snd].
    rewrite length_app, nth_middle. cbn [List.length].
    split; [lia|]. now split.
Qed.

(** X26.  A table none of whose header cells holds "scheme", "fund" or
    "name" adds no record; with two rows or more it still counts as a
    table that was found. *)
Theorem table_without_name_header_is_skipped
        (st : registry * bool) (header_row : row) (data : list row) :
  (forall j, j < List.length (header_of header_row) ->
             is_name_header (nth j (header_of header_row) []) = false) ->
  fst (process_table st (header_row :: data)) = fst st
  /\ (data <> [] -> snd (process_table st (header_row :: data)) = true).
Proof.
  intros Hno.
  assert (Hnone : Dict.get col_key_eqb (map_header (header_of header_row))
                           SCHEME = None).
  { pose proof (scheme_column (header_of header_row)) as H.
    destruct (Dict.get col_key_eqb _ SCHEME) as [i|]; [|reflexivity].
    destruct H as [Hi [Hm _]]. rewrite (Hno i Hi) in Hm. discriminate. }
  unfold process_table. destruct data as [|r data].
  - split; [reflexivity | intros H; contradiction].
  - rewrite Hnone. split; [reflexivity | intros _; reflexivity].
Qed.

Lemma table_without_name_header_is_skipped_witness :
  let header_row := cells ["Plan"; "1st Yr Trail"]%string in
  let data := [cells ["ABC"; "0.50%"]%string] in
  (forall j, j < List.length (header_of header_row) ->
             is_name_header (nth j (header_of header_row) []) = false)
  /\ fst (process_table (registry_A, false) (header_row :: data)) = registry_A
  /\ snd (process_table (registry_A, false) (header_row :: data)) = true.
Proof.
  intros header_row data.
  assert (H : forall j, j < List.length (header_of header_row) ->
                is_name_header (nth j (header_of header_row) []) = false).
  { intros j Hj. change (List.length (header_of header_row)) with 2 in Hj.
    destruct j as [|[|j]]; [vm_compute; reflexivity.. | lia]. }
  destruct (table_without_name_header_is_skipped
              (registry_A, false) header_row data H) as [H1 H2].
  refine (conj H (conj H1 (H2 _))). discriminate.
Defined.

(* ================================================================== *)
(** ** After a table has given a record *)
(* ================================================================== *)

Lemma reg_set_not_empty (sm : registry) (k : text) (r : rates) :
  reg_set sm k r <> [].
Proof. destruct sm as [|[k' r'] sm]; cbn; [|destruct (text_eqb k k')];
         discriminate. Qed.

Lemma tables_keep_records (tables : list table) (st : registry * bool) :
  fst st <> [] -> fst (fold_left process_table tables st) <> [].
Proof.
  intros H.
  apply (fold_left_keeps _ _ (fun s => fst s <> [])); [|exact H].
  intros a t. apply (process_table_inv (fun sm => sm <> [])).
  intros sm name rec _ _ _ _. apply reg_set_not_empty.
Qed.

(** X21.  Once a table has been found and the registry holds a record,
    the text of no later page is read for the rest of the attempt: the
    registry is then built from tables only. *)
Theorem no_text_after_a_table_gave_a_record
        (pages : list page) (st st' : attempt_state) :
  tables_found st = true -> scheme_map st <> [] ->
  process_pages st pages = Done st' ->
  fallback_log st' = fallback_log st ++ repeat false (List.length pages)
  /\ tables_found st' = true /\ scheme_map st' <> [].
Proof.
  revert st. induction pages as [|pg rest IH]; intros st Hf Hne;
    cbn [process_pages List.length repeat].
  - intros [= <-]. now rewrite app_nil_r.
  - destruct (extract_tables pg) as [tables|] eqn:Et.
    + pose proof (process_tables_found tables
                    (scheme_map st, tables_found st)) as Hsnd.
      pose proof (tables_keep_records tables
                    (scheme_map st, tables_found st) Hne) as Hkeep.
      unfold process_page. rewrite Et.
      remember (fold_left process_table tables
                          (scheme_map st, tables_found st)) as res eqn:Eres.
      destruct res as [sm found]. cbn [fst snd] in Hsnd, Hkeep.
      rewrite Hf in Hsnd. cbn [orb] in Hsnd. subst found.
      destruct sm as [|kv sm]; [contradiction|].
      cbn [negb orb is_empty]. intros Hrest.
      destruct (IH (AttemptState (kv :: sm) true (fallback_log st ++ [false]))
                   eq_refl ltac:(discriminate) Hrest) as [H1 [H2 H3]].
      split; [|now split].
      rewrite H1. cbn [fallback_log]. now rewrite <- app_assoc.
    + unfold process_page. rewrite Et. discriminate.
Qed.

Lemma no_text_after_a_table_gave_a_record_witness :
  let st := AttemptState registry_A true [false] in
  let pages := [text_page "XYZ Fund 0.30%"; text_page "Other Fund 0.10%"] in
  process_pages st pages = Done (AttemptState registry_A true [false; false; false])
  /\ fallback_log (AttemptState registry_A true [false; false; false])
     = fallback_log st ++ repeat false (List.length pages).
Proof.
  intros st pages.
  assert (H : process_pages st pages
              = Done (AttemptState registry_A true [false; false; false]))
    by (vm_compute; reflexivity).
  assert (Hne : scheme_map st <> []) by discriminate.
  exact (conj H (proj1 (no_text_after_a_table_gave_a_record
                          pages st _ eq_refl Hne H))).
Defined.

(* ================================================================== *)
(** ** The rates of a row *)
(* ================================================================== *)

Section KeyDictKeys.
Variables K V : Type.
Variable eqb : K -> K -> bool.
Hypothesis eqb_eq : forall a b, eqb a b = true <-> a = b.

Lemma kd_set_keys (d : Dict.dict K V) (k : K) (v : V) :
  (In k (Dict.keys d) /\ Dict.keys (Dict.set eqb d k v) = Dict.keys d)
  \/ (~ In k (Dict.keys d)
      /\ Dict.keys (Dict.set eqb d k v) = Dict.keys d ++ [k]).
Proof.
  unfold Dict.keys. induction d as [|[k' v'] d IH]; cbn [Dict.set map fst].
  - right. split; [intros [] | reflexivity].
  - destruct (eqb k k') eqn:E.
    + apply eqb_eq in E. subst. left. split; [now left | reflexivity].
    + cbn [map fst app].
      destruct IH as [[Hin Hk]|[Hnin Hk]]; rewrite Hk.
      * left. split; [now right | reflexivity].
      * right. split; [|reflexivity]. intros [->|H]; [|now apply Hnin].
        assert (eqb k k = true) by now apply eqb_eq. congruence.
Qed.

Lemma kd_set_distinct (d : Dict.dict K V) (k : K) (v : V) :
  NoDup (Dict.keys d) -> NoDup (Dict.keys (Dict.set eqb d k v)).
Proof.
  intros H. destruct (kd_set_keys d k v) as [[_ ->]|[Hnin ->]]; [exact H|].
  apply NoDup_app; [exact H | repeat constructor; intros [] |].
  intros x Hx [<-|[]]. now apply Hnin.
Qed.

Lemma kd_get_none (d : Dict.dict K V) (k : K) :
  ~ In k (Dict.keys d) -> Dict.get eqb d k = None.
Proof.
  unfold Dict.keys. induction d as [|[k' v'] d IH]; cbn [map fst Dict.get];
    [reflexivity|].
  intros H. destruct (eqb k k') eqn:E.
  - apply eqb_eq in E. subst. exfalso. apply H. now left.
  - apply IH. intros Hin. apply H. now right.
Qed.
End KeyDictKeys.

Lemma map_header_distinct (header : list text) :
  NoDup (Dict.keys (map_header header)).
Proof.
  unfold map_header.
  apply (fold_left_keeps _ _ (fun cm => NoDup (Dict.keys cm)));
    [|constructor].
  intros cm [i col] Hcm. unfold map_column.
  destruct (contains_any NAME_MARKERS (lower col)).
  - now apply (kd_set_distinct _ _ _ col_key_eqb_eq).
  - apply (fold_left_keeps _ _ (fun cm => NoDup (Dict.keys cm)));
      [|exact Hcm].
    intros a bt Ha. now apply (kd_set_distinct _ _ _ col_key_eqb_eq).
Qed.

(** The fold of lines 141-153 over a mapping without a repeated key,
    from any record. *)
Lemma row_rates_from (r : row) (bt : tier) (cm : col_mapping) :
  NoDup (Dict.keys cm) ->
  forall acc,
    rget (fold_left
            (fun rates (e : col_key * nat) =>
               match e with
               | (SCHEME, _) => rates
               | (BT bt, col_idx) =>
                   if List.length r <=? col_idx then rates
                   else match cell_rate (nth col_idx r None) with
                        | Some rate_value => rset rates bt (Some rate_value)
                        | None => rates
                        end
               end) cm acc) bt
    = match Dict.get col_key_eqb cm (BT bt) with
      | Some col_idx =>
          if List.length r <=? col_idx then rget acc bt
          else match cell_rate (nth col_idx r None) with
               | Some rate_value => Some rate_value
               | None => rget acc bt
               end
      | None => rget acc bt
      end.
Proof.
  induction cm as [|[k idx] cm IH]; intros Hnd acc; [reflexivity|].
  cbn [Dict.keys map fst] in Hnd. inversion Hnd as [|? ? Hnotin Hnd'].
  subst. cbn [fold_left Dict.get].
  destruct (col_key_eqb (BT bt) k) eqn:E.
  - apply col_key_eqb_eq in E. subst k.
    rewrite (IH Hnd').
    rewrite (kd_get_none _ _ _ col_key_eqb_eq cm (BT bt) Hnotin).
    destruct (List.length r <=? idx); [reflexivity|].
    destruct (cell_rate _); [apply rget_rset_same | reflexivity].
  - rewrite (IH Hnd'). clear IH.
    assert (Hsame : rget match k with
                         | SCHEME => acc
                         | BT bt0 =>
                             if List.length r <=? idx then acc
                             else match cell_rate (nth idx r None) with
                                  | Some rate_value =>
                                      rset acc bt0 (Some rate_value)
                                  | None => acc
                                  end
                         end bt = rget acc bt).
    { destruct k as [|bt0]; [reflexivity|].
      destruct (List.length r <=? idx); [reflexivity|].
      destruct (cell_rate _); [|reflexivity].
      apply rget_rset_other. intros ->.
      assert (col_key_eqb (BT bt) (BT bt) = true)
        by now apply col_key_eqb_eq.
      congruence. }
    now rewrite Hsame.
Qed.

(** X22.  In a row, the rate of a tier is read from the cell of the
    column that the header maps to that tier: it is the first number of
    that cell when it does not exceed 10.0, and it is absent when no
    column is mapped to the tier, when the row is too short to have the
    column, or when the cell holds no such number. *)
Theorem row_rate_comes_from_its_column
        (header : list text) (r : row) (bt : tier) :
  rget (row_rates (map_header header) r) bt
  = match Dict.get col_key_eqb (map_header header) (BT bt) with
    | Some col_idx =>
        if List.length r <=? col_idx then None
        else cell_rate (nth col_idx r None)
    | None => None
    end.
Proof.
  unfold row_rates.
  rewrite (row_rates_from r bt (map_header header)
                          (map_header_distinct header) no_rates).
  assert (Hnone : rget no_rates bt = None) by now destruct bt.
  rewrite Hnone.
  destruct (Dict.get col_key_eqb (map_header header) (BT bt)); [|reflexivity].
  destruct (List.length r <=? n); [reflexivity|].
  now destruct (cell_rate _).
Qed.

(* ================================================================== *)
(** ** The numbers of a block of text *)
(* ================================================================== *)

Lemma tiers_distinct : NoDup BROKERAGE_TYPES.
Proof. repeat constructor; cbn; intuition discriminate. Qed.

Lemma tier_index_bound (k : nat) (t : tier) :
  nth_error BROKERAGE_TYPES k = Some t -> k < 5.
Proof.
  intros H. assert (Hk : nth_error BROKERAGE_TYPES k <> None) by congruence.
  apply nth_error_Some in Hk. exact Hk.
Qed.

(** One number, on a line that names no tier: [acc] holds the numbers
    stored so far. *)
Lemma take_rate_in_order (acc : list rate) (st : rates * nat) (m : text) :
  snd st = Nat.min 5 (List.length acc) ->
  (forall k t, nth_error BROKERAGE_TYPES k = Some t ->
               rget (fst st) t = nth_error acc k) ->
  let acc' := acc ++ match accepted_rate m with
                     | Some v => [v]
                     | None => []
                     end in
  snd (take_rate [] st m) = Nat.min 5 (List.length acc')
  /\ (forall k t, nth_error BROKERAGE_TYPES k = Some t ->
                  rget (fst (take_rate [] st m)) t = nth_error acc' k).
Proof.
  destruct st as [rates idx]. intros Hidx Hr acc'. subst acc'.
  cbn [fst snd] in Hidx, Hr.
  unfold take_rate. destruct (accepted_rate m) as [v|].
  - cbn [is_empty negb andb].
    destruct (nth_error BROKERAGE_TYPES idx) as [bt|] eqn:Ebt.
    + pose proof (tier_index_bound idx bt Ebt) as Hlt.
      assert (Hlen : idx = List.length acc) by lia.
      cbn [fst snd]. rewrite length_app. cbn [List.length]. split; [lia|].
      intros k t Hk. destruct (tier_eq_dec bt t) as [->|Hne].
      * assert (k = idx).
        { apply (proj1 (NoDup_nth_error BROKERAGE_TYPES) tiers_distinct).
          - apply nth_error_Some. congruence.
          - congruence. }
        subst k. rewrite rget_rset_same, Hlen, nth_error_app2 by lia.
        now rewrite Nat.sub_diag.
      * rewrite rget_rset_other by exact Hne. rewrite (Hr k t Hk).
        destruct (Nat.lt_ge_cases k (List.length acc)) as [Hlt'|Hge].
        -- now rewrite nth_error_app1.
        -- assert (k <> idx) by (intros ->; congruence).
           rewrite (proj2 (nth_error_None acc k)) by lia.
           symmetry. apply nth_error_None. rewrite length_app.
           cbn [List.length]. lia.
    + apply nth_error_None in Ebt. change (5 <= idx) in Ebt.
      cbn [fst snd]. rewrite length_app. cbn [List.length]. split; [lia|].
      intros k t Hk. rewrite (Hr k t Hk).
      pose proof (tier_index_bound k t Hk).
      rewrite nth_error_app1 by lia. reflexivity.
  - cbn [fst snd]. rewrite app_nil_r. now split.
Qed.

Lemma take_rates_in_order (ms : list text) :
  forall (acc : list rate) (st : rates * nat),
    snd st = Nat.min 5 (List.length acc) ->
    (forall k t, nth_error BROKERAGE_TYPES k = Some t ->
                 rget (fst st) t = nth_error acc k) ->
    let acc' := acc ++ flat_map (fun m => match accepted_rate m with
                                          | Some v => [v]
                                          | None => []
                                          end) ms in
    snd (fold_left (take_rate []) ms st) = Nat.min 5 (List.length acc')
    /\ (forall k t, nth_error BROKERAGE_TYPES k = Some t ->
                    rget (fst (fold_left (take_rate []) ms st)) t
                    = nth_error acc' k).
Proof.
  induction ms as [|m ms IH]; intros acc st Hidx Hr; cbn [fold_left flat_map].
  - rewrite app_nil_r. now split.
  - destruct (take_rate_in_order acc st m Hidx Hr) as [H1 H2].
    cbn zeta in H1, H2. specialize (IH _ _ H1 H2). cbn zeta in IH.
    now rewrite <- app_assoc in IH.
Qed.

Lemma sub_lines_in_order (window : list text) :
  forallb (fun raw => is_empty (classify (normalize (strip raw)))) window
  = true ->
  forall (acc : list rate) (st : rates * nat),
    snd st = Nat.min 5 (List.length acc) ->
    (forall k t, nth_error BROKERAGE_TYPES k = Some t ->
                 rget (fst st) t = nth_error acc k) ->
    forall k t, nth_error BROKERAGE_TYPES k = Some t ->
      rget (fst (fold_left sub_line window st)) t
      = nth_error
          (acc ++ flat_map
                    (fun raw =>
                       flat_map (fun m => match accepted_rate m with
                                          | Some v => [v]
                                          | None => []
                                          end)
                                (findall rate_pattern (normalize (strip raw))))
                    window) k.
Proof.
  induction window as [|raw rest IH]; intros Hun acc st Hidx Hr;
    cbn [fold_left flat_map forallb] in *.
  - rewrite app_nil_r. exact Hr.
  - apply andb_true_iff in Hun. destruct Hun as [Hraw Hrest].
    unfold sub_line at 2.
    destruct (classify (normalize (strip raw))) as [|bt bts] eqn:Ec;
      [|discriminate].
    destruct (take_rates_in_order
                (findall rate_pattern (normalize (strip raw))) acc st Hidx Hr)
      as [H1 H2].
    cbn zeta in H1, H2. intros k t Hk.
    rewrite (IH Hrest _ _ H1 H2 k t Hk). now rewrite <- app_assoc.
Qed.

(** X23.  In a block of text whose lines name no tier, the numbers fill
    the tiers in their order: the first number that does not exceed 10.0
    is the first-year rate, the second the second-year rate, and so on;
    a number above 10.0 takes no place, and a sixth number is dropped. *)
Theorem unlabelled_numbers_fill_tiers_in_order
        (lines : list text) (k : nat) (t : tier) :
  unlabelled lines = true ->
  nth_error BROKERAGE_TYPES k = Some t ->
  rget (block_rates lines) t = nth_error (block_numbers lines) k.
Proof.
  intros Hun Hk. unfold block_rates, block_numbers.
  apply (sub_lines_in_order _ Hun [] (no_rates, 0)); try assumption.
  - reflexivity.
  - intros k' t' Hk'. destruct k' as [|k']; now destruct t'.
Qed.

Lemma unlabelled_numbers_fill_tiers_in_order_witness :
  let lines := [str "abc fund 0.50"; str "12.00 0.40"; str "0.30"] in
  unlabelled lines = true
  /\ nth_error BROKERAGE_TYPES 1 = Some SECOND
  /\ block_numbers lines = [50%N; 40%N; 30%N]
  /\ rget (block_rates lines) SECOND = nth_error (block_numbers lines) 1.
Proof.
  intros lines.
  assert (H1 : unlabelled lines = true) by (vm_compute; reflexivity).
  assert (H2 : nth_error BROKERAGE_TYPES 1 = Some SECOND) by reflexivity.
  assert (H3 : block_numbers lines = [50%N; 40%N; 30%N])
    by (vm_compute; reflexivity).
  exact (conj H1 (conj H2 (conj H3
           (unlabelled_numbers_fill_tiers_in_order lines 1 SECOND H1 H2)))).
Defined.

(* ================================================================== *)
(** ** The dictionary the rows are looked up in *)
(* ================================================================== *)

Lemma normalize_keys_from (sm : registry) (l : list (text * rates)) :
  forall d : registry,
    incl l sm ->
    NoDup (Dict.keys d) ->
    Forall (fun e => exists k0, In (k0, snd e) sm /\ normalize k0 = fst e) d ->
    let d' := fold_left (fun d (kv : text * rates) =>
                           reg_set d (normalize (fst kv)) (snd kv)) l d in
    NoDup (Dict.keys d')
    /\ Forall (fun e => exists k0, In (k0, snd e) sm /\ normalize k0 = fst e) d'.
Proof.
  induction l as [|[k r] l IH]; intros d Hincl Hnd Hall; cbn [fold_left].
  - now split.
  - apply IH.
    + intros x Hx. apply Hincl. now right.
    + now apply set_distinct.
    + apply set_Forall; [exact Hall|]. cbn [fst snd].
      exists k. split; [apply Hincl; now left | reflexivity].
Qed.

Lemma set_absent (V : Type) (d : Dict.dict text V) (k : text) (v : V) :
  ~ In k (Dict.keys d) -> Dict.set text_eqb d k v = d ++ [(k, v)].
Proof.
  unfold Dict.keys. induction d as [|[k' v'] d IH]; cbn [map fst Dict.set app];
    [reflexivity|].
  intros H. rewrite text_eqb_neq by (intros ->; apply H; now left).
  rewrite IH; [reflexivity|]. intros Hin. apply H. now right.
Qed.

(** X27.  The dictionary the rows are looked up in has distinct keys, and
    each of its records is a record of the registry, under the
    normalized form of the key it has there.  When the keys of the
    registry are distinct and [normalize] leaves them as they are, the
    dictionary is the registry. *)
Theorem lookup_dictionary_holds_registry_records (sm : registry) :
  distinct_keys (normalize_keys sm)
  /\ (forall k r, reg_get (normalize_keys sm) k = Some r ->
                  exists k0, In (k0, r) sm /\ normalize k0 = k)
  /\ (distinct_keys sm ->
      (forall k r, In (k, r) sm -> normalize k = k) ->
      normalize_keys sm = sm).
Proof.
  destruct (normalize_keys_from sm sm [] (incl_refl sm)) as [Hnd Hall];
    [constructor | constructor |].
  cbn zeta in Hnd, Hall. fold (normalize_keys sm) in Hnd, Hall.
  split; [exact Hnd|]. split.
  - intros k r Hget. apply get_In in Hget.
    rewrite Forall_forall in Hall. exact (Hall _ Hget).
  - unfold distinct_keys, normalize_keys. clear Hnd Hall.
    induction sm as [|[k r] sm IH] using rev_ind; [reflexivity|].
    intros Hd Hfix. rewrite fold_left_app. cbn [fold_left fst snd].
    unfold Dict.keys in Hd. rewrite map_app in Hd. cbn [map fst] in Hd.
    rewrite IH.
    + rewrite (Hfix k r) by (apply in_or_app; right; now left).
      apply set_absent. apply NoDup_remove_2 in Hd.
      rewrite app_nil_r in Hd. exact Hd.
    + apply NoDup_remove_1 in Hd. now rewrite app_nil_r in Hd.
    + intros k' r' Hin. apply (Hfix k' r'). apply in_or_app. now left.
Qed.

Lemma lookup_dictionary_holds_registry_records_witness :
  let sm := [ (str "abc retail plan", Rates (Some 50%N) None None None None);
              (str "abc", Rates (Some 30%N) None None None None) ] in
  distinct_keys (normalize_keys sm)
  /\ reg_get (normalize_keys sm) (str "abc")
     = Some (Rates (Some 30%N) None None None None)
  /\ (exists k0, In (k0, Rates (Some 30%N) None None None None) sm
                 /\ normalize k0 = str "abc")
  /\ normalize_keys registry_A = registry_A.
Proof.
  intros sm.
  destruct (lookup_dictionary_holds_registry_records sm) as [H1 [H2 _]].
  destruct (lookup_dictionary_holds_registry_records registry_A)
    as [_ [_ H3]].
  assert (G : reg_get (normalize_keys sm) (str "abc")
              = Some (Rates (Some 30%N) None None None None))
    by (vm_compute; reflexivity).
  refine (conj H1 (conj G (conj (H2 _ _ G) (H3 _ _)))).
  - repeat constructor. intros [].
  - intros k r [[= <- <-]|[]]. vm_compute. reflexivity.
Defined.

(* ================================================================== *)
(** ** The labels *)
(* ================================================================== *)

(** X28.  Every label of [brokerage_type_map] stands for one tier or for
    a list of tiers of [BROKERAGE_TYPES], and the rate of a record for
    the label is the first rate that is set among those tiers, in their
    order: a label of the first three years gives the first-year rate,
    or else the second-year rate, or else the third-year rate. *)
Theorem label_gives_first_set_rate (b : text) (l : label) :
  Dict.get text_eqb brokerage_type_map b = Some l ->
  exists ts, ts <> []
             /\ label_tiers l = map Some ts
             /\ forall r, lookup_rate r l = first_set (map (rget r) ts).
Proof.
  intros H. apply get_In in H. unfold brokerage_type_map in H.
  repeat (destruct H as [[= <- <-]|H];
          [first [ exists [FIRST]; split; [discriminate|];
                   split; [vm_compute; reflexivity|];
                   intros [[?|] [?|] [?|] [?|] [?|]]; reflexivity
                 | exists [SECOND]; split; [discriminate|];
                   split; [vm_compute; reflexivity|];
                   intros [[?|] [?|] [?|] [?|] [?|]]; reflexivity
                 | exists [THIRD]; split; [discriminate|];
                   split; [vm_compute; reflexivity|];
                   intros [[?|] [?|] [?|] [?|] [?|]]; reflexivity
                 | exists [FOURTH]; split; [discriminate|];
                   split; [vm_compute; reflexivity|];
                   intros [[?|] [?|] [?|] [?|] [?|]]; reflexivity
                 | exists [LONGTERM]; split; [discriminate|];
                   split; [vm_compute; reflexivity|];
                   intros [[?|] [?|] [?|] [?|] [?|]]; reflexivity
                 | exists [FIRST; SECOND; THIRD]; split; [discriminate|];
                   split; [vm_compute; reflexivity|];
                   intros [[?|] [?|] [?|] [?|] [?|]]; reflexivity ]|]).
  destruct H.
Qed.

Lemma label_gives_first_set_rate_witness :
  Dict.get text_eqb brokerage_type_map (str "1-3 YEARS") = Some first_three
  /\ exists ts, ts <> []
                /\ label_tiers first_three = map Some ts
                /\ forall r, lookup_rate r first_three
                             = first_set (map (rget r) ts).
Proof.
  assert (H : Dict.get text_eqb brokerage_type_map (str "1-3 YEARS")
              = Some first_three) by (vm_compute; reflexivity).
  exact (conj H (label_gives_first_set_rate _ _ H)).
Defined.

(* ================================================================== *)
(** ** One document, several passwords *)
(* ================================================================== *)



Section OneDocument.
Variable pdf_open : text -> option text -> call document.
Variable path : text.
Variable doc : document.

End OneDocument.


